(** * txt2png: a shallow embedding of [txt2png.go] and its properties

    The program renders a string into a PNG, one character per fixed-width
    slot.  This development embeds [getColors], [createImage],
    [getFreeTypeContext], [renderText], [loadFont], [saveImage] and [main]
    and proves the properties of the specification about them.

    Conventions.
    - Go's [int] is 64 bits on every platform the build script targets
      (amd64, arm64); it is modelled as [Z] with the wrap-around written
      out ([wrapInt]).  [fixed.Int26_6] is a 32-bit integer.
    - A Go [string] is a sequence of bytes; it is modelled by [string],
      whose characters are bytes.  [for i, r := range s] decodes UTF-8 and
      binds [i] to the byte offset of the rune ([range_string]).
    - [*image.RGBA] is a pointer: images live in a store inside [World] and
      are named by their location, so that the context's [dst] and the
      [rgba] of [main] are aliases of one buffer.
    - The packages the program imports (image, image/draw, image/png,
      freetype, truetype, os, bufio, log, fmt) are not part of the
      repository.  They are modelled by their documented behaviour; the
      font and the PNG encoder are an interface ([FontLib]). *)

From Stdlib Require Import ZArith List String Ascii Bool Lia Sorted.
From Stdlib Require Import Floats.SpecFloat.
From stdpp Require Import base option list strings gmap.

Open Scope Z_scope.

(* ================================================================== *)
(** * Machine integers *)
(* ================================================================== *)

Definition minInt : Z := - 2 ^ 63.
Definition maxInt : Z := 2 ^ 63 - 1.

(** Two's-complement reduction to 64 bits: the value of a Go [int]
    expression whose mathematical result is [z]. *)
Definition wrapInt (z : Z) : Z := (z + 2 ^ 63) mod 2 ^ 64 - 2 ^ 63.

(** Conversion to a 32-bit signed integer ([fixed.Int26_6(x)]). *)
Definition wrapInt32 (z : Z) : Z := (z + 2 ^ 31) mod 2 ^ 32 - 2 ^ 31.

Definition is_int (z : Z) : Prop := minInt <= z <= maxInt.
Definition is_int32 (z : Z) : Prop := - 2 ^ 31 <= z < 2 ^ 31.

Definition int_add (a b : Z) : Z := wrapInt (a + b).
Definition int_sub (a b : Z) : Z := wrapInt (a - b).
Definition int_mul (a b : Z) : Z := wrapInt (a * b).
(** Go's [/] on integers truncates toward zero. *)
Definition int_div (a b : Z) : Z := wrapInt (Z.quot a b).
Definition int_shl (a n : Z) : Z := wrapInt (Z.shiftl a n).

(* ================================================================== *)
(** * Strings and UTF-8 *)
(* ================================================================== *)

Definition byte_of_ascii (c : ascii) : Z := Z.of_N (N_of_ascii c).
Definition ascii_of_byte (b : Z) : ascii := ascii_of_N (Z.to_N b).

Fixpoint bytes_of_string (s : string) : list Z :=
  match s with
  | EmptyString => []
  | String c s' => byte_of_ascii c :: bytes_of_string s'
  end.

Fixpoint string_of_bytes (l : list Z) : string :=
  match l with
  | [] => EmptyString
  | b :: l' => String (ascii_of_byte b) (string_of_bytes l')
  end.

(** [len(s)]: the number of bytes of [s]. *)
Definition len (s : string) : Z := Z.of_nat (String.length s).

Module utf8.

Definition RuneError : Z := 0xFFFD.
Definition RuneSelf : Z := 0x80.
Definition MaxRune : Z := 0x10FFFF.
Definition surrogateMin : Z := 0xD800.
Definition surrogateMax : Z := 0xDFFF.
Definition t2 : Z := 0xC0.
Definition t3 : Z := 0xE0.
Definition t4 : Z := 0xF0.
Definition t5 : Z := 0xF8.
Definition tx : Z := 0x80.
Definition maskx : Z := 0x3F.
Definition mask2 : Z := 0x1F.
Definition mask3 : Z := 0x0F.
Definition mask4 : Z := 0x07.
Definition rune1Max : Z := 0x7F.
Definition rune2Max : Z := 0x7FF.
Definition rune3Max : Z := 0xFFFF.
Definition locb : Z := 0x80.
Definition hicb : Z := 0xBF.

Definition cont (b : Z) : bool := (locb <=? b) && (b <=? hicb).

(** The runtime's [decoderune] on the bytes from the current position
    on: the rune and the number of bytes it occupies.  An invalid or
    truncated sequence yields [RuneError] and width 1. *)
Definition decoderune (s : list Z) : Z * nat :=
  match s with
  | [] => (RuneError, 1%nat)
  | s0 :: rest =>
    if (t2 <=? s0) && (s0 <? t3) then
      match rest with
      | s1 :: _ =>
        if cont s1 then
          let r := Z.lor (Z.shiftl (Z.land s0 mask2) 6) (Z.land s1 maskx) in
          if rune1Max <? r then (r, 2%nat) else (RuneError, 1%nat)
        else (RuneError, 1%nat)
      | _ => (RuneError, 1%nat)
      end
    else if (t3 <=? s0) && (s0 <? t4) then
      match rest with
      | s1 :: s2 :: _ =>
        if cont s1 && cont s2 then
          let r := Z.lor (Z.lor (Z.shiftl (Z.land s0 mask3) 12)
                                (Z.shiftl (Z.land s1 maskx) 6))
                         (Z.land s2 maskx) in
          if (rune2Max <? r)
             && negb ((surrogateMin <=? r) && (r <=? surrogateMax))
          then (r, 3%nat) else (RuneError, 1%nat)
        else (RuneError, 1%nat)
      | _ => (RuneError, 1%nat)
      end
    else if (t4 <=? s0) && (s0 <? t5) then
      match rest with
      | s1 :: s2 :: s3 :: _ =>
        if cont s1 && cont s2 && cont s3 then
          let r := Z.lor (Z.lor (Z.lor (Z.shiftl (Z.land s0 mask4) 18)
                                       (Z.shiftl (Z.land s1 maskx) 12))
                                (Z.shiftl (Z.land s2 maskx) 6))
                         (Z.land s3 maskx) in
          if (rune3Max <? r) && (r <=? MaxRune)
          then (r, 4%nat) else (RuneError, 1%nat)
        else (RuneError, 1%nat)
      | _ => (RuneError, 1%nat)
      end
    else (RuneError, 1%nat)
  end.

(** [for i, r := range s]: the pairs (byte offset, rune) in order,
    starting at byte offset [k]. *)
Fixpoint range_bytes (k : Z) (s : list Z) : list (Z * Z) :=
  match s with
  | [] => []
  | s0 :: s1 =>
    if s0 <? RuneSelf then (k, s0) :: range_bytes (k + 1) s1
    else
      let '(r, w) := decoderune s in
      (k, r) ::
      match w, s1 with
      | 2%nat, _ :: s2 => range_bytes (k + 2) s2
      | 3%nat, _ :: _ :: s3 => range_bytes (k + 3) s3
      | 4%nat, _ :: _ :: _ :: s4 => range_bytes (k + 4) s4
      | _, _ => range_bytes (k + 1) s1
      end
  end.

(** The runtime's [encoderune]: the UTF-8 encoding of [r]; a surrogate
    or out-of-range value is encoded as [RuneError]. *)
Definition encode3 (r : Z) : list Z :=
  [ Z.lor 0xE0 (Z.shiftr r 12);
    Z.lor tx (Z.land (Z.shiftr r 6) maskx);
    Z.lor tx (Z.land r maskx) ].

Definition encoderune (r : Z) : list Z :=
  if (0 <=? r) && (r <=? rune1Max) then [r]
  else if (0 <=? r) && (r <=? rune2Max) then
    [ Z.lor t2 (Z.shiftr r 6); Z.lor tx (Z.land r maskx) ]
  else if (r <? 0) || (MaxRune <? r)
          || ((surrogateMin <=? r) && (r <=? surrogateMax)) then
    encode3 RuneError
  else if r <=? rune3Max then encode3 r
  else
    [ Z.lor t4 (Z.shiftr r 18);
      Z.lor tx (Z.land (Z.shiftr r 12) maskx);
      Z.lor tx (Z.land (Z.shiftr r 6) maskx);
      Z.lor tx (Z.land r maskx) ].

(** A Unicode scalar value: what a valid UTF-8 sequence can encode. *)
Definition ValidRune (r : Z) : bool :=
  ((0 <=? r) && (r <? surrogateMin))
  || ((surrogateMax <? r) && (r <=? MaxRune)).

End utf8.

(** [range s] of the source. *)
Definition range_string (s : string) : list (Z * Z) :=
  utf8.range_bytes 0 (bytes_of_string s).

(** [utf8.RuneCountInString]: the number of code points of [s], the
    number of iterations of a [range] loop over it. *)
Definition RuneCountInString (s : string) : Z :=
  Z.of_nat (length (range_string s)).

(** The conversion [string(r)] of a rune. *)
Definition string_of_rune (r : Z) : string :=
  string_of_bytes (utf8.encoderune r).

(* ================================================================== *)
(** * Colours ([image/color]) *)
(* ================================================================== *)

(** [color.RGBA]: four 8-bit channels. *)
Record color_RGBA := { R : Z; G : Z; B : Z; A : Z }.

(** The [color.Color] values the program uses. *)
Inductive Color :=
| Gray16 (y : Z)              (* color.Gray16{Y} *)
| RGBAColor (c : color_RGBA). (* color.RGBA{R, G, B, A} *)

Definition color_Black : Color := Gray16 0.
Definition color_White : Color := Gray16 0xffff.

(** [c.RGBA()]: the alpha-premultiplied 16-bit channels. *)
Definition Color_RGBA (c : Color) : Z * Z * Z * Z :=
  match c with
  | Gray16 y => (y, y, y, 0xffff)
  | RGBAColor c =>
    (Z.lor (R c) (Z.shiftl (R c) 8), Z.lor (G c) (Z.shiftl (G c) 8),
     Z.lor (B c) (Z.shiftl (B c) 8), Z.lor (A c) (Z.shiftl (A c) 8))
  end.

(** [color.RGBAModel.Convert]. *)
Definition RGBAModel (c : Color) : color_RGBA :=
  match c with
  | RGBAColor c => c
  | _ =>
    let '(r, g, b, a) := Color_RGBA c in
    {| R := Z.shiftr r 8; G := Z.shiftr g 8; B := Z.shiftr b 8;
       A := Z.shiftr a 8 |}
  end.

(** [image.Image] values of the program are [*image.Uniform]: an image
    of one colour, whose [Bounds] are given below with the rectangles. *)
Inductive Image := Uniform (c : Color).

Definition image_Black : Image := Uniform color_Black.
Definition image_White : Image := Uniform color_White.

Definition Image_color (m : Image) : Color := let 'Uniform c := m in c.

(* ================================================================== *)
(** * Rectangles and RGBA images ([image]) *)
(* ================================================================== *)

Record Point := { X : Z; Y : Z }.
Record Rectangle := { Min : Point; Max : Point }.

Definition Pt (x y : Z) : Point := {| X := x; Y := y |}.

(** [image.Rect]: the coordinates are swapped if necessary so that the
    rectangle is well-formed. *)
Definition Rect (x0 y0 x1 y1 : Z) : Rectangle :=
  let '(x0, x1) := if x1 <? x0 then (x1, x0) else (x0, x1) in
  let '(y0, y1) := if y1 <? y0 then (y1, y0) else (y0, y1) in
  {| Min := Pt x0 y0; Max := Pt x1 y1 |}.

Definition ZR : Rectangle := {| Min := Pt 0 0; Max := Pt 0 0 |}.

Definition Dx (r : Rectangle) : Z := int_sub (X (Max r)) (X (Min r)).
Definition Dy (r : Rectangle) : Z := int_sub (Y (Max r)) (Y (Min r)).

Definition Empty (r : Rectangle) : bool :=
  (X (Max r) <=? X (Min r)) || (Y (Max r) <=? Y (Min r)).

(** [p.In(r)]. *)
Definition In_rect (x y : Z) (r : Rectangle) : bool :=
  (X (Min r) <=? x) && (x <? X (Max r)) &&
  (Y (Min r) <=? y) && (y <? Y (Max r)).

Definition Intersect (r s : Rectangle) : Rectangle :=
  let r' := {| Min := Pt (Z.max (X (Min r)) (X (Min s)))
                         (Z.max (Y (Min r)) (Y (Min s)));
               Max := Pt (Z.min (X (Max r)) (X (Max s)))
                         (Z.min (Y (Max r)) (Y (Max s))) |} in
  if Empty r' then ZR else r'.

(** [r.Add(p)]: translation. *)
Definition Rectangle_Add (r : Rectangle) (p : Point) : Rectangle :=
  {| Min := Pt (int_add (X (Min r)) (X p)) (int_add (Y (Min r)) (Y p));
     Max := Pt (int_add (X (Max r)) (X p)) (int_add (Y (Max r)) (Y p)) |}.

(** [Bounds()] of [image.Uniform]: the rectangle from -1e9 to 1e9 in both
    directions, whatever the colour. *)
Definition Image_Bounds (m : Image) : Rectangle :=
  {| Min := Pt (-1000000000) (-1000000000);
     Max := Pt 1000000000 1000000000 |}.

(** [image.RGBA]: [Pix] holds the pixels in R, G, B, A order, row after
    row; [Stride] is the distance in bytes between vertically adjacent
    pixels. *)
Record RGBA := { Pix : list Z; Stride : Z; Bounds : Rectangle }.

(** [mul3NonNeg] of package image: the product, or -1 when an argument is
    negative, when the 64-bit product of the first two has a high word
    ([bits.Mul64]), or when the full product does not fit an [int]. *)
Definition mul3NonNeg (x y z : Z) : Z :=
  if (x <? 0) || (y <? 0) || (z <? 0) then -1
  else if 2 ^ 64 <=? x * y then -1
  else if 2 ^ 63 <=? x * y * z then -1
  else x * y * z.

(** The largest allocation the runtime accepts ([maxAlloc], 64-bit
    platforms with 48 address bits such as linux/amd64): [make] panics
    above it. *)
Definition maxAlloc : Z := 2 ^ 48.

(** [image.NewRGBA]; it panics ([None]) on huge or negative dimensions,
    in [pixelBufferLength] when [mul3NonNeg] is negative and in
    [make([]uint8, n)] when the length is above [maxAlloc].  The machine
    is taken to have the memory for every length [make] accepts. *)
Definition NewRGBA (r : Rectangle) : option RGBA :=
  let totalLength := mul3NonNeg 4 (Dx r) (Dy r) in
  if totalLength <? 0 then None
  else if maxAlloc <? totalLength then None
  else Some {| Pix := replicate (Z.to_nat totalLength) 0;
               Stride := int_mul 4 (Dx r);
               Bounds := r |}.

(** The message of that panic. *)
Definition NewRGBA_panic (r : Rectangle) : string :=
  if mul3NonNeg 4 (Dx r) (Dy r) <? 0
  then "image: NewRGBA Rectangle has huge or negative dimensions"
  else "runtime error: makeslice: len out of range".

(** [p.PixOffset(x, y)]. *)
Definition PixOffset (p : RGBA) (x y : Z) : Z :=
  (y - Y (Min (Bounds p))) * Stride p + (x - X (Min (Bounds p))) * 4.

(** [s := p.Pix[i : i+4 : i+4]] followed by four stores; indexing outside
    the slice panics ([None]). *)
Definition store4 (p : RGBA) (i : Z) (c : color_RGBA) : option RGBA :=
  if (0 <=? i) && (i + 4 <=? Z.of_nat (length (Pix p))) then
    let n := Z.to_nat i in
    Some {| Pix := <[(n + 3)%nat := A c]>
                   (<[(n + 2)%nat := B c]>
                    (<[(n + 1)%nat := G c]> (<[n := R c]> (Pix p))));
            Stride := Stride p; Bounds := Bounds p |}
  else None.

Definition load4 (p : RGBA) (i : Z) : option color_RGBA :=
  if (0 <=? i) && (i + 4 <=? Z.of_nat (length (Pix p))) then
    let n := Z.to_nat i in
    r ← Pix p !! n; g ← Pix p !! (n + 1)%nat;
    b ← Pix p !! (n + 2)%nat; a ← Pix p !! (n + 3)%nat;
    Some {| R := r; G := g; B := b; A := a |}
  else None.

(** [p.Set(x, y, c)]: nothing happens outside the bounds. *)
Definition RGBA_Set (x y : Z) (c : Color) (p : RGBA) : option RGBA :=
  if negb (In_rect x y (Bounds p)) then Some p
  else store4 p (PixOffset p x y) (RGBAModel c).

(** [p.RGBAAt(x, y)]: the zero colour outside the bounds. *)
Definition RGBAAt (p : RGBA) (x y : Z) : color_RGBA :=
  if negb (In_rect x y (Bounds p)) then {| R := 0; G := 0; B := 0; A := 0 |}
  else default {| R := 0; G := 0; B := 0; A := 0 |}
               (load4 p (PixOffset p x y)).

(** The rows and columns of a rectangle, as the nested loops of package
    draw visit them. *)
Definition span (lo hi : Z) : list Z :=
  map (fun k => lo + Z.of_nat k) (seq 0 (Z.to_nat (hi - lo))).

Definition pixels_of (r : Rectangle) : list (Z * Z) :=
  y ← span (Y (Min r)) (Y (Max r));
  x ← span (X (Min r)) (X (Max r));
  [(x, y)].

(** One destination pixel of a drawing loop: read, combine, write back. *)
Definition draw_pixel (f : Z -> Z -> color_RGBA -> color_RGBA)
    (p : RGBA) (xy : Z * Z) : option RGBA :=
  let i := PixOffset p xy.1 xy.2 in
  d ← load4 p i;
  store4 p i (f xy.1 xy.2 d).

(** The pixel loops of [draw.DrawMask] over the rectangle [r], already
    clipped by the caller. *)
Definition draw_loop (f : Z -> Z -> color_RGBA -> color_RGBA)
    (r : Rectangle) (dst : RGBA) : option RGBA :=
  foldl (fun acc xy => p ← acc; draw_pixel f p xy) (Some dst) (pixels_of r).

(** The rectangle [src.Bounds().Add(orig.Sub(sp))] of [clip] in package
    draw, for the source point [sp = image.Point{}]. *)
Definition src_clip (src : Image) (orig : Point) : Rectangle :=
  Rectangle_Add (Image_Bounds src)
                (Pt (int_sub (X orig) 0) (int_sub (Y orig) 0)).

(** [draw.Draw(dst, r, src, image.Point{}, draw.Src)] with a uniform
    source: [r] is clipped to the bounds of [dst] and to the bounds of
    the source moved to the corner of [r], and every pixel of what is left
    takes the source colour. *)
Definition draw_Draw_Src (dst : RGBA) (r : Rectangle) (src : Image)
  : option RGBA :=
  let orig := Min r in
  let r := Intersect r (Bounds dst) in
  let r := Intersect r (src_clip src orig) in
  if Empty r then Some dst
  else draw_loop (fun _ _ _ => RGBAModel (Image_color src)) r dst.

(** [image.Alpha]: a glyph mask, by its bounds and its value at each
    point (0 outside the bounds). *)
Record Alpha := { a_bounds : Rectangle; AlphaAt : Z -> Z -> Z }.

(** The blend of [drawGlyphOver]: source colour [src] through mask value
    [ma] over the destination pixel [d]. *)
Definition glyph_over (src : Image) (ma : Z) (d : color_RGBA) : color_RGBA :=
  if ma =? 0 then d
  else
    let m := 0xffff in
    let '(sr, sg, sb, sa) := Color_RGBA (Image_color src) in
    let ma := Z.lor ma (Z.shiftl ma 8) in
    let a := (m - sa * ma / m) * 0x101 in
    {| R := Z.shiftr ((R d * a + sr * ma) / m) 8 mod 256;
       G := Z.shiftr ((G d * a + sg * ma) / m) 8 mod 256;
       B := Z.shiftr ((B d * a + sb * ma) / m) 8 mod 256;
       A := Z.shiftr ((A d * a + sa * ma) / m) 8 mod 256 |}.

(** [draw.DrawMask(dst, r, src, image.Point{}, mask, mp, draw.Over)] with
    a uniform source and an alpha mask.  The rectangle is clipped to the
    destination, to the source and to the mask, then each pixel is
    blended. *)
Definition draw_DrawMask_Over (dst : RGBA) (r : Rectangle) (src : Image)
    (mask : Alpha) (mp : Point) : option RGBA :=
  let orig := Min r in
  let r1 := Intersect r (Bounds dst) in
  let r1 := Intersect r1 (src_clip src orig) in
  let r2 := Intersect r1 (Rectangle_Add (a_bounds mask)
                            (Pt (int_sub (X orig) (X mp))
                                (int_sub (Y orig) (Y mp)))) in
  if Empty r2 then Some dst
  else
    draw_loop (fun x y d =>
                 glyph_over src
                   (AlphaAt mask (X mp + (x - X orig)) (Y mp + (y - Y orig))) d)
              r2 dst.

(* ================================================================== *)
(** * float64 and the pixel width of an advance *)
(* ================================================================== *)

(** IEEE 754 binary64, by the specification of floating-point numbers of
    the standard library: 53 bits of precision, exponent bound 1024. *)
Definition float64 : Type := spec_float.

(** [float64(z)] for an integer [z], rounded to nearest even. *)
Definition float64_of_int (z : Z) : float64 := binary_normalize 53 1024 z 0 false.

Definition float64_div (x y : float64) : float64 := SFdiv 53 1024 x y.

(** [int(f)]: the fraction is discarded (truncation toward zero).  When
    the value does not fit the result is implementation-specific; amd64
    yields the most negative integer. *)
Definition int_of_float64 (f : float64) : Z :=
  match f with
  | S754_zero _ => 0
  | S754_finite s m e =>
    let a := if 0 <=? e then Z.pos m * 2 ^ e else Z.pos m / 2 ^ (- e) in
    let v := if s then - a else a in
    if (minInt <=? v) && (v <=? maxInt) then v else minInt
  | _ => minInt
  end.

(** [glyphWidthPx := int(float64(advance) / 64)] of [renderText]. *)
Definition glyphWidthPx (advance : Z) : Z :=
  int_of_float64 (float64_div (float64_of_int advance) (float64_of_int 64)).

(* ================================================================== *)
(** * The process and its environment *)
(* ================================================================== *)

(** A Go [error] value, by its message. *)
Inductive error := Err (msg : string).

(** Arguments of a formatted message. *)
Inductive Arg :=
| ArgStr (s : string)
| ArgRune (r : Z)
| ArgInt (n : Z)
| ArgErr (e : error).

Inductive Stream := Stdout | Stderr.

(** One formatted line: the format string of the source and its
    arguments.  [fmt.Printf] writes to standard output, package log to
    standard error. *)
Record Line := { stream : Stream; format : string; args : list Arg }.

(** [fixed.Point26_6]: coordinates in 1/64 of a pixel. *)
Record Point26_6 := { X26 : Z; Y26 : Z }.

(** A call of [Context.DrawString], as the rasteriser receives it. *)
Record DrawCall := { dc_text : string; dc_at : Point26_6 }.

(** A location of the image store. *)
Definition loc : Type := nat.

(** [*os.File], by the path it was opened with. *)
Record File := { f_name : string }.

Record World := {
  (** the file system: contents by path *)
  files : gmap string (list Z);
  (** the files the process holds open *)
  opened : list string;
  (** what the operating system refuses: reading, creating or writing
      the file at a path *)
  read_fault : string -> option error;
  create_fault : string -> option error;
  write_fault : string -> option error;
  (** when writing the file at a path is refused: the size the file can
      reach before it is (a full disk, a quota) *)
  write_room : string -> nat;
  (** the images allocated by [image.NewRGBA] *)
  images : list RGBA;
  (** what was printed, oldest first *)
  output : list Line;
  (** the calls received by the rasteriser, oldest first *)
  draws : list DrawCall
}.

Definition with_files (fs : gmap string (list Z)) (w : World) : World :=
  {| files := fs; opened := opened w; read_fault := read_fault w;
     create_fault := create_fault w; write_fault := write_fault w;
     write_room := write_room w; images := images w; output := output w; draws := draws w |}.

Definition with_opened (o : list string) (w : World) : World :=
  {| files := files w; opened := o; read_fault := read_fault w;
     create_fault := create_fault w; write_fault := write_fault w;
     write_room := write_room w; images := images w; output := output w; draws := draws w |}.

Definition with_images (im : list RGBA) (w : World) : World :=
  {| files := files w; opened := opened w; read_fault := read_fault w;
     create_fault := create_fault w; write_fault := write_fault w;
     write_room := write_room w; images := im; output := output w; draws := draws w |}.

Definition with_output (o : list Line) (w : World) : World :=
  {| files := files w; opened := opened w; read_fault := read_fault w;
     create_fault := create_fault w; write_fault := write_fault w;
     write_room := write_room w; images := images w; output := o; draws := draws w |}.

Definition with_draws (d : list DrawCall) (w : World) : World :=
  {| files := files w; opened := opened w; read_fault := read_fault w;
     create_fault := create_fault w; write_fault := write_fault w;
     write_room := write_room w; images := images w; output := output w; draws := d |}.

(** How a computation ends: it returns, the process exits with a status
    ([os.Exit]), or it panics. *)
Inductive Res (A : Type) :=
| Ok (a : A)
| Exit (code : Z)
| Panic (msg : string).
Arguments Ok {A} a.
Arguments Exit {A} code.
Arguments Panic {A} msg.

Definition M (A : Type) : Type := World -> Res A * World.

Definition ret {A} (a : A) : M A := fun w => (Ok a, w).

Definition bind {A B} (m : M A) (k : A -> M B) : M B :=
  fun w =>
    match m w with
    | (Ok a, w') => k a w'
    | (Exit c, w') => (Exit c, w')
    | (Panic s, w') => (Panic s, w')
    end.

Notation "'let*' x := m 'in' k" := (bind m (fun x => k))
  (at level 10, x name, m at level 100, k at level 200).
Notation "'let*' ' p := m 'in' k" := (bind m (fun x => let 'p := x in k))
  (at level 10, p pattern, m at level 100, k at level 200).
Notation "m >> k" := (bind m (fun _ => k))
  (at level 90, right associativity).

Definition panic {A} (msg : string) : M A := fun w => (Panic msg, w).

(** [os.Exit(code)]: the process ends at once; deferred calls do not
    run. *)
Definition os_Exit {A} (code : Z) : M A := fun w => (Exit code, w).

(** [defer d] in front of [body]: [d] runs when [body] returns or
    panics, and does not run when the process exits inside [body]. *)
Definition defer {A} (d : M unit) (body : M A) : M A :=
  fun w =>
    match body w with
    | (Ok a, w') => (Ok a, (d w').2)
    | (Panic s, w') => (Panic s, (d w').2)
    | (Exit c, w') => (Exit c, w')
    end.

Fixpoint forM_ {A} (l : list A) (body : A -> M unit) : M unit :=
  match l with
  | [] => ret tt
  | a :: l' => body a >> forM_ l' body
  end.

(** [for i := 0; i < n; i++ { body }]. *)
Definition for_range (n : Z) (body : Z -> M unit) : M unit :=
  forM_ (map Z.of_nat (seq 0 (Z.to_nat n))) body.

Definition when (b : bool) (m : M unit) : M unit := if b then m else ret tt.

(** ** Printing *)

Definition emit (l : Line) : M unit :=
  fun w => (Ok tt, with_output (output w ++ [l]) w).

Definition fmt_Printf (fmt : string) (a : list Arg) : M unit :=
  emit {| stream := Stdout; format := fmt; args := a |}.

Definition log_Printf (fmt : string) (a : list Arg) : M unit :=
  emit {| stream := Stderr; format := fmt; args := a |}.

(** [log.Fatalf] is [log.Printf] followed by [os.Exit(1)]. *)
Definition log_Fatalf {A} (fmt : string) (a : list Arg) : M A :=
  log_Printf fmt a >> os_Exit 1.

(** ** The image store *)

(** An allocation that panics with [msg] when there is no image. *)
Definition new_image (msg : string) (o : option RGBA) : M loc :=
  fun w =>
    match o with
    | None => (Panic msg, w)
    | Some p => (Ok (length (images w)), with_images (images w ++ [p]) w)
    end.

Definition get_image (l : loc) : M RGBA :=
  fun w =>
    match images w !! l with
    | Some p => (Ok p, w)
    | None => (Panic "invalid memory address or nil pointer dereference", w)
    end.

(** An in-place operation on the image at [l]; [None] is a run-time
    panic (index out of range). *)
Definition update_image (l : loc) (f : RGBA -> option RGBA) : M unit :=
  let* p := get_image l in
  match f p with
  | Some p' => fun w => (Ok tt, with_images (<[l := p']> (images w)) w)
  | None => panic "index out of range"
  end.

(** ** Files ([os], [bufio]) *)

(** What reading the file at [path] gives. *)
Definition read_file (w : World) (path : string) : list Z + error :=
  match read_fault w path with
  | Some e => inr e
  | None =>
    match files w !! path with
    | Some b => inl b
    | None => inr (Err "no such file or directory")
    end
  end.

Definition os_ReadFile (path : string) : M (list Z + error) :=
  fun w => (Ok (read_file w path), w).

(** [os.Create]: the file is created, or truncated if it exists. *)
Definition os_Create (path : string) : M (File + error) :=
  fun w =>
    match create_fault w path with
    | Some e => (Ok (inr e), w)
    | None =>
      (Ok (inl {| f_name := path |}),
       with_opened (path :: opened w) (with_files (<[path := []]> (files w)) w))
    end.

(** [f.Write(p)]: the number of bytes written and the error.  A write
    that is refused still writes what the file has room for. *)
Definition File_Write (f : File) (p : list Z) : M (nat * option error) :=
  fun w =>
    let cur := default [] (files w !! f_name f) in
    match write_fault w (f_name f) with
    | None =>
      (Ok (length p, None),
       with_files (<[f_name f := cur ++ p]> (files w)) w)
    | Some e =>
      let room := (write_room w (f_name f) - length cur)%nat in
      if (length p <=? room)%nat then
        (Ok (length p, None),
         with_files (<[f_name f := cur ++ p]> (files w)) w)
      else
        (Ok (room, Some e),
         with_files (<[f_name f := cur ++ take room p]> (files w)) w)
    end.

Fixpoint remove_first (s : string) (l : list string) : list string :=
  match l with
  | [] => []
  | x :: l' => if String.eqb s x then l' else x :: remove_first s l'
  end.

Definition File_Close (f : File) : M unit :=
  fun w => (Ok tt, with_opened (remove_first (f_name f) (opened w)) w).

(** [bufio.Writer]: the bytes not yet passed to the file, and the
    error of the first write that failed. *)
Record bufio_Writer := {
  bw_wr : File;
  bw_buf : list Z;
  bw_err : option error
}.

Definition defaultBufSize : Z := 4096.

Definition io_ErrShortWrite : error := Err "short write".

Definition bufio_NewWriter (f : File) : bufio_Writer :=
  {| bw_wr := f; bw_buf := []; bw_err := None |}.

(** [b.Flush()]: what the file did not take stays in the buffer. *)
Definition bufio_Flush (b : bufio_Writer) : M (bufio_Writer * option error) :=
  match bw_err b with
  | Some e => ret (b, Some e)
  | None =>
    match bw_buf b with
    | [] => ret (b, None)
    | buf =>
      let* '(n, err) := File_Write (bw_wr b) buf in
      let err :=
        match err with
        | None => if (n <? length buf)%nat then Some io_ErrShortWrite else None
        | Some e => Some e
        end in
      match err with
      | Some e =>
        ret ({| bw_wr := bw_wr b; bw_buf := drop n buf; bw_err := Some e |},
             Some e)
      | None => ret ({| bw_wr := bw_wr b; bw_buf := []; bw_err := None |}, None)
      end
    end
  end.

(** [b.Write(p)]: a write larger than the free space goes to the file,
    directly when the buffer is empty, after the buffer is filled and
    flushed otherwise.  The loop of the source runs at most twice: a
    direct write takes all of [p] or fails, and a flush empties the buffer
    or fails; a failure ends the loop. *)
Definition bufio_Write (b : bufio_Writer) (p : list Z)
  : M (bufio_Writer * option error) :=
  match bw_err b with
  | Some e => ret (b, Some e)
  | None =>
    let avail := defaultBufSize - Z.of_nat (length (bw_buf b)) in
    if Z.of_nat (length p) <=? avail then
      ret ({| bw_wr := bw_wr b; bw_buf := bw_buf b ++ p; bw_err := None |},
           None)
    else
      match bw_buf b with
      | [] =>
        (* Large write, empty buffer *)
        let* '(_, err) := File_Write (bw_wr b) p in
        ret ({| bw_wr := bw_wr b; bw_buf := []; bw_err := err |}, err)
      | buf =>
        let p1 := take (Z.to_nat avail) p in
        let p2 := drop (Z.to_nat avail) p in
        let* '(b1, e) :=
          bufio_Flush {| bw_wr := bw_wr b; bw_buf := buf ++ p1;
                         bw_err := None |} in
        match e with
        | Some err => ret (b1, Some err)
        | None =>
          if Z.of_nat (length p2) <=? defaultBufSize then
            ret ({| bw_wr := bw_wr b; bw_buf := p2; bw_err := None |}, None)
          else
            let* '(_, err) := File_Write (bw_wr b) p2 in
            ret ({| bw_wr := bw_wr b; bw_buf := []; bw_err := err |}, err)
        end
      end
  end.

(* ================================================================== *)
(** * The font and PNG libraries *)
(* ================================================================== *)

(** [font.Hinting]. *)
Inductive Hinting := HintingNone | HintingVertical | HintingFull.

(** What the program needs from truetype, freetype and image/png.  The
    font and its rasteriser are outside the repository: a parsed font, the
    advance of a rune at a size and resolution, the mask of a glyph drawn
    at a point together with its offset, kerning and advance for pen
    movement, and the bytes of a PNG. *)
Class Lib := {
  Font : Type;
  (** [truetype.Parse] *)
  truetype_Parse : list Z -> Font + error;
  (** [truetype.NewFace(f, &Options{Size, DPI}).GlyphAdvance(r)], in
      26.6 fixed point *)
  Face_GlyphAdvance : Font -> float64 -> float64 -> Z -> option Z;
  (** the glyph of a rune at a point, for a font, size, resolution and
      hinting: an alpha mask and its offset, or an error *)
  Context_glyph :
    Font -> float64 -> float64 -> Hinting -> Z -> Point26_6 ->
    (Alpha * Point) + error;
  (** kerning between two runes and advance of a rune, in 26.6 units *)
  Font_Kern : Font -> float64 -> float64 -> Z -> Z -> Z;
  Font_AdvanceWidth : Font -> float64 -> float64 -> Z -> Z;
  (** the PNG encoding of an image, as the byte slices [png.Encode]
      passes to its writer one after the other *)
  png_writes : RGBA -> list (list Z)
}.

(** The PNG encoding of an image: all its bytes. *)
Definition png_bytes `{L : Lib} (m : RGBA) : list Z := concat (png_writes m).

Section Program.

Context `{L : Lib}.

(** ** freetype *)

(** [freetype.Context]; [dst] is a pointer to the destination image. *)
Record Context := {
  c_f : option Font;
  c_fontSize : float64;
  c_dpi : float64;
  c_clip : Rectangle;
  c_dst : option loc;
  c_src : option Image;
  c_hinting : Hinting
}.

Definition NewContext : Context :=
  {| c_f := None; c_fontSize := float64_of_int 12; c_dpi := float64_of_int 72;
     c_clip := ZR; c_dst := None; c_src := None; c_hinting := HintingNone |}.

Definition SetDPI (dpi : float64) (c : Context) : Context :=
  {| c_f := c_f c; c_fontSize := c_fontSize c; c_dpi := dpi;
     c_clip := c_clip c; c_dst := c_dst c; c_src := c_src c;
     c_hinting := c_hinting c |}.

Definition SetFont (f : Font) (c : Context) : Context :=
  {| c_f := Some f; c_fontSize := c_fontSize c; c_dpi := c_dpi c;
     c_clip := c_clip c; c_dst := c_dst c; c_src := c_src c;
     c_hinting := c_hinting c |}.

Definition SetFontSize (size : float64) (c : Context) : Context :=
  {| c_f := c_f c; c_fontSize := size; c_dpi := c_dpi c;
     c_clip := c_clip c; c_dst := c_dst c; c_src := c_src c;
     c_hinting := c_hinting c |}.

Definition SetClip (clip : Rectangle) (c : Context) : Context :=
  {| c_f := c_f c; c_fontSize := c_fontSize c; c_dpi := c_dpi c;
     c_clip := clip; c_dst := c_dst c; c_src := c_src c;
     c_hinting := c_hinting c |}.

Definition SetDst (dst : loc) (c : Context) : Context :=
  {| c_f := c_f c; c_fontSize := c_fontSize c; c_dpi := c_dpi c;
     c_clip := c_clip c; c_dst := Some dst; c_src := c_src c;
     c_hinting := c_hinting c |}.

Definition SetSrc (src : Image) (c : Context) : Context :=
  {| c_f := c_f c; c_fontSize := c_fontSize c; c_dpi := c_dpi c;
     c_clip := c_clip c; c_dst := c_dst c; c_src := Some src;
     c_hinting := c_hinting c |}.

Definition SetHinting (h : Hinting) (c : Context) : Context :=
  {| c_f := c_f c; c_fontSize := c_fontSize c; c_dpi := c_dpi c;
     c_clip := c_clip c; c_dst := c_dst c; c_src := c_src c;
     c_hinting := h |}.

(** [freetype.Pt]: a pixel position as a 26.6 fixed-point point. *)
Definition freetype_Pt (x y : Z) : Point26_6 :=
  {| X26 := wrapInt32 (int_shl x 6); Y26 := wrapInt32 (int_shl y 6) |}.

(** Rounding of a 26.6 length to whole pixels under hinting:
    [(v + 32) &^ 63]. *)
Definition hint_round (h : Hinting) (v : Z) : Z :=
  match h with
  | HintingNone => v
  | _ => Z.land (wrapInt32 (v + 32)) (Z.lnot 63)
  end.

(** The loop of [Context.DrawString] over the runes of the string: move
    the pen by the kerning, rasterise the glyph (an error ends the call),
    advance the pen, and composite the mask through the clip rectangle. *)
Fixpoint drawRunes (c : Context) (f : Font) (rs : list (Z * Z))
    (p : Point26_6) (prev : option Z) : M (Point26_6 * option error) :=
  match rs with
  | [] => ret (p, None)
  | (_, rune) :: rs' =>
    let p :=
      match prev with
      | Some pr =>
        {| X26 := wrapInt32 (X26 p + hint_round (c_hinting c)
                     (Font_Kern f (c_fontSize c) (c_dpi c) pr rune));
           Y26 := Y26 p |}
      | None => p
      end in
    let advanceWidth :=
      hint_round (c_hinting c)
                 (Font_AdvanceWidth f (c_fontSize c) (c_dpi c) rune) in
    match Context_glyph f (c_fontSize c) (c_dpi c) (c_hinting c) rune p with
    | inr err => ret ({| X26 := 0; Y26 := 0 |}, Some err)
    | inl (mask, offset) =>
      let p := {| X26 := wrapInt32 (X26 p + advanceWidth); Y26 := Y26 p |} in
      let glyphRect := Rectangle_Add (a_bounds mask) offset in
      let dr := Intersect (c_clip c) glyphRect in
      when (negb (Empty dr))
        (let mp := Pt 0 (int_sub (Y (Min dr)) (Y (Min glyphRect))) in
         match c_dst c, c_src c with
         | Some dst, Some src =>
           update_image dst (fun d => draw_DrawMask_Over d dr src mask mp)
         | _, _ => panic "invalid memory address or nil pointer dereference"
         end) >>
      drawRunes c f rs' p (Some rune)
    end
  end.

(** [c.DrawString(s, p)]. *)
Definition DrawString (c : Context) (s : string) (p : Point26_6)
  : M (Point26_6 * option error) :=
  (fun w => (Ok tt, with_draws (draws w ++ [{| dc_text := s; dc_at := p |}]) w)) >>
  match c_f c with
  | None =>
    ret ({| X26 := 0; Y26 := 0 |},
         Some (Err "freetype: DrawText called with a nil font"))
  | Some f => drawRunes c f (range_string s) p None
  end.

(** ** png *)

(** The writes of the encoder, one after the other; the first one that
    fails ends the encoding. *)
Fixpoint write_all (b : bufio_Writer) (ps : list (list Z))
  : M (bufio_Writer * option error) :=
  match ps with
  | [] => ret (b, None)
  | p :: ps' =>
    let* '(b', e) := bufio_Write b p in
    match e with
    | Some err => ret (b', Some err)
    | None => write_all b' ps'
    end
  end.

(** [png.Encode(w, m)]: an image with an empty or oversized dimension is
    refused before anything is written. *)
Definition png_Encode (b : bufio_Writer) (rgba : loc)
  : M (bufio_Writer * option error) :=
  let* m := get_image rgba in
  let mw := Dx (Bounds m) in
  let mh := Dy (Bounds m) in
  if (mw <=? 0) || (mh <=? 0) || (2 ^ 32 <=? mw) || (2 ^ 32 <=? mh) then
    ret (b, Some (Err "png: invalid format: invalid image size"))
  else write_all b (png_writes m).

(* ================================================================== *)
(** * The program: [txt2png.go] *)
(* ================================================================== *)

(** The command-line flags, after [flag.Parse]. *)
Record Flags := {
  dpi : float64;
  fontfile : string;
  hinting : string;
  fontSize : float64;
  wonb : bool;
  text : string;
  outFile : string;
  slotWidth : Z;
  imageHeight : Z;
  showGuidelines : bool;
  verbose : bool
}.

Definition loadFont (path : string) (verb : bool) : M Font :=
  when verb (fmt_Printf "Loading fontfile %q\n" [ArgStr path]) >>
  let* r := os_ReadFile path in
  match r with
  | inr err => log_Fatalf "Error reading font file: %v" [ArgErr err]
  | inl fontBytes =>
    match truetype_Parse fontBytes with
    | inr err => log_Fatalf "Error parsing font: %v" [ArgErr err]
    | inl f => ret f
    end
  end.

Definition getColors (whiteOnBlack : bool) : Image * Image * Color :=
  let '(fg, bg) := (image_Black, image_White) in
  let ruler := RGBAColor {| R := 0xdd; G := 0xdd; B := 0xdd; A := 0xff |} in
  if whiteOnBlack then
    (image_White, image_Black,
     RGBAColor {| R := 0x44; G := 0x44; B := 0x44; A := 0xff |})
  else (fg, bg, ruler).

Definition createImage (textLen slotW imgH : Z) (bg : Image)
    (rulerColor : Color) (showGuidelines : bool) : M loc :=
  let width := int_mul textLen slotW in
  let width := if width =? 0 then slotW else width in
  let* rgba := new_image (NewRGBA_panic (Rect 0 0 width imgH))
                         (NewRGBA (Rect 0 0 width imgH)) in
  let* m := get_image rgba in
  update_image rgba (fun p => draw_Draw_Src p (Bounds m) bg) >>
  (* Vertical guidelines *)
  when showGuidelines
    (for_range textLen (fun i =>
       let x := int_mul i slotW in
       for_range imgH (fun y =>
         update_image rgba (RGBA_Set x y rulerColor)))) >>
  ret rgba.

Definition getFreeTypeContext (f : Font) (dpi size : float64) (dst : loc)
    (src : Image) (hintingStr : string) : M Context :=
  let c := NewContext in
  let c := SetDPI dpi c in
  let c := SetFont f c in
  let c := SetFontSize size c in
  let* m := get_image dst in
  let c := SetClip (Bounds m) c in
  let c := SetDst dst c in
  let c := SetSrc src c in
  let c :=
    if String.eqb hintingStr "full" then SetHinting HintingFull c
    else SetHinting HintingNone c in
  ret c.

(** The body of the loop of [renderText] for the rune [r] found at byte
    offset [i]. *)
Definition renderRune (c : Context) (f : Font) (slotW imgH : Z)
    (dpi size : float64) (verb : bool) (ir : Z * Z) : M unit :=
  let '(i, r) := ir in
  match Face_GlyphAdvance f size dpi r with
  | None => log_Printf "Warning: failed to get glyph advance for %q" [ArgRune r]
  | Some advance =>
    let glyphWidthPx := glyphWidthPx advance in
    when verb
      (fmt_Printf "Char: %q, Width: %dpx\n" [ArgRune r; ArgInt glyphWidthPx]) >>
    let xPos := int_add (int_mul i slotW)
                        (int_sub (int_div slotW 2) (int_div glyphWidthPx 2)) in
    let pt := freetype_Pt xPos (int_div (int_mul imgH 2) 3) in
    let* '(_, err) := DrawString c (string_of_rune r) pt in
    match err with
    | Some e => log_Printf "Error drawing %q: %v" [ArgRune r; ArgErr e]
    | None => ret tt
    end
  end.

Definition renderText (c : Context) (f : Font) (text : string)
    (slotW imgH : Z) (dpi size : float64) (verb : bool) : M unit :=
  forM_ (range_string text) (renderRune c f slotW imgH dpi size verb).

Definition saveImage (path : string) (rgba : loc) : M unit :=
  let* r := os_Create path in
  match r with
  | inr err => log_Fatalf "Error creating output file: %v" [ArgErr err]
  | inl out =>
    defer (File_Close out)
      (let bWriter := bufio_NewWriter out in
       let* '(bWriter, err) := png_Encode bWriter rgba in
       match err with
       | Some e => log_Fatalf "Error encoding PNG: %v" [ArgErr e]
       | None =>
         let* '(_, err) := bufio_Flush bWriter in
         match err with
         | Some e => log_Fatalf "Error flushing buffer: %v" [ArgErr e]
         | None => ret tt
         end
       end)
  end.

Definition main (fl : Flags) : M unit :=
  let* f := loadFont (fontfile fl) (verbose fl) in
  let '(fg, bg, rulerColor) := getColors (wonb fl) in
  let* rgba := createImage (len (text fl)) (slotWidth fl) (imageHeight fl)
                           bg rulerColor (showGuidelines fl) in
  let* c := getFreeTypeContext f (dpi fl) (fontSize fl) rgba fg (hinting fl) in
  renderText c f (text fl) (slotWidth fl) (imageHeight fl) (dpi fl)
             (fontSize fl) (verbose fl) >>
  saveImage (outFile fl) rgba >>
  when (verbose fl) (fmt_Printf "Successfully wrote %s\n" [ArgStr (outFile fl)]).

(** The exit status of the process. *)
Definition exit_status {A} (r : Res A) : Z :=
  match r with
  | Ok _ => 0
  | Exit c => c
  | Panic _ => 2
  end.

End Program.

(** The default values of the flags. *)
Definition defaults : Flags :=
  {| dpi := float64_of_int 72;
     fontfile := "./LiberationMono-Regular.ttf";
     hinting := "none";
     fontSize := float64_of_int 125;
     wonb := false;
     text := "TEST";
     outFile := "out.png";
     slotWidth := 120;
     imageHeight := 120;
     showGuidelines := false;
     verbose := false |}.

(* ================================================================== *)
(** * The earlier, monolithic program *)
(* ================================================================== *)

(** The second program of [txt2png.go]: one [main] with a fixed slot
    width, height, baseline and output file name, which always draws the
    guidelines and always prints. *)
Module Legacy.

Section Program.

Context `{L : Lib}.

Record Flags := {
  dpi : float64;
  fontfile : string;
  hinting : string;
  fontSize : float64;
  wonb : bool;
  text : string
}.

Definition slotWidth : Z := 250.
Definition imageHeight : Z := 200.
Definition outFileName : string := "out.png".

(** The body of the rendering loop of [main] for the rune [r] found at
    byte offset [i]. *)
Definition renderRune (c : Context) (f : Font) (fl : Flags) (ir : Z * Z)
  : M unit :=
  let '(i, r) := ir in
  match Face_GlyphAdvance f (fontSize fl) (dpi fl) r with
  | None => log_Printf "Warning: failed to get glyph advance for %q" [ArgRune r]
  | Some advance =>
    (* Convert fixed-point advance to pixels *)
    let glyphWidthPx := glyphWidthPx advance in
    fmt_Printf "Char: %q, Width: %dpx\n" [ArgRune r; ArgInt glyphWidthPx] >>
    (* Calculate horizontal position to center glyph in slot *)
    let xPos := int_add (int_mul i slotWidth)
                        (int_sub (int_div slotWidth 2)
                                 (int_div glyphWidthPx 2)) in
    (* 128 is the hardcoded baseline from the original code *)
    let pt := freetype_Pt xPos 128 in
    let* '(_, err) := DrawString c (string_of_rune r) pt in
    match err with
    | Some e => log_Printf "Error drawing %q: %v" [ArgRune r; ArgErr e]
    | None => ret tt
    end
  end.

Definition main (fl : Flags) : M unit :=
  fmt_Printf "Loading fontfile %q\n" [ArgStr (fontfile fl)] >>
  let* r := os_ReadFile (fontfile fl) in
  match r with
  | inr err => log_Fatalf "Error reading font file: %v" [ArgErr err]
  | inl fontBytes =>
    match truetype_Parse fontBytes with
    | inr err => log_Fatalf "Error parsing font: %v" [ArgErr err]
    | inl f =>
      (* Calculate image dimensions based on text length *)
      let width := int_mul (len (text fl)) slotWidth in
      let width := if width =? 0 then slotWidth else width in
      let* rgba := new_image (NewRGBA_panic (Rect 0 0 width imageHeight))
                             (NewRGBA (Rect 0 0 width imageHeight)) in
      (* Define colors based on the 'wonb' flag *)
      let '(fg, bg) := (image_Black, image_White) in
      let rulerColor :=
        RGBAColor {| R := 0xdd; G := 0xdd; B := 0xdd; A := 0xff |} in
      let '(fg, bg, rulerColor) :=
        if wonb fl then
          (image_White, image_Black,
           RGBAColor {| R := 0x44; G := 0x44; B := 0x44; A := 0xff |})
        else (fg, bg, rulerColor) in
      (* Fill background *)
      let* m := get_image rgba in
      update_image rgba (fun p => draw_Draw_Src p (Bounds m) bg) >>
      (* Draw vertical guidelines at each slot boundary *)
      for_range (len (text fl)) (fun i =>
        let x := int_mul i slotWidth in
        for_range imageHeight (fun y =>
          update_image rgba (RGBA_Set x y rulerColor))) >>
      (* Initialize Freetype context *)
      let c := NewContext in
      let c := SetDPI (dpi fl) c in
      let c := SetFont f c in
      let c := SetFontSize (fontSize fl) c in
      let* m := get_image rgba in
      let c := SetClip (Bounds m) c in
      let c := SetDst rgba c in
      let c := SetSrc fg c in
      let c :=
        if String.eqb (hinting fl) "full" then SetHinting HintingFull c
        else SetHinting HintingNone c in
      (* Render each character centered in its slot *)
      forM_ (range_string (text fl)) (renderRune c f fl) >>
      (* Save the resulting image to out.png *)
      let* r := os_Create outFileName in
      match r with
      | inr err => log_Fatalf "Error creating output file: %v" [ArgErr err]
      | inl outFile =>
        defer (File_Close outFile)
          (let bWriter := bufio_NewWriter outFile in
           let* '(bWriter, err) := png_Encode bWriter rgba in
           match err with
           | Some e => log_Fatalf "Error encoding PNG: %v" [ArgErr e]
           | None =>
             let* '(_, err) := bufio_Flush bWriter in
             match err with
             | Some e => log_Fatalf "Error flushing buffer: %v" [ArgErr e]
             | None =>
               fmt_Printf "Successfully wrote %s\n" [ArgStr outFileName]
             end
           end)
      end
    end
  end.

End Program.

End Legacy.

(* ================================================================== *)
(** * A miniature font, for examples *)
(* ================================================================== *)

Module Mini.

(** A font is the list of runes it has no metrics for and the list of
    runes its rasteriser fails on.  Its file starts with the byte 1;
    every glyph is a block of 2 by 3 pixels, fully opaque, standing on
    the baseline, with an advance of 10 pixels and a half. *)
Record MiniFont := { no_advance : list Z; no_glyph : list Z }.

Definition elem (r : Z) (l : list Z) : bool := existsb (Z.eqb r) l.

Definition parse (b : list Z) : MiniFont + error :=
  match b with
  | 1 :: rest =>
    inl {| no_advance := take 1 rest; no_glyph := drop 1 rest |}
  | _ => inr (Err "freetype: invalid TrueType format: bad magic")
  end.

Definition block : Alpha :=
  {| a_bounds := Rect 0 0 2 3;
     AlphaAt := fun u v => if In_rect u v (Rect 0 0 2 3) then 255 else 0 |}.

#[export] Instance lib : Lib := {|
  Font := MiniFont;
  truetype_Parse := parse;
  Face_GlyphAdvance := fun f _ _ r =>
    if elem r (no_advance f) then None else Some 672;
  Context_glyph := fun f _ _ _ r p =>
    if elem r (no_glyph f) then inr (Err "freetype: unsupported glyph")
    else inl (block, Pt (Z.shiftr (X26 p) 6) (Z.shiftr (Y26 p) 6 - 3));
  Font_Kern := fun _ _ _ _ _ => 0;
  Font_AdvanceWidth := fun _ _ _ _ => 672;
  png_writes := fun m => [[Dx (Bounds m); Dy (Bounds m)]; Pix m]
|}.

(** A machine with the font file [font.ttf] whose font lacks the
    metrics of ['?'] and the glyph of ['#'], and nothing else. *)
Definition world : World :=
  {| files := {[ "font.ttf"%string := [1; 63; 35] ]};
     opened := [];
     read_fault := fun _ => None;
     create_fault := fun _ => None;
     write_fault := fun _ => None;
     write_room := fun _ => 0%nat;
     images := []; output := []; draws := [] |}.

(** The same machine with no space left for [out.png]. *)
Definition world_full : World :=
  {| files := files world; opened := [];
     read_fault := fun _ => None;
     create_fault := fun _ => None;
     write_fault := fun path =>
       if String.eqb path "out.png" then
         Some (Err "no space left on device")
       else None;
     write_room := fun _ => 0%nat;
     images := []; output := []; draws := [] |}.

(** The same machine with space left for five bytes of [out.png]. *)
Definition world_small : World :=
  {| files := files world; opened := [];
     read_fault := fun _ => None;
     create_fault := fun _ => None;
     write_fault := fun path =>
       if String.eqb path "out.png" then
         Some (Err "no space left on device")
       else None;
     write_room := fun _ => 5%nat;
     images := []; output := []; draws := [] |}.

(** The same machine after an earlier run: [out.png] exists and
    something was printed. *)
Definition world_used : World :=
  {| files := <[ "out.png"%string := [7; 7; 7] ]> (files world);
     opened := [];
     read_fault := fun _ => None;
     create_fault := fun _ => None;
     write_fault := fun _ => None;
     write_room := fun _ => 0%nat;
     images := [];
     output := [{| stream := Stdout; format := "earlier"; args := [] |}];
     draws := [] |}.

(** The text of two bytes and one code point: U+00E9. *)
Definition e_acute : string := String "195" (String "169" "").

(** An image of 2 by 2 white pixels. *)
Definition canvas : RGBA :=
  {| Pix := replicate 16 255; Stride := 8; Bounds := Rect 0 0 2 2 |}.

(** The font of [font.ttf]. *)
Definition font : MiniFont := {| no_advance := [63]; no_glyph := [35] |}.

(** Flags of the monolithic program. *)
Definition legacy_flags (t : string) : Legacy.Flags :=
  {| Legacy.dpi := float64_of_int 72; Legacy.fontfile := "font.ttf";
     Legacy.hinting := "none"; Legacy.fontSize := float64_of_int 125;
     Legacy.wonb := false; Legacy.text := t |}.

Definition flags (t : string) (w h : Z) (g : bool) : Flags :=
  {| dpi := float64_of_int 72; fontfile := "font.ttf"; hinting := "none";
     fontSize := float64_of_int 125; wonb := false; text := t;
     outFile := "out.png"; slotWidth := w; imageHeight := h;
     showGuidelines := g; verbose := false |}.

End Mini.

(* ================================================================== *)
(** * Vocabulary of the statements *)
(* ================================================================== *)

(** A well-formed image: the buffer holds exactly the pixels of the
    bounds, four bytes each, row after row.  (The stride of an image that
    has no row may have overflowed in [image.NewRGBA].) *)
Definition wf (p : RGBA) : Prop :=
  let r := Bounds p in
  X (Min r) <= X (Max r) /\ Y (Min r) <= Y (Max r) /\
  (Y (Min r) < Y (Max r) -> Stride p = 4 * (X (Max r) - X (Min r))) /\
  Z.of_nat (length (Pix p))
  = 4 * (X (Max r) - X (Min r)) * (Y (Max r) - Y (Min r)).

(** A rectangle whose coordinates are machine integers in order. *)
Definition wf_rect (r : Rectangle) : Prop :=
  is_int (X (Min r)) /\ is_int (Y (Min r)) /\
  is_int (X (Max r)) /\ is_int (Y (Max r)) /\
  X (Min r) <= X (Max r) /\ Y (Min r) <= Y (Max r).

(** A sequence of in-place operations on one image. *)
Definition foldM_opt {A} (F : A -> RGBA -> option RGBA) (xs : list A)
    (p : RGBA) : option RGBA :=
  foldl (fun acc a => q ← acc; F a q) (Some p) xs.

(** The values taken by the counter of [for i := 0; i < n; i++]. *)
Definition upto (n : Z) : list Z := map Z.of_nat (seq 0 (Z.to_nat n)).

(** The width [createImage] gives the canvas. *)
Definition canvas_width (textLen slotW : Z) : Z :=
  if int_mul textLen slotW =? 0 then slotW else int_mul textLen slotW.

(** The pixels the guideline loops of [createImage] set. *)
Definition guide_coords (textLen slotW imgH : Z) : list (Z * Z) :=
  i ← upto textLen; y ← upto imgH; [(int_mul i slotW, y)].

(** The operation [S] on an image of bounds [B] paints the pixel [(x, y)]:
    it succeeds, keeps the image well-formed, and turns the colour [d] of
    that pixel, when it lies in the image, into [g d], leaving every other
    pixel as it was. *)
Definition paints (S : RGBA -> option RGBA) (B : Rectangle) (x y : Z)
    (g : color_RGBA -> color_RGBA) : Prop :=
  forall p, wf p -> Bounds p = B ->
    exists p', S p = Some p' /\ wf p' /\ Bounds p' = B /\
      forall u v,
        RGBAAt p' u v
        = if bool_decide ((u, v) = (x, y)) && In_rect x y B
          then g (RGBAAt p u v) else RGBAAt p u v.

(** The operating-system side of two worlds is the same. *)
Definition same_os (w w' : World) : Prop :=
  files w' = files w /\ opened w' = opened w /\
  read_fault w' = read_fault w /\ create_fault w' = create_fault w /\
  write_fault w' = write_fault w.

(** The five fatal messages of the program. *)
Definition fatal_formats : list string :=
  [ "Error reading font file: %v"; "Error parsing font: %v";
    "Error creating output file: %v"; "Error encoding PNG: %v";
    "Error flushing buffer: %v" ]%string.

Definition is_fatal (l : Line) : Prop :=
  stream l = Stderr /\ format l ∈ fatal_formats.

(** [all_range P k lo]: [P] holds of every integer from [lo] up to
    [lo + 2^k], excluded. *)
Fixpoint all_range (P : Z -> bool) (k : nat) (lo : Z) : bool :=
  match k with
  | O => P lo
  | S k' => all_range P k' lo && all_range P k' (lo + 2 ^ Z.of_nat k')
  end.

(** The rune that the string of [r] holds: [r] itself, or [RuneError]
    when [r] is a surrogate or out of range. *)
Definition norm_rune (r : Z) : Z :=
  if utf8.ValidRune r then r else utf8.RuneError.

(** The encoding of [r] is made of bytes and decodes to one rune. *)
Definition rune_roundtrip (r : Z) : bool :=
  forallb (fun b => (0 <=? b) && (b <? 256)) (utf8.encoderune r) &&
  match utf8.range_bytes 0 (utf8.encoderune r) with
  | [(0, r')] => r' =? norm_rune r
  | _ => false
  end.

(** The world [w] after the image at [l] became [p], [lines] were printed
    and [calls] reached the rasteriser. *)
Definition render_world (w : World) (l : loc) (p : RGBA) (lines : list Line)
    (calls : list DrawCall) : World :=
  with_output (output w ++ lines)
    (with_draws (draws w ++ calls) (with_images (<[l := p]> (images w)) w)).

(** [p'] is still a well-formed image of the bounds of [p], equal to [p]
    at every pixel outside [clip]. *)
Definition unchanged_outside (clip : Rectangle) (p p' : RGBA) : Prop :=
  wf p' /\ Bounds p' = Bounds p /\
  forall u v, In_rect u v clip = false -> RGBAAt p' u v = RGBAAt p u v.

(** The point at which [renderText] draws the rune found at byte offset
    [i] whose advance is [advance]. *)
Definition draw_point (i slotW imgH advance : Z) : Point26_6 :=
  freetype_Pt
    (int_add (int_mul i slotW)
             (int_sub (int_div slotW 2) (int_div (glyphWidthPx advance) 2)))
    (int_div (int_mul imgH 2) 3).

Definition warn_line (r : Z) : Line :=
  {| stream := Stderr;
     format := "Warning: failed to get glyph advance for %q";
     args := [ArgRune r] |}.

Definition draw_error_line (r : Z) (e : error) : Line :=
  {| stream := Stderr; format := "Error drawing %q: %v";
     args := [ArgRune r; ArgErr e] |}.

Definition width_lines (verb : bool) (r advance : Z) : list Line :=
  if verb then
    [{| stream := Stdout; format := "Char: %q, Width: %dpx\n";
        args := [ArgRune r; ArgInt (glyphWidthPx advance)] |}]
  else [].

Definition load_lines (verb : bool) (path : string) : list Line :=
  if verb then
    [{| stream := Stdout; format := "Loading fontfile %q\n";
        args := [ArgStr path] |}]
  else [].

Definition done_lines (verb : bool) (path : string) : list Line :=
  if verb then
    [{| stream := Stdout; format := "Successfully wrote %s\n";
        args := [ArgStr path] |}]
  else [].

Definition fatal_line (fmt : string) (e : error) : Line :=
  {| stream := Stderr; format := fmt; args := [ArgErr e] |}.

(** Dimensions that [png.Encode] accepts. *)
Definition png_rect_ok (r : Rectangle) : bool :=
  negb ((Dx r <=? 0) || (Dy r <=? 0) || (2 ^ 32 <=? Dx r) || (2 ^ 32 <=? Dy r)).

Definition png_size_ok (p : RGBA) : bool := png_rect_ok (Bounds p).

(** [string(rs)] for a slice of runes: the concatenation of their UTF-8
    encodings. *)
Definition string_of_runes (rs : list Z) : string :=
  string_of_bytes (rs ≫= utf8.encoderune).

(** The byte offset and rune of each code point of the UTF-8 encoding of
    [rs], starting at offset [k]. *)
Fixpoint rune_offsets (k : Z) (rs : list Z) : list (Z * Z) :=
  match rs with
  | [] => []
  | r :: rs' =>
    (k, r) :: rune_offsets (k + Z.of_nat (length (utf8.encoderune r))) rs'
  end.

(** A byte of a string. *)
Definition byte (b : Z) : Prop := 0 <= b < 256.

(** [image.NewRGBA] can allocate an image of these bounds: the length of
    the buffer does not overflow and [make] accepts it. *)
Definition allocatable (r : Rectangle) : bool :=
  negb (mul3NonNeg 4 (Dx r) (Dy r) <? 0)
  && negb (maxAlloc <? mul3NonNeg 4 (Dx r) (Dy r)).

Section RenderVocabulary.

Context `{L : Lib}.

(** The error [DrawString] returns for the one-rune string of [r]. *)
Definition draw_error (c : Context) (r : Z) (pt : Point26_6) : option error :=
  match c_f c with
  | None => Some (Err "freetype: DrawText called with a nil font")
  | Some f =>
    match Context_glyph f (c_fontSize c) (c_dpi c) (c_hinting c)
                        (norm_rune r) pt with
    | inr e => Some e
    | inl _ => None
    end
  end.

(** What the iteration of [renderText] for one rune asks of the
    rasteriser, what it prints, and whether it leaves the image as it
    was. *)
Definition rune_calls (f : Font) (slotW imgH : Z) (dpi size : float64)
    (ir : Z * Z) : list DrawCall :=
  match Face_GlyphAdvance f size dpi ir.2 with
  | None => []
  | Some advance =>
    [{| dc_text := string_of_rune ir.2;
        dc_at := draw_point ir.1 slotW imgH advance |}]
  end.

Definition rune_lines (c : Context) (f : Font) (slotW imgH : Z)
    (dpi size : float64) (verb : bool) (ir : Z * Z) : list Line :=
  match Face_GlyphAdvance f size dpi ir.2 with
  | None => [warn_line ir.2]
  | Some advance =>
    width_lines verb ir.2 advance ++
    match draw_error c ir.2 (draw_point ir.1 slotW imgH advance) with
    | Some e => [draw_error_line ir.2 e]
    | None => []
    end
  end.

Definition rune_fails (c : Context) (f : Font) (slotW imgH : Z)
    (dpi size : float64) (ir : Z * Z) : Prop :=
  match Face_GlyphAdvance f size dpi ir.2 with
  | None => True
  | Some advance =>
    is_Some (draw_error c ir.2 (draw_point ir.1 slotW imgH advance))
  end.

(** The context [getFreeTypeContext] builds, before its destination is
    set. *)
Definition base_context (f : Font) (dpi size : float64) (clip : Rectangle)
    (src : Image) (hintingStr : string) : Context :=
  {| c_f := Some f; c_fontSize := size; c_dpi := dpi; c_clip := clip;
     c_dst := None; c_src := Some src;
     c_hinting := if String.eqb hintingStr "full" then HintingFull
                  else HintingNone |}.

End RenderVocabulary.

#[global] Instance color_RGBA_eq_dec : EqDecision color_RGBA.
Proof. solve_decision. Defined.

(* ================================================================== *)
(** * Properties *)
(* ================================================================== *)

(** ** Machine integers *)

Lemma wrapInt_range (z : Z) : is_int (wrapInt z).
Proof.
  unfold is_int, wrapInt, minInt, maxInt.
  pose proof (Z.mod_pos_bound (z + 2 ^ 63) (2 ^ 64)). lia.
Qed.

Lemma wrapInt_id (z : Z) : is_int z -> wrapInt z = z.
Proof.
  unfold is_int, wrapInt, minInt, maxInt. intros H.
  rewrite Z.mod_small; lia.
Qed.

Lemma wrapInt32_id (z : Z) : is_int32 z -> wrapInt32 z = z.
Proof.
  unfold is_int32, wrapInt32. intros H. rewrite Z.mod_small; lia.
Qed.

(** ** The palette *)

(** C6. [getColors] returns one of exactly two palettes: without
    [whiteonblack] a black foreground on a white background with the
    light-gray guideline 0xdddddd, with it a white foreground on a black
    background with the dark-gray guideline 0x444444; no input gives any
    other palette. *)
Theorem getColors_two_palettes :
  getColors false
  = (image_Black, image_White,
     RGBAColor {| R := 0xdd; G := 0xdd; B := 0xdd; A := 0xff |})
  /\ getColors true
     = (image_White, image_Black,
        RGBAColor {| R := 0x44; G := 0x44; B := 0x44; A := 0xff |})
  /\ (forall whiteOnBlack,
        getColors whiteOnBlack = getColors false
        \/ getColors whiteOnBlack = getColors true)
  /\ getColors false <> getColors true
  /\ RGBAModel color_White = {| R := 0xff; G := 0xff; B := 0xff; A := 0xff |}
  /\ RGBAModel color_Black = {| R := 0; G := 0; B := 0; A := 0xff |}.
Proof.
  repeat split; try reflexivity.
  - intros []; [right | left]; reflexivity.
  - discriminate.
Qed.

(** ** The pixel width of an advance

    [float64(advance)] is exact for a 32-bit integer, the division by 64
    only changes the exponent, and the conversion back drops the
    fraction. *)














Example glyphWidthPx_examples :
  glyphWidthPx 672 = 10 /\ glyphWidthPx 63 = 0 /\ glyphWidthPx (-130) = -2
  /\ glyphWidthPx 4800 = 75.
Proof. repeat split; reflexivity. Qed.

(** ** Pixels of an image *)

Lemma In_rect_spec (x y : Z) (r : Rectangle) :
  In_rect x y r = true <->
  X (Min r) <= x < X (Max r) /\ Y (Min r) <= y < Y (Max r).
Proof. unfold In_rect. rewrite !andb_true_iff. lia. Qed.

Lemma In_rect_Intersect (x y : Z) (r s : Rectangle) :
  In_rect x y (Intersect r s) = In_rect x y r && In_rect x y s.
Proof.
  apply eq_true_iff_eq. rewrite andb_true_iff, !In_rect_spec.
  unfold Intersect, Empty. simpl.
  destruct (_ || _) eqn:E; simpl.
  - apply orb_true_iff in E. lia.
  - apply orb_false_iff in E. lia.
Qed.

Lemma PixOffset_bounds (p : RGBA) (x y : Z) :
  wf p -> In_rect x y (Bounds p) = true ->
  0 <= PixOffset p x y /\ PixOffset p x y + 4 <= Z.of_nat (length (Pix p)).
Proof.
  intros (Hx & Hy & Hs & Hl) Hin. apply In_rect_spec in Hin.
  unfold PixOffset. rewrite Hl, Hs by lia. nia.
Qed.

Lemma PixOffset_apart (p : RGBA) (x y u v : Z) :
  wf p -> In_rect x y (Bounds p) = true -> In_rect u v (Bounds p) = true ->
  (u, v) <> (x, y) ->
  PixOffset p u v + 4 <= PixOffset p x y \/ PixOffset p x y + 4 <= PixOffset p u v.
Proof.
  intros (Hx & Hy & Hs & Hl) Hin Hin' Hne.
  apply In_rect_spec in Hin. apply In_rect_spec in Hin'.
  unfold PixOffset. rewrite Hs by lia.
  assert (u <> x \/ v <> y) as Hd.
  { destruct (decide (u = x)); [right | left; assumption]. congruence. }
  destruct (Z.lt_trichotomy v y) as [Hlt | [Heq | Hgt]].
  - left. nia.
  - subst. destruct Hd; [|congruence]. nia.
  - right. nia.
Qed.

Lemma insert4_lookup (l : list Z) (n : nat) (a b c d : Z) :
  (n + 3 < length l)%nat ->
  let l' := <[(n + 3)%nat := d]> (<[(n + 2)%nat := c]>
              (<[(n + 1)%nat := b]> (<[n := a]> l))) in
  l' !! n = Some a /\ l' !! (n + 1)%nat = Some b /\
  l' !! (n + 2)%nat = Some c /\ l' !! (n + 3)%nat = Some d.
Proof.
  intros Hn l'. subst l'. repeat split.
  - rewrite !list_lookup_insert_ne by lia.
    apply list_lookup_insert_eq. lia.
  - rewrite !list_lookup_insert_ne by lia.
    apply list_lookup_insert_eq. rewrite !length_insert. lia.
  - rewrite !list_lookup_insert_ne by lia.
    apply list_lookup_insert_eq. rewrite !length_insert. lia.
  - apply list_lookup_insert_eq. rewrite !length_insert. lia.
Qed.

Lemma load4_store4 (p : RGBA) (i : Z) (c : color_RGBA) :
  0 <= i -> i + 4 <= Z.of_nat (length (Pix p)) ->
  exists p', store4 p i c = Some p' /\ Bounds p' = Bounds p /\
    Stride p' = Stride p /\ length (Pix p') = length (Pix p) /\
    load4 p' i = Some c /\
    forall j, j + 4 <= i \/ i + 4 <= j -> load4 p' j = load4 p j.
Proof.
  intros Hi Hlen. unfold store4.
  destruct (Z.leb_spec 0 i); [|lia].
  destruct (Z.leb_spec (i + 4) (Z.of_nat (length (Pix p)))); [|lia].
  simpl. eexists. split; [reflexivity|]. simpl.
  repeat split.
  - rewrite !length_insert. reflexivity.
  - unfold load4. simpl. rewrite !length_insert.
    destruct (Z.leb_spec 0 i); [|lia].
    destruct (Z.leb_spec (i + 4) (Z.of_nat (length (Pix p)))); [|lia].
    simpl.
    destruct (insert4_lookup (Pix p) (Z.to_nat i) (R c) (G c) (B c) (A c))
      as (-> & -> & -> & ->); [lia|].
    simpl. destruct c; reflexivity.
  - intros j Hj. unfold load4. simpl. rewrite !length_insert.
    destruct ((0 <=? j) && (j + 4 <=? Z.of_nat (length (Pix p)))) eqn:E;
      [|reflexivity].
    apply andb_true_iff in E as [E1 E2].
    apply Z.leb_le in E1. apply Z.leb_le in E2.
    rewrite !list_lookup_insert_ne by lia. reflexivity.
Qed.

Lemma load4_is_Some (p : RGBA) (i : Z) :
  0 <= i -> i + 4 <= Z.of_nat (length (Pix p)) -> is_Some (load4 p i).
Proof.
  intros Hi Hlen. unfold load4.
  destruct (Z.leb_spec 0 i); [|lia].
  destruct (Z.leb_spec (i + 4) (Z.of_nat (length (Pix p)))); [|lia].
  simpl.
  destruct (lookup_lt_is_Some_2 (Pix p) (Z.to_nat i)) as [a ->]; [lia|].
  destruct (lookup_lt_is_Some_2 (Pix p) (Z.to_nat i + 1)) as [b ->]; [lia|].
  destruct (lookup_lt_is_Some_2 (Pix p) (Z.to_nat i + 2)) as [c ->]; [lia|].
  destruct (lookup_lt_is_Some_2 (Pix p) (Z.to_nat i + 3)) as [d ->]; [lia|].
  simpl. eauto.
Qed.

Lemma RGBAAt_outside (p : RGBA) (x y : Z) :
  In_rect x y (Bounds p) = false ->
  RGBAAt p x y = {| R := 0; G := 0; B := 0; A := 0 |}.
Proof. intros H. unfold RGBAAt. rewrite H. reflexivity. Qed.

(** Writing the pixel [(x, y)] of a well-formed image changes that pixel
    and no other. *)
Lemma store4_pixel (p : RGBA) (x y : Z) (c : color_RGBA) :
  wf p -> In_rect x y (Bounds p) = true ->
  exists p', store4 p (PixOffset p x y) c = Some p' /\ wf p' /\
    Bounds p' = Bounds p /\
    forall u v,
      RGBAAt p' u v = if bool_decide ((u, v) = (x, y)) then c else RGBAAt p u v.
Proof.
  intros Hwf Hin.
  destruct (PixOffset_bounds p x y Hwf Hin) as [H0 H4].
  destruct (load4_store4 p (PixOffset p x y) c H0 H4)
    as (p' & Hst & Hb & Hs & Hl & Hsame & Hother).
  exists p'. split; [exact Hst|].
  assert (Hoff : forall u v, PixOffset p' u v = PixOffset p u v).
  { intros. unfold PixOffset. rewrite Hb, Hs. reflexivity. }
  split; [|split; [exact Hb|]].
  - unfold wf in *. rewrite Hb, Hs, Hl. exact Hwf.
  - intros u v. unfold RGBAAt. rewrite Hb, Hoff.
    case_bool_decide as Heq.
    + injection Heq as -> ->. rewrite Hin. simpl. rewrite Hsame. reflexivity.
    + destruct (In_rect u v (Bounds p)) eqn:Hin'; [|reflexivity]. simpl.
      rewrite Hother; [reflexivity|].
      apply PixOffset_apart; assumption.
Qed.

Lemma RGBA_Set_paints (x y : Z) (c : Color) (B : Rectangle) :
  paints (RGBA_Set x y c) B x y (fun _ => RGBAModel c).
Proof.
  intros p Hwf <-. unfold RGBA_Set.
  destruct (In_rect x y (Bounds p)) eqn:Hin; simpl.
  - destruct (store4_pixel p x y (RGBAModel c) Hwf Hin) as (p' & -> & ? & ? & Hat).
    exists p'. split; [reflexivity|]. split; [assumption|]. split; [assumption|].
    intros u v. rewrite Hat, andb_true_r. reflexivity.
  - exists p. split; [reflexivity|]. split; [assumption|]. split; [reflexivity|].
    intros u v. rewrite andb_false_r. reflexivity.
Qed.

Lemma draw_pixel_paints (f : Z -> Z -> color_RGBA -> color_RGBA)
    (x y : Z) (B : Rectangle) :
  In_rect x y B = true ->
  paints (fun p => draw_pixel f p (x, y)) B x y (f x y).
Proof.
  intros Hin p Hwf <-. unfold draw_pixel. simpl.
  destruct (PixOffset_bounds p x y Hwf Hin) as [H0 H4].
  destruct (load4_is_Some p _ H0 H4) as [d Hd]. rewrite Hd. simpl.
  destruct (store4_pixel p x y (f x y d) Hwf Hin) as (p' & -> & ? & ? & Hat).
  exists p'. split; [reflexivity|]. split; [assumption|]. split; [assumption|].
  intros u v. rewrite Hat, Hin, andb_true_r.
  case_bool_decide as Heq; [|reflexivity].
  injection Heq as -> ->. unfold RGBAAt. rewrite Hin, Hd. reflexivity.
Qed.

Lemma foldM_opt_nil {A} (F : A -> RGBA -> option RGBA) (p : RGBA) :
  foldM_opt F [] p = Some p.
Proof. reflexivity. Qed.

Lemma foldM_opt_cons {A} (F : A -> RGBA -> option RGBA) (a : A) (l : list A)
    (p : RGBA) :
  foldM_opt F (a :: l) p = F a p ≫= foldM_opt F l.
Proof.
  unfold foldM_opt. simpl. destruct (F a p) as [q|]; simpl; [reflexivity|].
  induction l as [|b l IH]; simpl; [reflexivity | exact IH].
Qed.

Lemma foldM_opt_app {A} (F : A -> RGBA -> option RGBA) (l1 l2 : list A)
    (p : RGBA) :
  foldM_opt F (l1 ++ l2) p = foldM_opt F l1 p ≫= foldM_opt F l2.
Proof.
  revert p. induction l1 as [|a l1 IH]; intros p; [reflexivity|].
  simpl app. rewrite !foldM_opt_cons.
  destruct (F a p) as [q|]; simpl; [apply IH | reflexivity].
Qed.

(** A sequence of pixel writes: it succeeds, keeps the image well-formed
    and its bounds, leaves alone every pixel that is not written, and when
    all writes paint one colour the written pixels have that colour. *)
Lemma foldM_opt_paints {A} (S : A -> RGBA -> option RGBA) (pos : A -> Z * Z)
    (g : A -> color_RGBA -> color_RGBA) (B : Rectangle) (l : list A) :
  (forall a, a ∈ l -> paints (S a) B (pos a).1 (pos a).2 (g a)) ->
  forall p, wf p -> Bounds p = B ->
    exists p', foldM_opt S l p = Some p' /\ wf p' /\ Bounds p' = B /\
      (forall u v, (u, v) ∉ pos <$> l -> RGBAAt p' u v = RGBAAt p u v) /\
      (forall c, (forall a d, a ∈ l -> g a d = c) ->
         forall u v, (u, v) ∈ pos <$> l -> In_rect u v B = true ->
           RGBAAt p' u v = c).
Proof.
  induction l as [|a l IH]; intros Hp p Hwf HB.
  - exists p. split; [reflexivity|]. split; [assumption|]. split; [assumption|].
    split; [reflexivity|]. intros c _ u v Hin. inversion Hin.
  - destruct (Hp a ltac:(left) p Hwf HB) as (p1 & H1 & Hwf1 & HB1 & Hat1).
    destruct (IH (fun b Hb => Hp b ltac:(right; exact Hb)) p1 Hwf1 HB1)
      as (p' & H' & Hwf' & HB' & Hframe & Hcol).
    exists p'. rewrite foldM_opt_cons, H1. simpl.
    split; [exact H'|]. split; [assumption|]. split; [assumption|]. split.
    + intros u v Hnin. change (pos <$> a :: l) with (pos a :: (pos <$> l)) in Hnin.
      rewrite not_elem_of_cons in Hnin.
      destruct Hnin as [Hne Hnin]. rewrite Hframe by exact Hnin.
      rewrite Hat1. case_bool_decide as Heq; [|reflexivity].
      exfalso. apply Hne. rewrite Heq. destruct (pos a); reflexivity.
    + intros c Hc u v Hin Hrect.
      destruct (decide ((u, v) ∈ pos <$> l)) as [Hl | Hl].
      * apply (Hcol c); [|assumption..].
        intros b d Hb. apply Hc. right. exact Hb.
      * rewrite Hframe by exact Hl.
        change (pos <$> a :: l) with (pos a :: (pos <$> l)) in Hin.
        rewrite elem_of_cons in Hin.
        destruct Hin as [Heq | Hin]; [|contradiction].
        rewrite Hat1. rewrite bool_decide_eq_true_2
          by (rewrite Heq; destruct (pos a); reflexivity).
        assert (Hxy : (pos a).1 = u /\ (pos a).2 = v)
          by (rewrite <- Heq; split; reflexivity).
        destruct Hxy as [-> ->]. rewrite Hrect. simpl. apply Hc. left.
Qed.

Lemma elem_of_span (lo hi k : Z) : k ∈ span lo hi <-> lo <= k < hi.
Proof.
  unfold span. rewrite list_elem_of_fmap. split.
  - intros (n & -> & Hn). apply elem_of_seq in Hn. lia.
  - intros H. exists (Z.to_nat (k - lo)). split; [lia|].
    apply elem_of_seq. lia.
Qed.

Lemma elem_of_upto (n k : Z) : k ∈ upto n <-> 0 <= k < n.
Proof.
  unfold upto. rewrite list_elem_of_fmap. split.
  - intros (m & -> & Hm). apply elem_of_seq in Hm. lia.
  - intros H. exists (Z.to_nat k). split; [lia|]. apply elem_of_seq. lia.
Qed.

Lemma elem_of_pixels_of (x y : Z) (r : Rectangle) :
  (x, y) ∈ pixels_of r <-> In_rect x y r = true.
Proof.
  unfold pixels_of. rewrite In_rect_spec, list_elem_of_bind. split.
  - intros (v & Hin & Hv). apply elem_of_span in Hv.
    apply list_elem_of_bind in Hin as (u & Hin & Hu). apply elem_of_span in Hu.
    apply list_elem_of_singleton in Hin. injection Hin as -> ->. lia.
  - intros [Hx Hy]. exists y. split; [|apply elem_of_span; exact Hy].
    apply list_elem_of_bind. exists x. split; [|apply elem_of_span; exact Hx].
    apply list_elem_of_singleton. reflexivity.
Qed.

Lemma mul3NonNeg_nonneg (x y z : Z) :
  0 <= mul3NonNeg x y z ->
  0 <= x /\ 0 <= y /\ 0 <= z /\ x * y < 2 ^ 64 /\ x * y * z <= maxInt
  /\ mul3NonNeg x y z = x * y * z.
Proof.
  unfold mul3NonNeg, maxInt.
  destruct (Z.ltb_spec x 0), (Z.ltb_spec y 0), (Z.ltb_spec z 0),
    (Z.leb_spec (2 ^ 64) (x * y)), (Z.leb_spec (2 ^ 63) (x * y * z));
    simpl; lia.
Qed.

Lemma mul3NonNeg_exact (x y z : Z) :
  0 <= x -> 0 <= y -> 0 <= z -> x * y < 2 ^ 64 -> x * y * z <= maxInt ->
  mul3NonNeg x y z = x * y * z.
Proof.
  unfold mul3NonNeg, maxInt. intros Hx Hy Hz Hxy Hxyz.
  destruct (Z.ltb_spec x 0), (Z.ltb_spec y 0), (Z.ltb_spec z 0),
    (Z.leb_spec (2 ^ 64) (x * y)), (Z.leb_spec (2 ^ 63) (x * y * z));
    simpl; lia.
Qed.

Lemma NewRGBA_wf (r : Rectangle) (p : RGBA) :
  wf_rect r -> NewRGBA r = Some p ->
  wf p /\ Bounds p = r /\
  forall x y, RGBAAt p x y = {| R := 0; G := 0; B := 0; A := 0 |}.
Proof.
  intros (Hx0 & Hy0 & Hx1 & Hy1 & Hx & Hy). unfold NewRGBA.
  destruct (Z.ltb_spec (mul3NonNeg 4 (Dx r) (Dy r)) 0) as [|Hlen]; [discriminate|].
  destruct (maxAlloc <? mul3NonNeg 4 (Dx r) (Dy r)); [discriminate|].
  intros [= <-].
  destruct (mul3NonNeg_nonneg _ _ _ Hlen) as (_ & Hdx & Hdy & Hm & Hm2 & Heq).
  rewrite Heq in *. clear Heq.
  unfold is_int, minInt, maxInt in *.
  assert (HDx : Dx r = X (Max r) - X (Min r)).
  { unfold Dx, int_sub, wrapInt in *.
    destruct (Z_lt_le_dec (X (Max r) - X (Min r)) (2 ^ 63)).
    - rewrite Z.mod_small; lia.
    - exfalso. replace (X (Max r) - X (Min r) + 2 ^ 63)
        with (X (Max r) - X (Min r) - 2 ^ 63 + 1 * 2 ^ 64) in Hdx by lia.
      rewrite Z.mod_add, Z.mod_small in Hdx; lia. }
  assert (HDy : Dy r = Y (Max r) - Y (Min r)).
  { unfold Dy, int_sub, wrapInt in *.
    destruct (Z_lt_le_dec (Y (Max r) - Y (Min r)) (2 ^ 63)).
    - rewrite Z.mod_small; lia.
    - exfalso. replace (Y (Max r) - Y (Min r) + 2 ^ 63)
        with (Y (Max r) - Y (Min r) - 2 ^ 63 + 1 * 2 ^ 64) in Hdy by lia.
      rewrite Z.mod_add, Z.mod_small in Hdy; lia. }
  unfold maxInt in *.
  split; [|split; [reflexivity|]].
  - unfold wf. simpl. rewrite length_replicate, <- HDx, <- HDy.
    split; [lia|]. split; [lia|]. split; [|nia].
    intros Hrow. apply wrapInt_id. unfold is_int, minInt, maxInt. nia.
  - intros x y. unfold RGBAAt. simpl.
    destruct (In_rect x y r); [|reflexivity]. simpl.
    unfold load4. simpl.
    destruct (_ && _); [|reflexivity]. simpl.
    set (N := Z.to_nat (4 * Dx r * Dy r)).
    set (n := Z.to_nat (PixOffset _ x y)).
    destruct (replicate N 0 !! n) as [a|] eqn:Ea; [|reflexivity].
    destruct (replicate N 0 !! (n + 1)%nat) as [b|] eqn:Eb; [|reflexivity].
    destruct (replicate N 0 !! (n + 2)%nat) as [c|] eqn:Ec; [|reflexivity].
    destruct (replicate N 0 !! (n + 3)%nat) as [d|] eqn:Ed; [|reflexivity].
    apply lookup_replicate in Ea as [-> _]. apply lookup_replicate in Eb as [-> _].
    apply lookup_replicate in Ec as [-> _]. apply lookup_replicate in Ed as [-> _].
    reflexivity.
Qed.

Lemma foldM_opt_ext {A} (F G : A -> RGBA -> option RGBA) (l : list A) (p : RGBA) :
  (forall a q, a ∈ l -> F a q = G a q) -> foldM_opt F l p = foldM_opt G l p.
Proof.
  revert p. induction l as [|a l IH]; intros p H; [reflexivity|].
  rewrite !foldM_opt_cons, (H a p) by left.
  destruct (G a p) as [q|]; simpl; [|reflexivity].
  apply IH. intros b q' Hb. apply H. right. exact Hb.
Qed.

Lemma foldM_opt_bind {A B} (F : B -> RGBA -> option RGBA) (h : A -> list B)
    (xs : list A) (p : RGBA) :
  foldM_opt (fun a q => foldM_opt F (h a) q) xs p = foldM_opt F (xs ≫= h) p.
Proof.
  revert p. induction xs as [|a xs IH]; intros p; [reflexivity|].
  change ((a :: xs) ≫= h) with (h a ++ (xs ≫= h)).
  rewrite foldM_opt_cons, foldM_opt_app.
  destruct (foldM_opt F (h a) p) as [q|]; simpl; [apply IH | reflexivity].
Qed.

Lemma foldM_opt_singleton {A} (F : A -> RGBA -> option RGBA) (a : A) (p : RGBA) :
  foldM_opt F [a] p = F a p.
Proof. rewrite foldM_opt_cons. destruct (F a p); reflexivity. Qed.

Lemma draw_loop_spec (f : Z -> Z -> color_RGBA -> color_RGBA) (r : Rectangle)
    (p : RGBA) :
  wf p ->
  (forall x y, In_rect x y r = true -> In_rect x y (Bounds p) = true) ->
  exists p', draw_loop f r p = Some p' /\ wf p' /\ Bounds p' = Bounds p /\
    (forall u v, In_rect u v r = false -> RGBAAt p' u v = RGBAAt p u v) /\
    (forall c, (forall x y d, f x y d = c) ->
       forall u v, In_rect u v r = true -> RGBAAt p' u v = c).
Proof.
  intros Hwf Hsub.
  destruct (foldM_opt_paints (fun xy q => draw_pixel f q xy) id
              (fun xy => f xy.1 xy.2) (Bounds p) (pixels_of r)) with (p := p)
    as (p' & H' & Hwf' & HB' & Hframe & Hcol); [|assumption|reflexivity|].
  { intros [x y] Hin. apply draw_pixel_paints, Hsub, elem_of_pixels_of, Hin. }
  exists p'. split; [exact H'|]. split; [assumption|]. split; [assumption|].
  rewrite list_fmap_id in Hframe, Hcol. split.
  - intros u v Hout. apply Hframe. rewrite elem_of_pixels_of, Hout. discriminate.
  - intros c Hc u v Hin. apply (Hcol c).
    + intros a d _. apply Hc.
    + apply elem_of_pixels_of, Hin.
    + apply Hsub, Hin.
Qed.

(** Filling with a uniform source gives the source colour to every
    pixel of the rectangle that lies in the image and within the bounds of
    the source, moved to the corner of the rectangle, and changes no
    other. *)
Lemma draw_Draw_Src_spec (p : RGBA) (r : Rectangle) (src : Image) :
  wf p ->
  exists p', draw_Draw_Src p r src = Some p' /\ wf p' /\ Bounds p' = Bounds p /\
    forall u v,
      RGBAAt p' u v
      = if In_rect u v r && In_rect u v (Bounds p)
           && In_rect u v (src_clip src (Min r))
        then RGBAModel (Image_color src) else RGBAAt p u v.
Proof.
  intros Hwf. unfold draw_Draw_Src. cbv zeta.
  set (r2 := Intersect (Intersect r (Bounds p)) (src_clip src (Min r))).
  assert (Hin2 : forall u v,
            In_rect u v r && In_rect u v (Bounds p)
            && In_rect u v (src_clip src (Min r)) = In_rect u v r2).
  { intros u v. unfold r2. rewrite !In_rect_Intersect. reflexivity. }
  destruct (Empty r2) eqn:HE.
  - exists p. split; [reflexivity|]. split; [assumption|]. split; [reflexivity|].
    intros u v. rewrite Hin2.
    destruct (In_rect u v r2) eqn:Hin; [|reflexivity].
    apply In_rect_spec in Hin. unfold Empty in HE.
    apply orb_true_iff in HE. lia.
  - destruct (draw_loop_spec (fun _ _ _ => RGBAModel (Image_color src))
                r2 p Hwf)
      as (p' & H' & Hwf' & HB' & Hframe & Hcol).
    { intros x y. rewrite <- Hin2, !andb_true_iff. tauto. }
    exists p'. split; [exact H'|]. split; [assumption|]. split; [assumption|].
    intros u v. rewrite Hin2.
    destruct (In_rect u v r2) eqn:Hin.
    + apply (Hcol _ (fun _ _ _ => eq_refl)), Hin.
    + apply Hframe, Hin.
Qed.

(** Compositing a glyph mask keeps the image well-formed with the same
    bounds, and changes no pixel outside the rectangle it is given. *)
Lemma draw_DrawMask_Over_spec (p : RGBA) (r : Rectangle) (src : Image)
    (mask : Alpha) (mp : Point) :
  wf p ->
  exists p', draw_DrawMask_Over p r src mask mp = Some p' /\ wf p' /\
    Bounds p' = Bounds p /\
    forall u v, In_rect u v r = false -> RGBAAt p' u v = RGBAAt p u v.
Proof.
  intros Hwf. unfold draw_DrawMask_Over. cbv zeta.
  set (r2 := Intersect (Intersect (Intersect r (Bounds p)) _) _).
  destruct (Empty r2) eqn:HE.
  - exists p. split; [reflexivity|]. split; [assumption|]. split; reflexivity.
  - destruct (draw_loop_spec
                (fun x y d => glyph_over src
                   (AlphaAt mask (X mp + (x - X (Min r))) (Y mp + (y - Y (Min r)))) d)
                r2 p Hwf) as (p' & H' & Hwf' & HB' & Hframe & _).
    { intros x y. unfold r2. rewrite !In_rect_Intersect, !andb_true_iff. tauto. }
    exists p'. split; [exact H'|]. split; [assumption|]. split; [assumption|].
    intros u v Hout. apply Hframe. unfold r2.
    rewrite !In_rect_Intersect, Hout. reflexivity.
Qed.

(** The guideline loops of [createImage], as one sequence of [Set]. *)
Lemma guidelines_spec (textLen slotW imgH : Z) (c : Color) (p : RGBA) :
  wf p ->
  exists p',
    foldM_opt (fun i q =>
                 foldM_opt (fun y q' => RGBA_Set (int_mul i slotW) y c q')
                           (upto imgH) q)
              (upto textLen) p = Some p' /\
    wf p' /\ Bounds p' = Bounds p /\
    forall u v,
      RGBAAt p' u v
      = if bool_decide ((u, v) ∈ guide_coords textLen slotW imgH)
           && In_rect u v (Bounds p)
        then RGBAModel c else RGBAAt p u v.
Proof.
  intros Hwf.
  set (F := fun (xy : Z * Z) (q : RGBA) => RGBA_Set xy.1 xy.2 c q).
  assert (Heq :
    foldM_opt (fun i q =>
                 foldM_opt (fun y q' => RGBA_Set (int_mul i slotW) y c q')
                           (upto imgH) q) (upto textLen) p
    = foldM_opt F (guide_coords textLen slotW imgH) p).
  { unfold guide_coords. rewrite <- foldM_opt_bind.
    apply foldM_opt_ext. intros i q _.
    rewrite <- foldM_opt_bind. apply foldM_opt_ext. intros y q' _.
    rewrite foldM_opt_singleton. reflexivity. }
  rewrite Heq.
  destruct (foldM_opt_paints F id (fun _ _ => RGBAModel c) (Bounds p)
              (guide_coords textLen slotW imgH)) with (p := p)
    as (p' & H' & Hwf' & HB' & Hframe & Hcol); [|assumption|reflexivity|].
  { intros [x y] _. apply RGBA_Set_paints. }
  exists p'. split; [exact H'|]. split; [assumption|]. split; [assumption|].
  rewrite list_fmap_id in Hframe, Hcol. intros u v.
  case_bool_decide as Hin; simpl.
  - destruct (In_rect u v (Bounds p)) eqn:Hr.
    + apply (Hcol _ (fun _ _ _ => eq_refl)); assumption.
    + rewrite !RGBAAt_outside by (rewrite ?HB'; exact Hr). reflexivity.
  - apply Hframe, Hin.
Qed.

(** ** The image store *)

Lemma with_images_id (w : World) (im : list RGBA) :
  im = images w -> with_images im w = w.
Proof. intros ->. destruct w; reflexivity. Qed.

Lemma bind_ok {A B} (m : M A) (k : A -> M B) (w w' : World) (a : A) :
  m w = (Ok a, w') -> bind m k w = k a w'.
Proof. intros H. unfold bind. rewrite H. reflexivity. Qed.

Lemma bind_exit {A B} (m : M A) (k : A -> M B) (w w' : World) (c : Z) :
  m w = (Exit c, w') -> bind m k w = (Exit c, w').
Proof. intros H. unfold bind. rewrite H. reflexivity. Qed.

Lemma bind_panic {A B} (m : M A) (k : A -> M B) (w w' : World) (s : string) :
  m w = (Panic s, w') -> bind m k w = (Panic s, w').
Proof. intros H. unfold bind. rewrite H. reflexivity. Qed.

Lemma get_image_ok (l : loc) (w : World) (p : RGBA) :
  images w !! l = Some p -> get_image l w = (Ok p, w).
Proof. intros H. unfold get_image. rewrite H. reflexivity. Qed.

Lemma update_image_ok (l : loc) (f : RGBA -> option RGBA) (w : World)
    (p p' : RGBA) :
  images w !! l = Some p -> f p = Some p' ->
  update_image l f w = (Ok tt, with_images (<[l := p']> (images w)) w).
Proof.
  intros Hl Hf. unfold update_image, bind, get_image. rewrite Hl, Hf. reflexivity.
Qed.

Lemma forM_as_update {A} (body : A -> M unit) (G : A -> RGBA -> option RGBA)
    (l : loc) (xs : list A) :
  (forall a w p p', a ∈ xs -> images w !! l = Some p -> G a p = Some p' ->
     body a w = (Ok tt, with_images (<[l := p']> (images w)) w)) ->
  forall w p p', images w !! l = Some p -> foldM_opt G xs p = Some p' ->
    forM_ xs body w = (Ok tt, with_images (<[l := p']> (images w)) w).
Proof.
  induction xs as [|a xs IH]; intros Hbody w p p' Hl Hfold.
  - injection Hfold as <-. simpl. unfold ret. f_equal. symmetry.
    apply with_images_id, list_insert_id, Hl.
  - rewrite foldM_opt_cons in Hfold.
    destruct (G a p) as [p1|] eqn:HG; [|discriminate]. simpl in Hfold.
    simpl. unfold bind. rewrite (Hbody a w p p1 ltac:(left) Hl HG).
    rewrite (IH (fun b w q q' Hb => Hbody b w q q' ltac:(right; exact Hb))
                _ p1 p').
    + simpl. rewrite list_insert_insert_eq. reflexivity.
    + simpl. apply list_lookup_insert_eq. apply lookup_lt_Some in Hl. exact Hl.
    + exact Hfold.
Qed.

Lemma for_range_update (n : Z) (l : loc) (G : Z -> RGBA -> option RGBA)
    (w : World) (p p' : RGBA) :
  images w !! l = Some p -> foldM_opt G (upto n) p = Some p' ->
  for_range n (fun i => update_image l (G i)) w
  = (Ok tt, with_images (<[l := p']> (images w)) w).
Proof.
  intros Hl Hf. unfold for_range. fold (upto n).
  apply (forM_as_update _ G l (upto n)) with (p := p); [|assumption..].
  intros a w' q q' _. apply update_image_ok.
Qed.

Section CreateImage.

Context `{L : Lib}.

(** What [createImage] does: it panics when the image cannot be
    allocated, and otherwise returns a fresh well-formed image of the
    computed width and the given height, filled with the background as far
    as the bounds of the uniform source reach (transparent black beyond),
    and with the guideline pixels set. *)
Lemma createImage_spec (textLen slotW imgH : Z) (bg : Image)
    (rulerColor : Color) (showGuidelines : bool) :
  is_int slotW -> is_int imgH ->
  let r := Rect 0 0 (canvas_width textLen slotW) imgH in
  match NewRGBA r with
  | None =>
    exists msg, forall w,
      createImage textLen slotW imgH bg rulerColor showGuidelines w
      = (Panic msg, w)
  | Some _ =>
    exists p,
      (forall w,
         createImage textLen slotW imgH bg rulerColor showGuidelines w
         = (Ok (length (images w)), with_images (images w ++ [p]) w)) /\
      wf p /\ Bounds p = r /\
      forall x y, In_rect x y r = true ->
        RGBAAt p x y
        = if showGuidelines
             && bool_decide ((x, y) ∈ guide_coords textLen slotW imgH)
          then RGBAModel rulerColor
          else if In_rect x y (src_clip bg (Min r))
          then RGBAModel (Image_color bg)
          else {| R := 0; G := 0; B := 0; A := 0 |}
  end.
Proof.
  intros Hs Hh r. unfold createImage. fold (canvas_width textLen slotW). fold r.
  destruct (NewRGBA r) as [p0|] eqn:Hnew.
  2:{ eexists. intros w. reflexivity. }
  assert (Hr : wf_rect r).
  { unfold r, Rect, wf_rect. pose proof (wrapInt_range (textLen * slotW)).
    assert (is_int (canvas_width textLen slotW))
      by (unfold canvas_width, int_mul; destruct (_ =? _); assumption).
    unfold is_int, minInt, maxInt in *.
    destruct (Z.ltb_spec (canvas_width textLen slotW) 0),
             (Z.ltb_spec imgH 0); simpl; lia. }
  destruct (NewRGBA_wf r p0 Hr Hnew) as (Hwf0 & HB0 & Hz0).
  destruct (draw_Draw_Src_spec p0 (Bounds p0) bg Hwf0)
    as (p1 & Hfill & Hwf1 & HB1 & Hat1).
  destruct (guidelines_spec textLen slotW imgH rulerColor p1 Hwf1)
    as (p2 & Hg & Hwf2 & HB2 & Hat2).
  exists (if showGuidelines then p2 else p1).
  split.
  - intros w.
    set (w0 := with_images (images w ++ [p0]) w).
    assert (Hl0 : images w0 !! length (images w) = Some p0).
    { unfold w0. simpl. rewrite lookup_app_r, Nat.sub_diag by lia. reflexivity. }
    rewrite (bind_ok _ _ w w0 (length (images w))) by reflexivity.
    rewrite (bind_ok _ _ w0 w0 p0) by (apply get_image_ok, Hl0).
    rewrite (bind_ok _ _ _ _ tt (update_image_ok _ _ w0 p0 p1 Hl0 Hfill)).
    set (w1 := with_images _ w0).
    assert (Hl1 : images w1 !! length (images w) = Some p1).
    { unfold w1. simpl. apply list_lookup_insert_eq.
      rewrite length_app. simpl. lia. }
    assert (Hw1 : with_images (images w ++ [p1]) w = w1).
    { unfold w1, w0. simpl. unfold with_images. simpl. f_equal.
      replace (length (images w)) with (length (images w) + 0)%nat by lia.
      rewrite insert_app_r. reflexivity. }
    destruct showGuidelines; simpl when.
    + erewrite (bind_ok _ _ w1 _ tt).
      2:{ apply (forM_as_update _
                  (fun i q => foldM_opt
                     (fun y q' => RGBA_Set (int_mul i slotW) y rulerColor q')
                     (upto imgH) q) (length (images w)) (upto textLen))
            with (p := p1); [|exact Hl1|exact Hg].
          intros i w' q q' _ Hl Hq.
          apply for_range_update with (p := q); assumption. }
      unfold ret. f_equal. rewrite <- Hw1. unfold with_images. simpl. f_equal.
      replace (length (images w)) with (length (images w) + 0)%nat at 1 by lia.
      rewrite insert_app_r. reflexivity.
    + rewrite (bind_ok _ _ w1 w1 tt) by reflexivity.
      unfold ret. rewrite Hw1. reflexivity.
  - split; [destruct showGuidelines; assumption|].
    split; [destruct showGuidelines; congruence|].
    intros x y Hin. destruct showGuidelines; simpl.
    + rewrite Hat2, Hat1, HB1, HB0, Hin, !andb_true_r, Hz0.
      destruct (bool_decide _); reflexivity.
    + rewrite Hat1, HB0, Hin, Hz0. reflexivity.
Qed.

End CreateImage.

(** ** One rune, one string *)

Lemma all_range_spec (P : Z -> bool) (k : nat) (lo : Z) :
  all_range P k lo = true ->
  forall r, lo <= r < lo + 2 ^ Z.of_nat k -> P r = true.
Proof.
  revert lo. induction k as [|k IH]; intros lo H r Hr.
  - simpl in *. replace r with lo by lia. exact H.
  - simpl all_range in H. apply andb_true_iff in H as [H1 H2].
    rewrite Nat2Z.inj_succ, Z.pow_succ_r in Hr by lia.
    destruct (Z_lt_le_dec r (lo + 2 ^ Z.of_nat k)).
    + apply (IH lo H1). lia.
    + apply (IH _ H2). lia.
Qed.

Lemma rune_roundtrip_low : all_range rune_roundtrip 20 0 = true.
Proof. vm_compute. reflexivity. Qed.

Lemma rune_roundtrip_high : all_range rune_roundtrip 16 0x100000 = true.
Proof. vm_compute. reflexivity. Qed.

Lemma rune_roundtrip_ok (r : Z) : rune_roundtrip r = true.
Proof.
  destruct (Z_lt_le_dec r 0) as [Hneg | Hpos].
  - unfold rune_roundtrip, norm_rune, utf8.encoderune, utf8.ValidRune.
    destruct (Z.leb_spec 0 r); [lia|]. destruct (Z.ltb_spec r 0); [|lia].
    destruct (Z.ltb_spec utf8.surrogateMax r); [unfold utf8.surrogateMax in *; lia|].
    reflexivity.
  - destruct (Z_lt_le_dec r 0x100000).
    { apply (all_range_spec _ 20 0 rune_roundtrip_low). simpl. lia. }
    destruct (Z_lt_le_dec r 0x110000).
    { apply (all_range_spec _ 16 0x100000 rune_roundtrip_high). simpl. lia. }
    unfold rune_roundtrip, norm_rune, utf8.encoderune, utf8.ValidRune,
      utf8.rune1Max, utf8.rune2Max, utf8.MaxRune, utf8.surrogateMin.
    destruct (Z.leb_spec r 127); [lia|]. destruct (Z.leb_spec r 2047); [lia|].
    destruct (Z.ltb_spec 1114111 r); [|lia].
    destruct (Z.ltb_spec r 55296); [lia|].
    destruct (Z.leb_spec r 1114111); [lia|].
    rewrite !andb_false_r, orb_true_r. reflexivity.
Qed.


Lemma bytes_of_string_of_bytes (l : list Z) :
  forallb (fun b => (0 <=? b) && (b <? 256)) l = true ->
  bytes_of_string (string_of_bytes l) = l.
Proof.
  induction l as [|b l IH]; simpl; intros H; [reflexivity|].
  apply andb_true_iff in H as [Hb Hl]. rewrite IH by exact Hl. f_equal.
  apply andb_true_iff in Hb as [H0 H1].
  apply Z.leb_le in H0. apply Z.ltb_lt in H1.
  unfold byte_of_ascii, ascii_of_byte.
  rewrite N_ascii_embedding by lia. lia.
Qed.

(** The string made of one rune holds exactly one code point: the rune
    itself, or [RuneError] for a surrogate or an out-of-range value. *)
Lemma range_string_of_rune (r : Z) :
  range_string (string_of_rune r) = [(0, norm_rune r)].
Proof.
  pose proof (rune_roundtrip_ok r) as H. unfold rune_roundtrip in H.
  apply andb_true_iff in H as [Hb H].
  unfold range_string, string_of_rune.
  rewrite bytes_of_string_of_bytes by exact Hb.
  destruct (utf8.range_bytes 0 (utf8.encoderune r)) as [|[i r'] l'];
    [discriminate|].
  destruct i; try discriminate. destruct l'; [|discriminate].
  apply Z.eqb_eq in H. subst. reflexivity.
Qed.

(** ** Rendering *)

Section Render.

Context `{L : Lib}.


Lemma unchanged_outside_refl (clip : Rectangle) (p : RGBA) :
  wf p -> unchanged_outside clip p p.
Proof. intros H. split; [exact H|]. split; reflexivity. Qed.

Lemma unchanged_outside_trans (clip : Rectangle) (p q r : RGBA) :
  unchanged_outside clip p q -> unchanged_outside clip q r ->
  unchanged_outside clip p r.
Proof.
  intros (? & Hb & H1) (? & Hb' & H2). split; [assumption|].
  split; [congruence|]. intros u v Hout. rewrite H2, H1 by exact Hout.
  reflexivity.
Qed.

Lemma render_world_id (w : World) (l : loc) (p : RGBA) :
  images w !! l = Some p -> render_world w l p [] [] = w.
Proof.
  intros H. unfold render_world. rewrite !app_nil_r, list_insert_id by exact H.
  destruct w; reflexivity.
Qed.

Lemma render_world_image (w : World) (l : loc) (q : RGBA) (cs : list DrawCall) :
  render_world w l q [] cs
  = with_draws (draws w ++ cs) (with_images (<[l := q]> (images w)) w).
Proof. unfold render_world. rewrite app_nil_r. destruct w; reflexivity. Qed.

Lemma render_world_calls (w : World) (l : loc) (p : RGBA) (cs : list DrawCall) :
  images w !! l = Some p ->
  render_world w l p [] cs = with_draws (draws w ++ cs) w.
Proof.
  intros H. rewrite render_world_image, list_insert_id by exact H.
  destruct w; reflexivity.
Qed.

Lemma render_world_twice (w : World) (l : loc) (p q : RGBA)
    (ls1 ls2 : list Line) (cs1 cs2 : list DrawCall) :
  render_world (render_world w l p ls1 cs1) l q ls2 cs2
  = render_world w l q (ls1 ++ ls2) (cs1 ++ cs2).
Proof.
  unfold render_world, with_output, with_draws, with_images. simpl.
  rewrite list_insert_insert_eq, !app_assoc. reflexivity.
Qed.

Lemma render_world_lookup (w : World) (l : loc) (p q : RGBA)
    (ls : list Line) (cs : list DrawCall) :
  images w !! l = Some p -> images (render_world w l q ls cs) !! l = Some q.
Proof.
  intros H. simpl. apply list_lookup_insert_eq. apply lookup_lt_Some in H. exact H.
Qed.

(** The loop of [DrawString] on a valid context never panics: the image
    stays well-formed with the same bounds, no pixel outside the clip
    rectangle changes, and the result does not depend on the rest of the
    world. *)
Lemma drawRunes_spec (c : Context) (f : Font) (src : Image)
    (rs : list (Z * Z)) :
  c_src c = Some src ->
  forall (pt : Point26_6) (prev : option Z) (p : RGBA), wf p ->
    exists res p', unchanged_outside (c_clip c) p p' /\
      forall l w, images w !! l = Some p ->
        drawRunes (SetDst l c) f rs pt prev w
        = (Ok res, render_world w l p' [] []).
Proof.
  intros Hsrc. induction rs as [|[i rune] rs IH]; intros pt prev p Hwf.
  - exists (pt, None), p. split; [apply unchanged_outside_refl, Hwf|].
    intros l w Hl. simpl. rewrite render_world_id by exact Hl. reflexivity.
  - simpl drawRunes.
    set (pt1 := match prev with Some _ => _ | None => pt end).
    destruct (Context_glyph f (c_fontSize c) (c_dpi c) (c_hinting c) rune pt1)
      as [[mask offset]|err] eqn:Hg.
    + set (pt2 := {| X26 := _; Y26 := Y26 pt1 |}).
      set (glyphRect := Rectangle_Add (a_bounds mask) offset).
      set (dr := Intersect (c_clip c) glyphRect).
      destruct (Empty dr) eqn:HE.
      * destruct (IH pt2 (Some rune) p Hwf) as (res & p' & Hun & Hrun).
        exists res, p'. split; [exact Hun|]. intros l w Hl.
        rewrite (bind_ok _ _ w w tt) by reflexivity. apply Hrun, Hl.
      * destruct (draw_DrawMask_Over_spec p dr src mask
                    (Pt 0 (int_sub (Y (Min dr)) (Y (Min glyphRect)))) Hwf)
          as (p1 & Hd & Hwf1 & HB1 & Hfr1).
        destruct (IH pt2 (Some rune) p1 Hwf1) as (res & p' & Hun & Hrun).
        exists res, p'. split.
        { apply unchanged_outside_trans with (q := p1); [|exact Hun].
          split; [assumption|]. split; [assumption|].
          intros u v Hout. apply Hfr1. unfold dr.
          rewrite In_rect_Intersect, Hout. reflexivity. }
        intros l w Hl. rewrite Hsrc. simpl.
        rewrite (bind_ok _ _ w _ tt (update_image_ok _ _ w p p1 Hl Hd)).
        assert (Hl1 : images (with_images (<[l:=p1]> (images w)) w) !! l = Some p1).
        { simpl. apply list_lookup_insert_eq. apply lookup_lt_Some in Hl. exact Hl. }
        rewrite (Hrun l _ Hl1). f_equal.
        unfold render_world, with_output, with_draws, with_images. simpl.
        rewrite list_insert_insert_eq. reflexivity.
    + exists ({| X26 := 0; Y26 := 0 |}, Some err), p.
      split; [apply unchanged_outside_refl, Hwf|].
      intros l w Hl.
      rewrite render_world_id by exact Hl. reflexivity.
Qed.

(** [DrawString] on the string of one rune: the call is recorded, the
    glyph is composited inside the clip rectangle, and when the rasteriser
    fails the image is left as it was. *)
Lemma DrawString_rune_spec (c : Context) (src : Image) (r : Z)
    (pt : Point26_6) (p : RGBA) :
  c_src c = Some src -> wf p ->
  exists q p', unchanged_outside (c_clip c) p p' /\
    (is_Some (draw_error c r pt) -> p' = p) /\
    forall l w, images w !! l = Some p ->
      DrawString (SetDst l c) (string_of_rune r) pt w
      = (Ok (q, draw_error c r pt),
         render_world w l p' []
           [{| dc_text := string_of_rune r; dc_at := pt |}]).
Proof.
  intros Hsrc Hwf. unfold draw_error.
  destruct (c_f c) as [f|] eqn:Hf.
  - destruct (Context_glyph f (c_fontSize c) (c_dpi c) (c_hinting c)
                            (norm_rune r) pt) as [[mask offset]|err] eqn:Hg.
    + set (glyphRect := Rectangle_Add (a_bounds mask) offset).
      set (dr := Intersect (c_clip c) glyphRect).
      destruct (Empty dr) eqn:HE.
      * eexists _, p. split; [apply unchanged_outside_refl, Hwf|].
        split; [intros [? [=]]|]. intros l w Hl.
        unfold DrawString. rewrite (bind_ok _ _ w _ tt) by reflexivity.
        change (c_f (SetDst l c)) with (c_f c). rewrite Hf, range_string_of_rune. simpl.
        rewrite Hg. fold glyphRect dr. rewrite HE. simpl.
        rewrite (bind_ok _ _ _ _ tt) by reflexivity. unfold ret.
        rewrite render_world_calls by exact Hl. reflexivity.
      * destruct (draw_DrawMask_Over_spec p dr src mask
                    (Pt 0 (int_sub (Y (Min dr)) (Y (Min glyphRect)))) Hwf)
          as (p1 & Hd & Hwf1 & HB1 & Hfr1).
        eexists _, p1. split.
        { split; [assumption|]. split; [assumption|].
          intros u v Hout. apply Hfr1. unfold dr.
          rewrite In_rect_Intersect, Hout. reflexivity. }
        split; [intros [? [=]]|]. intros l w Hl.
        unfold DrawString. rewrite (bind_ok _ _ w _ tt) by reflexivity.
        change (c_f (SetDst l c)) with (c_f c). rewrite Hf, range_string_of_rune. simpl.
        rewrite Hg. fold glyphRect dr. rewrite HE, Hsrc. simpl.
        erewrite (bind_ok _ _ _ _ tt).
        2:{ apply update_image_ok with (p := p); [exact Hl | exact Hd]. }
        rewrite render_world_image. reflexivity.
    + eexists _, p. split; [apply unchanged_outside_refl, Hwf|].
      split; [reflexivity|]. intros l w Hl.
      unfold DrawString. rewrite (bind_ok _ _ w _ tt) by reflexivity.
      change (c_f (SetDst l c)) with (c_f c). rewrite Hf, range_string_of_rune. simpl. rewrite Hg.
      rewrite render_world_calls by exact Hl. reflexivity.
  - eexists _, p. split; [apply unchanged_outside_refl, Hwf|].
    split; [reflexivity|]. intros l w Hl.
    unfold DrawString. rewrite (bind_ok _ _ w _ tt) by reflexivity.
    change (c_f (SetDst l c)) with (c_f c). rewrite Hf.
    rewrite render_world_calls by exact Hl. reflexivity.
Qed.


Lemma render_world_lines (w : World) (l : loc) (p : RGBA) (ls : list Line) :
  images w !! l = Some p ->
  render_world w l p ls [] = with_output (output w ++ ls) w.
Proof.
  intros H. unfold render_world. rewrite app_nil_r, list_insert_id by exact H.
  destruct w; reflexivity.
Qed.

(** One iteration of the loop of [renderText] always returns. *)
Lemma renderRune_spec (c : Context) (src : Image) (f : Font) (slotW imgH : Z)
    (dpi size : float64) (verb : bool) (ir : Z * Z) (p : RGBA) :
  c_src c = Some src -> wf p ->
  exists p', unchanged_outside (c_clip c) p p' /\
    (rune_fails c f slotW imgH dpi size ir -> p' = p) /\
    forall l w, images w !! l = Some p ->
      renderRune (SetDst l c) f slotW imgH dpi size verb ir w
      = (Ok tt,
         render_world w l p' (rune_lines c f slotW imgH dpi size verb ir)
                      (rune_calls f slotW imgH dpi size ir)).
Proof.
  intros Hsrc Hwf. destruct ir as [i r].
  unfold rune_fails, rune_lines, rune_calls, renderRune. simpl fst; simpl snd.
  destruct (Face_GlyphAdvance f size dpi r) as [advance|] eqn:Hadv.
  - fold (draw_point i slotW imgH advance).
    destruct (DrawString_rune_spec c src r (draw_point i slotW imgH advance)
                p Hsrc Hwf) as (q & p' & Hun & Herr & Hrun).
    exists p'. split; [exact Hun|]. split; [exact Herr|].
    intros l w Hl.
    set (w1 := with_output (output w ++ width_lines verb r advance) w).
    assert (Hl1 : images w1 !! l = Some p) by exact Hl.
    rewrite (bind_ok _ _ w w1 tt).
    2:{ unfold w1, width_lines. destruct verb; simpl.
        - reflexivity.
        - unfold ret. rewrite app_nil_r. destruct w; reflexivity. }
    rewrite (bind_ok _ _ _ _ _ (Hrun l w1 Hl1)).
    destruct (draw_error c r (draw_point i slotW imgH advance)) as [e|].
    + unfold log_Printf, emit, draw_error_line, render_world, w1. simpl.
      rewrite !app_nil_r, <- !app_assoc. reflexivity.
    + unfold ret, render_world, w1. simpl.
      rewrite !app_nil_r. reflexivity.
  - exists p. split; [apply unchanged_outside_refl, Hwf|].
    split; [reflexivity|]. intros l w Hl.
    rewrite render_world_lines by exact Hl. reflexivity.
Qed.

(** [renderText] always returns: it leaves a well-formed image with the
    same bounds, changes no pixel outside the clip rectangle, prints the
    lines and makes the calls of its runes in order, and touches nothing
    else of the world. *)
Lemma forM_renderRune_spec (c : Context) (src : Image) (f : Font)
    (slotW imgH : Z) (dpi size : float64) (verb : bool) (rs : list (Z * Z)) :
  c_src c = Some src ->
  forall p, wf p ->
    exists p', unchanged_outside (c_clip c) p p' /\
      forall l w, images w !! l = Some p ->
        forM_ rs (renderRune (SetDst l c) f slotW imgH dpi size verb) w
        = (Ok tt,
           render_world w l p'
             (rs ≫= rune_lines c f slotW imgH dpi size verb)
             (rs ≫= rune_calls f slotW imgH dpi size)).
Proof.
  intros Hsrc. induction rs as [|ir rs IH]; intros p Hwf.
  - exists p. split; [apply unchanged_outside_refl, Hwf|]. intros l w Hl.
    simpl. rewrite render_world_id by exact Hl. reflexivity.
  - destruct (renderRune_spec c src f slotW imgH dpi size verb ir p Hsrc Hwf)
      as (p1 & Hun1 & _ & Hrun1).
    destruct (IH p1 (proj1 Hun1)) as (p' & Hun & Hrun).
    exists p'. split; [exact (unchanged_outside_trans _ _ _ _ Hun1 Hun)|].
    intros l w Hl. simpl forM_.
    rewrite (bind_ok _ _ _ _ _ (Hrun1 l w Hl)).
    rewrite (Hrun l _ (render_world_lookup w l p p1 _ _ Hl)).
    rewrite render_world_twice. reflexivity.
Qed.

End Render.

(** ** Saving *)

Section Save.
Context `{L : Lib}.

Lemma remove_first_head (s : string) (l : list string) :
  remove_first s (s :: l) = l.
Proof. simpl. rewrite String.eqb_refl. reflexivity. Qed.

Lemma prefix_take_drop {A} (a n : nat) (p : list A) :
  take a p ++ take n (drop a p) `prefix_of` p.
Proof.
  exists (drop n (drop a p)). rewrite <- app_assoc, !take_drop. reflexivity.
Qed.

(** Writing the content a file already has changes nothing. *)
Lemma with_files_same (path : string) (cur : list Z) (w : World) :
  files w !! path = Some cur ->
  with_files (<[path := cur]> (files w)) w = w.
Proof.
  intros H. rewrite insert_id by exact H. destruct w; reflexivity.
Qed.

(** Two writes in a row leave the content of the second. *)
Lemma with_files_twice (path : string) (a b : list Z) (w : World) :
  with_files (<[path := b]> (files (with_files (<[path := a]> (files w)) w)))
             (with_files (<[path := a]> (files w)) w)
  = with_files (<[path := b]> (files w)) w.
Proof.
  unfold with_files. cbn [files opened read_fault create_fault write_fault
    write_room images output draws].
  rewrite insert_insert_eq. reflexivity.
Qed.

(** [f.Write(p)] appends the bytes it reports; it reports all of them
    unless it fails, and fails only where the system refuses writes. *)
Lemma File_Write_spec (f : File) (p cur : list Z) (w : World) :
  files w !! f_name f = Some cur ->
  exists n e,
    File_Write f p w
    = (Ok (n, e), with_files (<[f_name f := cur ++ take n p]> (files w)) w)
    /\ (e = None -> n = length p)
    /\ (is_Some e -> is_Some (write_fault w (f_name f))).
Proof.
  intros Hcur. unfold File_Write. rewrite Hcur. cbn [from_option id].
  destruct (write_fault w (f_name f)) as [e|].
  - destruct (length p <=? write_room w (f_name f) - length cur)%nat.
    + exists (length p), None. rewrite firstn_all.
      split; [reflexivity|]. split; [reflexivity|].
      intros [? [=]].
    + eexists _, (Some e). split; [reflexivity|].
      split; [intros [=]|]. intros _. eexists; reflexivity.
  - exists (length p), None. rewrite firstn_all.
    split; [reflexivity|]. split; [reflexivity|]. intros [? [=]].
Qed.

(** [b.Flush()] passes the buffer to the file: all of it, or on a failure
    some first part of it. *)
Lemma bufio_Flush_spec (b : bufio_Writer) (cur : list Z) (w : World) :
  bw_err b = None ->
  files w !! f_name (bw_wr b) = Some cur ->
  exists b' e written,
    bufio_Flush b w
    = (Ok (b', e),
       with_files (<[f_name (bw_wr b) := cur ++ written]> (files w)) w)
    /\ bw_wr b' = bw_wr b
    /\ (e = None -> written = bw_buf b /\ bw_buf b' = [] /\ bw_err b' = None)
    /\ (is_Some e ->
        written `prefix_of` bw_buf b
        /\ is_Some (write_fault w (f_name (bw_wr b)))).
Proof.
  intros He Hcur. unfold bufio_Flush. rewrite He.
  destruct (bw_buf b) as [|x buf] eqn:Hb.
  - exists b, None, []. rewrite app_nil_r, with_files_same by exact Hcur.
    split; [reflexivity|]. split; [reflexivity|].
    split; [intros _; auto|]. intros [? [=]].
  - destruct (File_Write_spec (bw_wr b) (x :: buf) cur w Hcur)
      as (n & e & Hw & Hn & Hf).
    unfold bind. rewrite Hw. cbv beta iota.
    destruct e as [e|].
    + eexists _, (Some e), _. split; [reflexivity|].
      split; [reflexivity|]. split; [intros [=]|].
      intros _. split; [apply prefix_take|]. apply Hf. eexists; reflexivity.
    + rewrite (Hn eq_refl). rewrite Nat.ltb_irrefl, firstn_all.
      eexists _, None, _. split; [reflexivity|].
      split; [reflexivity|]. split; [intros _; auto|]. intros [? [=]].
Qed.

(** [b.Write(p)] keeps the bytes in order: what reached the file followed
    by what the buffer holds is what the buffer held followed by [p]; on
    a failure a first part of that reached the file. *)
Lemma bufio_Write_spec (b : bufio_Writer) (p cur : list Z) (w : World) :
  bw_err b = None ->
  files w !! f_name (bw_wr b) = Some cur ->
  exists b' e written,
    bufio_Write b p w
    = (Ok (b', e),
       with_files (<[f_name (bw_wr b) := cur ++ written]> (files w)) w)
    /\ bw_wr b' = bw_wr b
    /\ (e = None -> written ++ bw_buf b' = bw_buf b ++ p /\ bw_err b' = None)
    /\ (is_Some e ->
        written `prefix_of` bw_buf b ++ p
        /\ is_Some (write_fault w (f_name (bw_wr b)))).
Proof.
  intros He Hcur. unfold bufio_Write. rewrite He.
  destruct (Z.of_nat (length p) <=? defaultBufSize - Z.of_nat (length (bw_buf b))).
  { exists {| bw_wr := bw_wr b; bw_buf := bw_buf b ++ p; bw_err := None |},
      None, [].
    rewrite app_nil_r, with_files_same by exact Hcur.
    split; [reflexivity|]. split; [reflexivity|].
    split; [intros _; auto|]. intros [? [=]]. }
  destruct (bw_buf b) as [|x buf] eqn:Hb.
  - destruct (File_Write_spec (bw_wr b) p cur w Hcur)
      as (n & e & Hw & Hn & Hf).
    unfold bind. rewrite Hw. cbv beta iota.
    eexists _, e, _. split; [reflexivity|]. split; [reflexivity|].
    split.
    + intros ->. rewrite (Hn eq_refl), firstn_all, app_nil_r. auto.
    + intros Hs. split; [apply prefix_take | apply Hf, Hs].
  - set (avail := Z.to_nat (defaultBufSize - Z.of_nat (length (x :: buf)))).
    set (b0 := {| bw_wr := bw_wr b; bw_buf := (x :: buf) ++ take avail p;
                  bw_err := None |}).
    destruct (bufio_Flush_spec b0 cur w eq_refl Hcur)
      as (b1 & e & wr & Hfl & Hwr1 & Hok & Hbad).
    unfold bind. rewrite Hfl. cbv beta iota.
    destruct e as [e|].
    + exists b1, (Some e), wr. split; [reflexivity|].
      split; [exact Hwr1|]. split; [intros [=]|].
      intros Hs. destruct (Hbad Hs) as [Hp Hf]. split; [|exact Hf].
      etrans; [exact Hp|]. cbn [bw_buf b0].
      apply prefix_app, prefix_take.
    + destruct (Hok eq_refl) as (-> & _ & _). cbn [bw_buf b0 bw_wr] in *.
      destruct (Z.of_nat (length (drop avail p)) <=? defaultBufSize).
      * eexists _, None, _. split; [reflexivity|]. split; [reflexivity|].
        split; [|intros [? [=]]]. intros _. split; [|reflexivity].
        cbn [bw_buf]. rewrite <- app_assoc, take_drop. reflexivity.
      * set (w1 := with_files _ w).
        assert (Hcur1 : files w1 !! f_name (bw_wr b)
                        = Some (cur ++ (x :: buf) ++ take avail p)).
        { unfold w1. apply lookup_insert_eq. }
        destruct (File_Write_spec (bw_wr b) (drop avail p) _ w1 Hcur1)
          as (n & e & Hw & Hn & Hf).
        rewrite Hw. cbv beta iota. unfold w1. rewrite with_files_twice.
        eexists _, e, _. rewrite <- app_assoc.
        split; [reflexivity|]. split; [reflexivity|].
        split.
        -- intros ->. rewrite (Hn eq_refl), firstn_all. cbn [bw_buf].
           rewrite app_nil_r, <- !app_assoc, take_drop. auto.
        -- intros Hs. split; [|apply Hf, Hs].
           rewrite <- app_assoc.
           apply (prefix_app (x :: buf)), prefix_take_drop.
Qed.

(** [png.Encode]'s writes, one after the other through the buffer. *)
Lemma write_all_spec (ps : list (list Z)) :
  forall (b : bufio_Writer) (cur : list Z) (w : World),
  bw_err b = None ->
  files w !! f_name (bw_wr b) = Some cur ->
  exists b' e written,
    write_all b ps w
    = (Ok (b', e),
       with_files (<[f_name (bw_wr b) := cur ++ written]> (files w)) w)
    /\ bw_wr b' = bw_wr b
    /\ (e = None ->
        written ++ bw_buf b' = bw_buf b ++ concat ps /\ bw_err b' = None)
    /\ (is_Some e ->
        written `prefix_of` bw_buf b ++ concat ps
        /\ is_Some (write_fault w (f_name (bw_wr b)))).
Proof.
  induction ps as [|p ps IH]; intros b cur w He Hcur.
  - exists b, None, []. cbn [write_all concat].
    rewrite !app_nil_r, with_files_same by exact Hcur.
    split; [reflexivity|]. split; [reflexivity|].
    split; [intros _; auto|]. intros [? [=]].
  - destruct (bufio_Write_spec b p cur w He Hcur)
      as (b1 & e1 & wr1 & Hw & Hwr & Hok & Hbad).
    cbn [write_all concat]. unfold bind. rewrite Hw. cbv beta iota.
    destruct e1 as [e1|].
    + exists b1, (Some e1), wr1. split; [reflexivity|].
      split; [exact Hwr|]. split; [intros [=]|].
      intros Hs. destruct (Hbad Hs) as [Hp Hf]. split; [|exact Hf].
      rewrite app_assoc. apply prefix_app_r, Hp.
    + destruct (Hok eq_refl) as [Hbytes He1].
      set (w1 := with_files _ w).
      assert (Hcur1 : files w1 !! f_name (bw_wr b1) = Some (cur ++ wr1)).
      { rewrite Hwr. apply lookup_insert_eq. }
      destruct (IH b1 (cur ++ wr1) w1 He1 Hcur1)
        as (b2 & e2 & wr2 & Hw2 & Hwr2 & Hok2 & Hbad2).
      rewrite Hw2, Hwr. unfold w1. rewrite with_files_twice.
      exists b2, e2, (wr1 ++ wr2). rewrite app_assoc.
      split; [reflexivity|]. split; [congruence|].
      split.
      * intros Hn. destruct (Hok2 Hn) as [Hb2 He2]. split; [|exact He2].
        rewrite <- app_assoc, Hb2, !app_assoc, Hbytes. reflexivity.
      * intros Hs. destruct (Hbad2 Hs) as [Hp Hf].
        split; [|rewrite Hwr in Hf; exact Hf].
        rewrite app_assoc, <- Hbytes, <- app_assoc.
        apply prefix_app, Hp.
Qed.

(** The three ways [saveImage] ends: the file holds the PNG of the image
    and is closed; the file could not be created and nothing changed; or
    encoding or flushing failed and the created file is left open, with
    the part of the PNG that reached it (nothing when the image was
    refused for its size). *)
Lemma saveImage_cases (path : string) (l : loc) (w : World) (p : RGBA) :
  images w !! l = Some p ->
  (create_fault w path = None /\ png_size_ok p = true /\
   saveImage path l w
   = (Ok tt, with_files (<[path := png_bytes p]> (files w)) w))
  \/ (exists e, create_fault w path = Some e /\
        saveImage path l w
        = (Exit 1,
           with_output
             (output w ++ [fatal_line "Error creating output file: %v" e]) w))
  \/ (exists fmt e pre,
        (fmt = "Error encoding PNG: %v"%string
         \/ fmt = "Error flushing buffer: %v"%string) /\
        create_fault w path = None /\
        ((png_size_ok p = false /\ pre = [])
         \/ is_Some (write_fault w path)) /\
        pre `prefix_of` png_bytes p /\
        saveImage path l w
        = (Exit 1,
           with_output (output w ++ [fatal_line fmt e])
             (with_opened (path :: opened w)
                (with_files (<[path := pre]> (files w)) w)))).
Proof.
  intros Hl.
  destruct (create_fault w path) as [e|] eqn:Hc.
  { right. left. exists e. split; [reflexivity|].
    unfold saveImage, bind, os_Create. cbv beta. rewrite Hc. reflexivity. }
  set (w1 := with_opened (path :: opened w)
               (with_files (<[path := []]> (files w)) w)).
  assert (Hl1 : images w1 !! l = Some p) by exact Hl.
  assert (Hstart : forall k : File + error -> M unit,
            bind (os_Create path) k w = k (inl {| f_name := path |}) w1).
  { intros k. unfold bind, os_Create. cbv beta. rewrite Hc. reflexivity. }
  unfold saveImage. rewrite Hstart. clear Hstart. cbv beta iota.
  unfold png_size_ok, png_rect_ok.
  destruct ((Dx (Bounds p) <=? 0) || (Dy (Bounds p) <=? 0)
            || (2 ^ 32 <=? Dx (Bounds p)) || (2 ^ 32 <=? Dy (Bounds p)))
    eqn:Hsz.
  { right. right. eexists _, _, []. split; [left; reflexivity|].
    split; [reflexivity|]. split; [left; split; reflexivity|].
    split; [apply prefix_nil|].
    unfold defer, bind, png_Encode, bind, get_image. cbv beta.
    rewrite Hl1. cbv beta iota. rewrite Hsz. reflexivity. }
  set (b0 := bufio_NewWriter {| f_name := path |}).
  assert (Henc : png_Encode b0 l w1 = write_all b0 (png_writes p) w1).
  { unfold png_Encode, bind, get_image. cbv beta.
    rewrite Hl1. cbv beta iota. rewrite Hsz. reflexivity. }
  assert (Hcur1 : files w1 !! f_name (bw_wr b0) = Some []).
  { apply lookup_insert_eq. }
  destruct (write_all_spec (png_writes p) b0 [] w1 eq_refl Hcur1)
    as (b1 & e1 & wr1 & Hw & Hwr & Hok & Hbad).
  change (f_name (bw_wr b0)) with path in Hw, Hbad.
  change (bw_wr b0) with {| f_name := path |} in Hwr.
  change (bw_buf b0 ++ concat (png_writes p)) with (png_bytes p) in Hbad, Hok.
  change ([] ++ wr1) with wr1 in Hw.
  assert (Hfin : forall (pre : list Z) (o : list string) (x : list Line),
            with_output x
              (with_opened o
                 (with_files (<[path := pre]> (files w1)) w1))
            = with_output x
                (with_opened o
                   (with_files (<[path := pre]> (files w)) w))).
  { intros pre o x. unfold w1, with_output, with_opened, with_files.
    cbn [files opened read_fault create_fault write_fault write_room
         images output draws].
    rewrite insert_insert_eq. reflexivity. }
  destruct e1 as [e1|].
  { right. right. exists "Error encoding PNG: %v"%string, e1, wr1.
    split; [left; reflexivity|]. split; [reflexivity|].
    destruct (Hbad ltac:(eexists; reflexivity)) as [Hp Hf].
    split; [right; exact Hf|]. split; [exact Hp|].
    unfold defer, bind at 1. cbv beta. rewrite Henc, Hw. cbv beta iota.
    unfold log_Fatalf, log_Printf, os_Exit, bind. cbv beta iota.
    rewrite <- Hfin. reflexivity. }
  destruct (Hok eq_refl) as [Hbytes He1].
  set (w2 := with_files (<[path := wr1]> (files w1)) w1) in *.
  assert (Hcur2 : files w2 !! f_name (bw_wr b1) = Some wr1).
  { rewrite Hwr. apply lookup_insert_eq. }
  destruct (bufio_Flush_spec b1 wr1 w2 He1 Hcur2)
    as (b2 & e2 & wr2 & Hfl & _ & Hok2 & Hbad2).
  rewrite Hwr in Hfl. cbn [f_name] in Hfl.
  unfold w2 in Hfl at 2 3. rewrite with_files_twice in Hfl.
  destruct e2 as [e2|].
  { right. right. exists "Error flushing buffer: %v"%string, e2, (wr1 ++ wr2).
    split; [right; reflexivity|]. split; [reflexivity|].
    destruct (Hbad2 ltac:(eexists; reflexivity)) as [Hp Hf].
    split; [right; rewrite Hwr in Hf; exact Hf|].
    split; [rewrite <- Hbytes; apply prefix_app, Hp|].
    unfold defer, bind at 1. cbv beta. rewrite Henc, Hw. cbv beta iota.
    unfold bind at 1. rewrite Hfl. cbv beta iota.
    unfold log_Fatalf, log_Printf, os_Exit, bind. cbv beta iota.
    rewrite <- Hfin. reflexivity. }
  destruct (Hok2 eq_refl) as (-> & _ & _).
  left. split; [reflexivity|]. split; [reflexivity|].
  unfold defer, bind at 1. cbv beta. rewrite Henc, Hw. cbv beta iota.
  unfold bind at 1. rewrite Hfl. cbv beta iota.
  rewrite Hbytes.
  unfold ret, File_Close, w1, with_files, with_opened.
  cbn [fst snd files opened read_fault create_fault write_fault write_room
       images output draws f_name].
  rewrite remove_first_head, insert_insert_eq. reflexivity.
Qed.

(** Where the system refuses no write and the image has a size PNG
    accepts, [saveImage] succeeds. *)
Lemma saveImage_writes (path : string) (l : loc) (w : World) (p : RGBA) :
  images w !! l = Some p ->
  create_fault w path = None -> write_fault w path = None ->
  png_size_ok p = true ->
  saveImage path l w
  = (Ok tt, with_files (<[path := png_bytes p]> (files w)) w).
Proof.
  intros Hl Hc Hwf Hsz.
  destruct (saveImage_cases path l w p Hl)
    as [(_ & _ & H) | [(e & He & _) | (fmt & e & pre & _ & _ & H & _)]].
  - exact H.
  - congruence.
  - destruct H as [[H _] | [x H]]; congruence.
Qed.

End Save.

(** ** The whole program *)

Section Main.
Context `{L : Lib}.

Lemma with_output_nil (w : World) : with_output (output w ++ []) w = w.
Proof. rewrite app_nil_r. destruct w; reflexivity. Qed.

(** [loadFont] ends the process with status 1 and one message when the
    file cannot be read or parsed, and returns the font otherwise. *)
Lemma loadFont_run (path : string) (verb : bool) (w : World) :
  loadFont path verb w
  = match read_file w path with
    | inr e =>
      (Exit 1,
       with_output (output w ++ load_lines verb path
                      ++ [fatal_line "Error reading font file: %v" e]) w)
    | inl b =>
      match truetype_Parse b with
      | inr e =>
        (Exit 1,
         with_output (output w ++ load_lines verb path
                        ++ [fatal_line "Error parsing font: %v" e]) w)
      | inl f => (Ok f, with_output (output w ++ load_lines verb path) w)
      end
    end.
Proof.
  unfold loadFont, bind, os_ReadFile, when, load_lines.
  destruct verb; cbv beta iota; simpl.
  - match goal with
    | |- context [read_file ?w' path] =>
      change (read_file w' path) with (read_file w path)
    end.
    destruct (read_file w path) as [b|e].
    + destruct (truetype_Parse b); [reflexivity|].
      unfold log_Fatalf, bind, log_Printf, emit, with_output. simpl.
      rewrite <- app_assoc. reflexivity.
    + unfold log_Fatalf, bind, log_Printf, emit, with_output. simpl.
      rewrite <- app_assoc. reflexivity.
  - destruct (read_file w path) as [b|e]; [|reflexivity].
    destruct (truetype_Parse b); [|reflexivity].
    rewrite with_output_nil. reflexivity.
Qed.

Lemma getFreeTypeContext_run (f : Font) (dpi size : float64) (dst : loc)
    (src : Image) (hintingStr : string) (w : World) (m : RGBA) :
  images w !! dst = Some m ->
  getFreeTypeContext f dpi size dst src hintingStr w
  = (Ok (SetDst dst (base_context f dpi size (Bounds m) src hintingStr)), w).
Proof.
  intros Hm. unfold getFreeTypeContext.
  rewrite (bind_ok _ _ w w m (get_image_ok dst w m Hm)).
  unfold base_context. destruct (String.eqb hintingStr "full"); reflexivity.
Qed.

(** The part of [main] after the font is loaded and before the image is
    saved: the canvas is allocated, or the program panics; the rendered
    image does not depend on the world the program runs in. *)
Lemma main_run (fl : Flags) (f : Font) :
  is_int (slotWidth fl) -> is_int (imageHeight fl) ->
  let r := Rect 0 0 (canvas_width (len (text fl)) (slotWidth fl))
                (imageHeight fl) in
  let c := base_context f (dpi fl) (fontSize fl) r (getColors (wonb fl)).1.1
                        (hinting fl) in
  let rs := range_string (text fl) in
  match NewRGBA r with
  | None =>
    exists msg, forall w w1,
      loadFont (fontfile fl) (verbose fl) w = (Ok f, w1) ->
      main fl w = (Panic msg, w1)
  | Some _ =>
    exists p p', wf p /\ Bounds p = r /\ unchanged_outside r p p' /\
      forall w w1,
        loadFont (fontfile fl) (verbose fl) w = (Ok f, w1) ->
        main fl w
        = bind (saveImage (outFile fl) (length (images w1)))
               (fun _ => when (verbose fl)
                  (fmt_Printf "Successfully wrote %s\n" [ArgStr (outFile fl)]))
               (render_world (with_images (images w1 ++ [p]) w1)
                  (length (images w1)) p'
                  (rs ≫= rune_lines c f (slotWidth fl) (imageHeight fl)
                                     (dpi fl) (fontSize fl) (verbose fl))
                  (rs ≫= rune_calls f (slotWidth fl) (imageHeight fl)
                                     (dpi fl) (fontSize fl)))
  end.
Proof.
  intros Hs Hh. cbv zeta.
  set (r := Rect 0 0 (canvas_width (len (text fl)) (slotWidth fl))
                 (imageHeight fl)).
  set (c := base_context f (dpi fl) (fontSize fl) r (getColors (wonb fl)).1.1
                         (hinting fl)).
  set (rs := range_string (text fl)).
  pose proof (createImage_spec (len (text fl)) (slotWidth fl) (imageHeight fl)
                (getColors (wonb fl)).1.2 (getColors (wonb fl)).2
                (showGuidelines fl) Hs Hh) as Hcreate.
  cbv zeta in Hcreate. fold r in Hcreate.
  destruct (NewRGBA r) as [p0|].
  - destruct Hcreate as (p & Hrun & Hwf & HB & _).
    destruct (forM_renderRune_spec c (getColors (wonb fl)).1.1 f
                (slotWidth fl) (imageHeight fl) (dpi fl) (fontSize fl)
                (verbose fl) rs eq_refl p Hwf) as (p' & Hun & Hrender).
    exists p, p'. split; [exact Hwf|]. split; [exact HB|].
    split; [exact Hun|].
    intros w w1 Hload. unfold main.
    rewrite (bind_ok _ _ _ _ _ Hload).
    destruct (getColors (wonb fl)) as [[fg bg] ruler] eqn:Hcol.
    simpl in Hrun, Hrender.
    rewrite (bind_ok _ _ _ _ _ (Hrun w1)).
    set (w2 := with_images (images w1 ++ [p]) w1).
    assert (Hl : images w2 !! length (images w1) = Some p).
    { unfold w2. simpl. rewrite lookup_app_r, Nat.sub_diag by lia. reflexivity. }
    rewrite (bind_ok _ _ _ _ _
               (getFreeTypeContext_run f (dpi fl) (fontSize fl) _ fg
                  (hinting fl) w2 p Hl)).
    rewrite HB. fold c. unfold renderText. fold rs.
    subst c. simpl in *.
    rewrite (bind_ok _ _ _ _ _ (Hrender _ w2 Hl)). reflexivity.
  - destruct Hcreate as (msg & Hrun). exists msg. intros w w1 Hload.
    unfold main. rewrite (bind_ok _ _ _ _ _ Hload).
    destruct (getColors (wonb fl)) as [[fg bg] ruler].
    apply bind_panic, Hrun.
Qed.

End Main.

(** ** Projections of an updated world *)

Lemma files_with_files (x : gmap string (list Z)) (w : World) :
  files (with_files x w) = x.
Proof. reflexivity. Qed.

Lemma opened_with_files (x : gmap string (list Z)) (w : World) :
  opened (with_files x w) = opened w.
Proof. reflexivity. Qed.

Lemma read_fault_with_files (x : gmap string (list Z)) (w : World) :
  read_fault (with_files x w) = read_fault w.
Proof. reflexivity. Qed.

Lemma create_fault_with_files (x : gmap string (list Z)) (w : World) :
  create_fault (with_files x w) = create_fault w.
Proof. reflexivity. Qed.

Lemma write_fault_with_files (x : gmap string (list Z)) (w : World) :
  write_fault (with_files x w) = write_fault w.
Proof. reflexivity. Qed.

Lemma images_with_files (x : gmap string (list Z)) (w : World) :
  images (with_files x w) = images w.
Proof. reflexivity. Qed.

Lemma output_with_files (x : gmap string (list Z)) (w : World) :
  output (with_files x w) = output w.
Proof. reflexivity. Qed.

Lemma draws_with_files (x : gmap string (list Z)) (w : World) :
  draws (with_files x w) = draws w.
Proof. reflexivity. Qed.

Lemma files_with_opened (x : list string) (w : World) :
  files (with_opened x w) = files w.
Proof. reflexivity. Qed.

Lemma opened_with_opened (x : list string) (w : World) :
  opened (with_opened x w) = x.
Proof. reflexivity. Qed.

Lemma read_fault_with_opened (x : list string) (w : World) :
  read_fault (with_opened x w) = read_fault w.
Proof. reflexivity. Qed.

Lemma create_fault_with_opened (x : list string) (w : World) :
  create_fault (with_opened x w) = create_fault w.
Proof. reflexivity. Qed.

Lemma write_fault_with_opened (x : list string) (w : World) :
  write_fault (with_opened x w) = write_fault w.
Proof. reflexivity. Qed.

Lemma images_with_opened (x : list string) (w : World) :
  images (with_opened x w) = images w.
Proof. reflexivity. Qed.

Lemma output_with_opened (x : list string) (w : World) :
  output (with_opened x w) = output w.
Proof. reflexivity. Qed.

Lemma draws_with_opened (x : list string) (w : World) :
  draws (with_opened x w) = draws w.
Proof. reflexivity. Qed.

Lemma files_with_images (x : list RGBA) (w : World) :
  files (with_images x w) = files w.
Proof. reflexivity. Qed.

Lemma opened_with_images (x : list RGBA) (w : World) :
  opened (with_images x w) = opened w.
Proof. reflexivity. Qed.

Lemma read_fault_with_images (x : list RGBA) (w : World) :
  read_fault (with_images x w) = read_fault w.
Proof. reflexivity. Qed.

Lemma create_fault_with_images (x : list RGBA) (w : World) :
  create_fault (with_images x w) = create_fault w.
Proof. reflexivity. Qed.

Lemma write_fault_with_images (x : list RGBA) (w : World) :
  write_fault (with_images x w) = write_fault w.
Proof. reflexivity. Qed.

Lemma images_with_images (x : list RGBA) (w : World) :
  images (with_images x w) = x.
Proof. reflexivity. Qed.

Lemma output_with_images (x : list RGBA) (w : World) :
  output (with_images x w) = output w.
Proof. reflexivity. Qed.

Lemma draws_with_images (x : list RGBA) (w : World) :
  draws (with_images x w) = draws w.
Proof. reflexivity. Qed.

Lemma files_with_output (x : list Line) (w : World) :
  files (with_output x w) = files w.
Proof. reflexivity. Qed.

Lemma opened_with_output (x : list Line) (w : World) :
  opened (with_output x w) = opened w.
Proof. reflexivity. Qed.

Lemma read_fault_with_output (x : list Line) (w : World) :
  read_fault (with_output x w) = read_fault w.
Proof. reflexivity. Qed.

Lemma create_fault_with_output (x : list Line) (w : World) :
  create_fault (with_output x w) = create_fault w.
Proof. reflexivity. Qed.

Lemma write_fault_with_output (x : list Line) (w : World) :
  write_fault (with_output x w) = write_fault w.
Proof. reflexivity. Qed.

Lemma images_with_output (x : list Line) (w : World) :
  images (with_output x w) = images w.
Proof. reflexivity. Qed.

Lemma output_with_output (x : list Line) (w : World) :
  output (with_output x w) = x.
Proof. reflexivity. Qed.

Lemma draws_with_output (x : list Line) (w : World) :
  draws (with_output x w) = draws w.
Proof. reflexivity. Qed.

Lemma files_with_draws (x : list DrawCall) (w : World) :
  files (with_draws x w) = files w.
Proof. reflexivity. Qed.

Lemma opened_with_draws (x : list DrawCall) (w : World) :
  opened (with_draws x w) = opened w.
Proof. reflexivity. Qed.

Lemma read_fault_with_draws (x : list DrawCall) (w : World) :
  read_fault (with_draws x w) = read_fault w.
Proof. reflexivity. Qed.

Lemma create_fault_with_draws (x : list DrawCall) (w : World) :
  create_fault (with_draws x w) = create_fault w.
Proof. reflexivity. Qed.

Lemma write_fault_with_draws (x : list DrawCall) (w : World) :
  write_fault (with_draws x w) = write_fault w.
Proof. reflexivity. Qed.

Lemma images_with_draws (x : list DrawCall) (w : World) :
  images (with_draws x w) = images w.
Proof. reflexivity. Qed.

Lemma output_with_draws (x : list DrawCall) (w : World) :
  output (with_draws x w) = output w.
Proof. reflexivity. Qed.

Lemma draws_with_draws (x : list DrawCall) (w : World) :
  draws (with_draws x w) = x.
Proof. reflexivity. Qed.

Create Rewrite HintDb world.

#[global] Hint Rewrite
  files_with_files opened_with_files read_fault_with_files create_fault_with_files
  write_fault_with_files images_with_files output_with_files draws_with_files
  files_with_opened opened_with_opened read_fault_with_opened create_fault_with_opened
  write_fault_with_opened images_with_opened output_with_opened draws_with_opened
  files_with_images opened_with_images read_fault_with_images create_fault_with_images
  write_fault_with_images images_with_images output_with_images draws_with_images
  files_with_output opened_with_output read_fault_with_output create_fault_with_output
  write_fault_with_output images_with_output output_with_output draws_with_output
  files_with_draws opened_with_draws read_fault_with_draws create_fault_with_draws
  write_fault_with_draws images_with_draws output_with_draws draws_with_draws
  : world.

Section Claims.
Context `{L : Lib}.

(** C9. Every value of the hinting flag other than the exact string
    "full" configures hinting mode none: [getFreeTypeContext] behaves on
    it as on "none", and on a destination that exists it returns a
    context, never an error, an exit or a panic. *)
Theorem hinting_other_than_full_is_none (f : Font) (dpi size : float64)
    (dst : loc) (src : Image) (hintingStr : string) (w : World) :
  hintingStr <> "full"%string ->
  getFreeTypeContext f dpi size dst src hintingStr w
  = getFreeTypeContext f dpi size dst src "none" w
  /\ forall m, images w !! dst = Some m ->
       exists c,
         getFreeTypeContext f dpi size dst src hintingStr w = (Ok c, w)
         /\ c_hinting c = HintingNone.
Proof.
  intros Hne. apply String.eqb_neq in Hne. split.
  - unfold getFreeTypeContext. rewrite Hne. reflexivity.
  - intros m Hm. eexists. split.
    + apply getFreeTypeContext_run, Hm.
    + simpl. rewrite Hne. reflexivity.
Qed.

Lemma out_shape (o a b : list Line) (x : Line) :
  ((o ++ a) ++ b) ++ [x] = o ++ (a ++ b) ++ [x].
Proof. rewrite <- !app_assoc. reflexivity. Qed.

(** Every way [main] ends the process with [os.Exit]. *)
Lemma main_exit_cases (fl : Flags) (w w' : World) (code : Z) :
  is_int (slotWidth fl) -> is_int (imageHeight fl) ->
  main fl w = (Exit code, w') ->
  code = 1 /\
  exists pre fmt e,
    output w' = output w ++ pre ++ [fatal_line fmt e] /\
    ((fmt ∈ ["Error reading font file: %v"; "Error parsing font: %v";
             "Error creating output file: %v"]%string
      /\ files w' = files w /\ opened w' = opened w)
     \/ (fmt ∈ ["Error encoding PNG: %v"; "Error flushing buffer: %v"]%string
         /\ exists p' written,
              images w' !! length (images w) = Some p'
              /\ written `prefix_of` png_bytes p'
              /\ files w' = <[outFile fl := written]> (files w))).
Proof.
  intros Hs Hh Hmain.
  pose proof (loadFont_run (fontfile fl) (verbose fl) w) as Hload.
  destruct (read_file w (fontfile fl)) as [b|e].
  2:{ unfold main in Hmain. rewrite (bind_exit _ _ _ _ _ Hload) in Hmain.
      injection Hmain as <- <-. split; [reflexivity|].
      eexists (load_lines (verbose fl) (fontfile fl)), _, e.
      split; [reflexivity|]. left. split; [set_solver|]. split; reflexivity. }
  destruct (truetype_Parse b) as [f|e].
  2:{ unfold main in Hmain. rewrite (bind_exit _ _ _ _ _ Hload) in Hmain.
      injection Hmain as <- <-. split; [reflexivity|].
      eexists (load_lines (verbose fl) (fontfile fl)), _, e.
      split; [reflexivity|]. left. split; [set_solver|]. split; reflexivity. }
  pose proof (main_run fl f Hs Hh) as Hrun. cbv zeta in Hrun.
  destruct (NewRGBA _) as [p0|].
  2:{ destruct Hrun as (msg & Hrun). rewrite (Hrun _ _ Hload) in Hmain.
      discriminate. }
  destruct Hrun as (p & p' & Hwf & HB & Hun & Hrun).
  rewrite (Hrun _ _ Hload) in Hmain. clear Hrun.
  set (w1 := with_output _ w) in *.
  set (w3 := render_world _ _ _ _ _) in *.
  assert (Hl : images w3 !! length (images w1) = Some p').
  { unfold w3. apply render_world_lookup with (p := p). simpl.
    rewrite lookup_app_r, Nat.sub_diag by lia. reflexivity. }
  destruct (saveImage_cases (outFile fl) _ w3 p' Hl)
    as [(_ & _ & Hsave) | [(e & _ & Hsave)
        | (fmt & e & written & Hfmt & _ & _ & Hpre & Hsave)]].
  - rewrite (bind_ok _ _ _ _ _ Hsave) in Hmain.
    unfold when in Hmain. destruct (verbose fl); discriminate.
  - rewrite (bind_exit _ _ _ _ _ Hsave) in Hmain.
    injection Hmain as <- <-. split; [reflexivity|].
    eexists _, _, e. split.
    + unfold w3, w1, render_world. autorewrite with world. apply out_shape.
    + left. split; [set_solver|]. split; reflexivity.
  - rewrite (bind_exit _ _ _ _ _ Hsave) in Hmain.
    injection Hmain as <- <-. split; [reflexivity|].
    eexists _, fmt, e. split.
    + unfold w3, w1, render_world. autorewrite with world. apply out_shape.
    + right. split; [destruct Hfmt as [-> | ->]; set_solver|].
      exists p', written. split; [exact Hl|]. split; [exact Hpre|].
      reflexivity.
Qed.


(** The world after [os.Create] made the file at [path]. *)
Lemma saveImage_steps (path : string) (l : loc) (w : World) :
  let w1 := with_opened (path :: opened w)
              (with_files (<[path := []]> (files w)) w) in
  let out := {| f_name := path |} in
  (forall e, create_fault w path = Some e ->
     saveImage path l w
     = (Exit 1,
        with_output
          (output w ++ [fatal_line "Error creating output file: %v" e]) w))
  /\ (forall bw e w2,
        create_fault w path = None ->
        png_Encode (bufio_NewWriter out) l w1 = (Ok (bw, Some e), w2) ->
        saveImage path l w
        = (Exit 1,
           with_output (output w2 ++ [fatal_line "Error encoding PNG: %v" e])
                       w2))
  /\ (forall bw bw' e w2 w3,
        create_fault w path = None ->
        png_Encode (bufio_NewWriter out) l w1 = (Ok (bw, None), w2) ->
        bufio_Flush bw w2 = (Ok (bw', Some e), w3) ->
        saveImage path l w
        = (Exit 1,
           with_output
             (output w3 ++ [fatal_line "Error flushing buffer: %v" e]) w3)).
Proof.
  cbv zeta. split; [|split].
  - intros e Hc. unfold saveImage, bind, os_Create. cbv beta.
    rewrite Hc. reflexivity.
  - intros bw e w2 Hc Henc. unfold saveImage, bind, os_Create, defer.
    cbv beta. rewrite Hc. cbv beta iota. rewrite Henc. reflexivity.
  - intros bw bw' e w2 w3 Hc Henc Hfl.
    unfold saveImage, bind, os_Create, defer.
    cbv beta. rewrite Hc. cbv beta iota. rewrite Henc. cbv beta iota.
    rewrite Hfl. reflexivity.
Qed.

(** C3, as amended.  Every fatal error ends the process at once with
    exit status 1 after one diagnostic line on standard error: a font file
    that cannot be read or parsed in [loadFont], an output file that
    cannot be created, an encoder error or a flush error in [saveImage].
    Whenever [main] exits, the status is 1 and the diagnostic is the last
    line printed; after a font or creation error the file system is as it
    was, and after an encoding or flush error the output file that was
    created stays in place, holding the part of the PNG of the canvas
    that reached it: some first bytes of it, possibly none. *)
Theorem fatal_errors_exit_with_status_1 (fl : Flags) (w : World) :
  is_int (slotWidth fl) -> is_int (imageHeight fl) ->
  (forall e, read_file w (fontfile fl) = inr e ->
     main fl w
     = (Exit 1,
        with_output (output w ++ load_lines (verbose fl) (fontfile fl)
                       ++ [fatal_line "Error reading font file: %v" e]) w))
  /\ (forall b e,
        read_file w (fontfile fl) = inl b -> truetype_Parse b = inr e ->
        main fl w
        = (Exit 1,
           with_output (output w ++ load_lines (verbose fl) (fontfile fl)
                          ++ [fatal_line "Error parsing font: %v" e]) w))
  /\ (forall l w0,
        let w1 := with_opened (outFile fl :: opened w0)
                    (with_files (<[outFile fl := []]> (files w0)) w0) in
        let out := {| f_name := outFile fl |} in
        (forall e, create_fault w0 (outFile fl) = Some e ->
           saveImage (outFile fl) l w0
           = (Exit 1,
              with_output
                (output w0
                   ++ [fatal_line "Error creating output file: %v" e]) w0))
        /\ (forall bw e w2,
              create_fault w0 (outFile fl) = None ->
              png_Encode (bufio_NewWriter out) l w1 = (Ok (bw, Some e), w2) ->
              saveImage (outFile fl) l w0
              = (Exit 1,
                 with_output
                   (output w2 ++ [fatal_line "Error encoding PNG: %v" e]) w2))
        /\ (forall bw bw' e w2 w3,
              create_fault w0 (outFile fl) = None ->
              png_Encode (bufio_NewWriter out) l w1 = (Ok (bw, None), w2) ->
              bufio_Flush bw w2 = (Ok (bw', Some e), w3) ->
              saveImage (outFile fl) l w0
              = (Exit 1,
                 with_output
                   (output w3 ++ [fatal_line "Error flushing buffer: %v" e])
                   w3)))
  /\ (forall code w', main fl w = (Exit code, w') ->
        code = 1 /\
        exists pre fmt e,
          output w' = output w ++ pre ++ [fatal_line fmt e] /\
          ((fmt ∈ ["Error reading font file: %v"; "Error parsing font: %v";
                   "Error creating output file: %v"]%string
            /\ files w' = files w /\ opened w' = opened w)
           \/ (fmt ∈ ["Error encoding PNG: %v";
                      "Error flushing buffer: %v"]%string
               /\ exists p' written,
                    images w' !! length (images w) = Some p'
                    /\ written `prefix_of` png_bytes p'
                    /\ files w' = <[outFile fl := written]> (files w)))).
Proof.
  intros Hs Hh. split; [|split; [|split; [|]]].
  - intros e Hr. unfold main.
    apply bind_exit. rewrite loadFont_run, Hr. reflexivity.
  - intros b e Hr Hp. unfold main.
    apply bind_exit. rewrite loadFont_run, Hr, Hp. reflexivity.
  - intros l w0. apply saveImage_steps.
  - intros code w' Hmain. apply (main_exit_cases fl w w' code Hs Hh Hmain).
Qed.

End Claims.

Lemma fatal_errors_exit_with_status_1_witness :
  is_int 4 /\ is_int 6 /\
  forall code w',
    main (L := Mini.lib) (Mini.flags "A" 4 6 false) Mini.world_full
    = (Exit code, w') ->
    code = 1.
Proof.
  assert (H4 : is_int 4) by (unfold is_int, minInt, maxInt; lia).
  assert (H6 : is_int 6) by (unfold is_int, minInt, maxInt; lia).
  split; [exact H4|]. split; [exact H6|].
  intros code w' Hm.
  exact (proj1 (proj2 (proj2 (proj2
           (fatal_errors_exit_with_status_1 (L := Mini.lib)
              (Mini.flags "A" 4 6 false) Mini.world_full H4 H6))) code w' Hm)).
Defined.

(** C3, as stated, fails: when the buffer cannot be flushed the process
    exits with status 1, but the output file it created is left behind
    (empty, on a disk with no room at all) and is still open, since the
    deferred [Close] does not run when [log.Fatalf] exits. *)
Lemma flush_failure_leaves_file :
  let r := main (L := Mini.lib) (Mini.flags "A" 4 6 false) Mini.world_full in
  r.1 = Exit 1
  /\ files Mini.world_full !! "out.png"%string = None
  /\ files r.2 !! "out.png"%string = Some []
  /\ opened Mini.world_full = []
  /\ opened r.2 = ["out.png"%string].
Proof. vm_compute. repeat split; reflexivity. Qed.

(** On a disk with room for five bytes the file left behind holds the
    first five bytes of the PNG: a partial output file. *)
Example full_disk_leaves_a_truncated_file :
  let r := main (L := Mini.lib) (Mini.flags "A" 4 6 false) Mini.world_small in
  r.1 = Exit 1
  /\ files r.2 !! "out.png"%string = Some [4; 6; 255; 255; 255]
  /\ opened r.2 = ["out.png"%string]
  /\ output r.2 = [fatal_line "Error flushing buffer: %v"
                              (Err "no space left on device")].
Proof. vm_compute. repeat split; reflexivity. Qed.

(** C1.  [main] passes [len(text)], the number of bytes, to
    [createImage]: for the text U+00E9, one code point in two bytes, and a
    slot width of 3 the canvas is 6 pixels wide, not 3. *)
Theorem canvas_width_counts_bytes :
  let r := main (L := Mini.lib) (Mini.flags Mini.e_acute 3 2 false) Mini.world in
  RuneCountInString Mini.e_acute = 1
  /\ len Mini.e_acute = 2
  /\ r.1 = Ok tt
  /\ Bounds <$> images r.2 = [Rect 0 0 6 2].
Proof. vm_compute. repeat split; reflexivity. Qed.

(** C2.  [renderText] places a glyph by the byte offset of its rune: in
    the text U+00E9 followed by "a" the rune "a" is the code point of
    index 1 and starts at byte 2; with slots of 12 pixels and an advance
    of 10 pixels it is drawn at x = 2*12 + 12/2 - 10/2 = 25, in the third
    slot, not at 1*12 + 12/2 - 10/2 = 13. *)
Theorem glyph_position_counts_bytes :
  let t := (Mini.e_acute ++ "a")%string in
  let r := main (L := Mini.lib) (Mini.flags t 12 6 false) Mini.world in
  range_string t = [(0, 233); (2, 97)]
  /\ r.1 = Ok tt
  /\ draws r.2
     = [ {| dc_text := Mini.e_acute; dc_at := freetype_Pt 1 4 |};
         {| dc_text := "a"; dc_at := freetype_Pt 25 4 |} ]
  /\ freetype_Pt 25 4 <> freetype_Pt 13 4.
Proof. vm_compute. repeat split; try reflexivity. discriminate. Qed.

(* ================================================================== *)
(** * Runs of the whole program *)
(* ================================================================== *)

Section Runs.
Context `{L : Lib}.

Lemma NewRGBA_allocatable (r : Rectangle) :
  allocatable r = true -> is_Some (NewRGBA r).
Proof.
  unfold allocatable, NewRGBA. intros H. cbv zeta.
  destruct (mul3NonNeg 4 (Dx r) (Dy r) <? 0); [discriminate|].
  destruct (maxAlloc <? mul3NonNeg 4 (Dx r) (Dy r)); [discriminate|]. eauto.
Qed.

(** When the font loads, the canvas can be allocated and the operating
    system refuses nothing, [main] returns: the output file holds the PNG
    of a well-formed image with the bounds of the canvas, and is closed. *)
Lemma main_succeeds (fl : Flags) (f : Font) :
  is_int (slotWidth fl) -> is_int (imageHeight fl) ->
  let r := Rect 0 0 (canvas_width (len (text fl)) (slotWidth fl))
                (imageHeight fl) in
  allocatable r = true -> png_rect_ok r = true ->
  exists p', wf p' /\ Bounds p' = r /\
    forall w b,
      read_file w (fontfile fl) = inl b -> truetype_Parse b = inl f ->
      create_fault w (outFile fl) = None ->
      write_fault w (outFile fl) = None ->
      exists w', main fl w = (Ok tt, w') /\
        files w' = <[outFile fl := png_bytes p']> (files w) /\
        opened w' = opened w.
Proof.
  intros Hs Hh r Ha Hpng.
  pose proof (main_run fl f Hs Hh) as Hrun. cbv zeta in Hrun. fold r in Hrun.
  destruct (NewRGBA_allocatable r Ha) as [p0 Hp0]. rewrite Hp0 in Hrun.
  destruct Hrun as (p & p' & Hwf & HB & Hun & Hrun).
  exists p'. split; [exact (proj1 Hun)|].
  split; [rewrite (proj1 (proj2 Hun)); exact HB|].
  intros w b Hr Hp Hc Hw.
  pose proof (loadFont_run (fontfile fl) (verbose fl) w) as Hload.
  rewrite Hr, Hp in Hload. rewrite (Hrun _ _ Hload). clear Hrun.
  set (w1 := with_output _ w).
  set (w3 := render_world _ _ _ _ _).
  assert (Hl : images w3 !! length (images w1) = Some p').
  { unfold w3. apply render_world_lookup with (p := p).
    autorewrite with world.
    rewrite lookup_app_r, Nat.sub_diag by lia. reflexivity. }
  destruct (saveImage_cases (outFile fl) _ w3 p' Hl)
    as [(_ & _ & Hsave) | [(e & He & _)
        | (fmt & e & pre & _ & _ & Hbad & _)]].
  - rewrite (bind_ok _ _ _ _ _ Hsave).
    unfold when, fmt_Printf, emit, ret.
    destruct (verbose fl); (eexists; split; [reflexivity|]);
      split; reflexivity.
  - exfalso. change (create_fault w3 (outFile fl)) with
      (create_fault w (outFile fl)) in He. congruence.
  - exfalso. destruct Hbad as [[Hbad _] | [e' Hbad]].
    + unfold png_size_ok in Hbad.
      rewrite (proj1 (proj2 Hun)), HB in Hbad. congruence.
    + change (write_fault w3 (outFile fl)) with
        (write_fault w (outFile fl)) in Hbad. congruence.
Qed.

(** When [main] returns, the output file holds the PNG of an image that
    depends on the flags and the font only. *)
Lemma main_ok_inv (fl : Flags) (f : Font) :
  is_int (slotWidth fl) -> is_int (imageHeight fl) ->
  exists q : option RGBA,
    forall w w' b,
      read_file w (fontfile fl) = inl b -> truetype_Parse b = inl f ->
      main fl w = (Ok tt, w') ->
      exists p', q = Some p' /\
        files w' = <[outFile fl := png_bytes p']> (files w).
Proof.
  intros Hs Hh.
  pose proof (main_run fl f Hs Hh) as Hrun. cbv zeta in Hrun.
  destruct (NewRGBA _) as [p0|].
  - destruct Hrun as (p & p' & Hwf & HB & Hun & Hrun).
    exists (Some p'). intros w w' b Hr Hp Hmain.
    pose proof (loadFont_run (fontfile fl) (verbose fl) w) as Hload.
    rewrite Hr, Hp in Hload. rewrite (Hrun _ _ Hload) in Hmain. clear Hrun.
    set (w1 := with_output _ w) in *.
    set (w3 := render_world _ _ _ _ _) in *.
    assert (Hl : images w3 !! length (images w1) = Some p').
    { unfold w3. apply render_world_lookup with (p := p).
      autorewrite with world.
      rewrite lookup_app_r, Nat.sub_diag by lia. reflexivity. }
    destruct (saveImage_cases (outFile fl) _ w3 p' Hl)
      as [(_ & _ & Hsave) | [(e & _ & Hsave)
          | (fmt & e & pre & _ & _ & _ & _ & Hsave)]].
    + rewrite (bind_ok _ _ _ _ _ Hsave) in Hmain.
      exists p'. split; [reflexivity|].
      unfold when, fmt_Printf, emit, ret in Hmain.
      destruct (verbose fl); injection Hmain as <-; reflexivity.
    + rewrite (bind_exit _ _ _ _ _ Hsave) in Hmain. discriminate.
    + rewrite (bind_exit _ _ _ _ _ Hsave) in Hmain. discriminate.
  - destruct Hrun as (msg & Hrun). exists None. intros w w' b Hr Hp Hmain.
    pose proof (loadFont_run (fontfile fl) (verbose fl) w) as Hload.
    rewrite Hr, Hp in Hload. rewrite (Hrun _ _ Hload) in Hmain. discriminate.
Qed.

Lemma main_ok_loads (fl : Flags) (w w' : World) :
  main fl w = (Ok tt, w') ->
  exists b f, read_file w (fontfile fl) = inl b /\ truetype_Parse b = inl f.
Proof.
  intros Hmain.
  pose proof (loadFont_run (fontfile fl) (verbose fl) w) as Hload.
  destruct (read_file w (fontfile fl)) as [b|e] eqn:Hr.
  - destruct (truetype_Parse b) as [f|e] eqn:Hp;
      [exists b, f; split; [reflexivity | exact Hp]|].
    unfold main in Hmain. rewrite (bind_exit _ _ _ _ _ Hload) in Hmain.
    discriminate.
  - unfold main in Hmain. rewrite (bind_exit _ _ _ _ _ Hload) in Hmain.
    discriminate.
Qed.

Lemma read_file_inl (w : World) (path : string) (b : list Z) :
  read_file w path = inl b -> files w !! path = Some b.
Proof.
  unfold read_file. destruct (read_fault w path); [discriminate|].
  destruct (files w !! path); [|discriminate]. congruence.
Qed.

(** C8. For fixed flags and font file contents, two runs of the program
    that complete write byte-identical output files, whatever else differs
    between the two machines: the encoded image is a function of the flags
    and the font. *)
Theorem output_is_deterministic (fl : Flags) (w1 w2 w1' w2' : World) :
  is_int (slotWidth fl) -> is_int (imageHeight fl) ->
  files w1 !! fontfile fl = files w2 !! fontfile fl ->
  main fl w1 = (Ok tt, w1') -> main fl w2 = (Ok tt, w2') ->
  files w1' !! outFile fl = files w2' !! outFile fl
  /\ is_Some (files w1' !! outFile fl).
Proof.
  intros Hs Hh Hfont H1 H2.
  destruct (main_ok_loads fl w1 w1' H1) as (b1 & f1 & Hr1 & Hp1).
  destruct (main_ok_loads fl w2 w2' H2) as (b2 & f2 & Hr2 & Hp2).
  assert (b1 = b2) as <-.
  { apply read_file_inl in Hr1 as Hb1. apply read_file_inl in Hr2 as Hb2.
    congruence. }
  assert (f1 = f2) as <- by congruence.
  destruct (main_ok_inv fl f1 Hs Hh) as (q & Hq).
  destruct (Hq w1 w1' b1 Hr1 Hp1 H1) as (p1 & Hq1 & Hf1).
  destruct (Hq w2 w2' b1 Hr2 Hp2 H2) as (p2 & Hq2 & Hf2).
  assert (p1 = p2) as <- by congruence.
  rewrite Hf1, Hf2, !lookup_insert_eq. split; [reflexivity | eauto].
Qed.

End Runs.

Lemma output_is_deterministic_witness :
  let fl := Mini.flags "AB" 12 6 true in
  let r1 := main (L := Mini.lib) fl Mini.world in
  let r2 := main (L := Mini.lib) fl Mini.world_used in
  is_int (slotWidth fl) /\ is_int (imageHeight fl)
  /\ files Mini.world !! fontfile fl = files Mini.world_used !! fontfile fl
  /\ r1 = (Ok tt, r1.2) /\ r2 = (Ok tt, r2.2)
  /\ files r1.2 !! outFile fl = files r2.2 !! outFile fl
  /\ is_Some (files r1.2 !! outFile fl).
Proof.
  intros fl r1 r2.
  assert (H12 : is_int (slotWidth fl)) by (unfold is_int, minInt, maxInt; simpl; lia).
  assert (H6 : is_int (imageHeight fl)) by (unfold is_int, minInt, maxInt; simpl; lia).
  assert (Hf : files Mini.world !! fontfile fl
               = files Mini.world_used !! fontfile fl) by (vm_compute; reflexivity).
  assert (E1 : r1 = (Ok tt, r1.2)) by (vm_compute; reflexivity).
  assert (E2 : r2 = (Ok tt, r2.2)) by (vm_compute; reflexivity).
  split; [exact H12|]. split; [exact H6|]. split; [exact Hf|].
  split; [exact E1|]. split; [exact E2|].
  exact (output_is_deterministic (L := Mini.lib) fl Mini.world Mini.world_used
           r1.2 r2.2 H12 H6 Hf E1 E2).
Defined.

(* ================================================================== *)
(** * Pixels of the canvas *)
(* ================================================================== *)

Section Pixels.
Context `{L : Lib}.

(** A pixel that [renderText] changed was changed by the iteration of one
    of the runes, and that rune did not fail: its glyph was drawn. *)
Lemma forM_renderRune_trace (c : Context) (src : Image) (f : Font)
    (slotW imgH : Z) (dpi size : float64) (verb : bool) (rs : list (Z * Z)) :
  c_src c = Some src ->
  forall p, wf p ->
    exists p', unchanged_outside (c_clip c) p p' /\
      (forall l w, images w !! l = Some p ->
         forM_ rs (renderRune (SetDst l c) f slotW imgH dpi size verb) w
         = (Ok tt,
            render_world w l p'
              (rs ≫= rune_lines c f slotW imgH dpi size verb)
              (rs ≫= rune_calls f slotW imgH dpi size))) /\
      forall x y, RGBAAt p' x y <> RGBAAt p x y ->
        exists pre ir post pa pb,
          rs = pre ++ ir :: post /\
          (forall l w, images w !! l = Some p ->
             forM_ pre (renderRune (SetDst l c) f slotW imgH dpi size verb) w
             = (Ok tt,
                render_world w l pa
                  (pre ≫= rune_lines c f slotW imgH dpi size verb)
                  (pre ≫= rune_calls f slotW imgH dpi size))) /\
          (forall l w, images w !! l = Some pa ->
             renderRune (SetDst l c) f slotW imgH dpi size verb ir w
             = (Ok tt,
                render_world w l pb
                  (rune_lines c f slotW imgH dpi size verb ir)
                  (rune_calls f slotW imgH dpi size ir))) /\
          RGBAAt pb x y <> RGBAAt pa x y /\
          ~ rune_fails c f slotW imgH dpi size ir.
Proof.
  intros Hsrc. induction rs as [|ir rs IH]; intros p Hwf.
  - exists p. split; [apply unchanged_outside_refl, Hwf|]. split.
    + intros l w Hl. simpl. rewrite render_world_id by exact Hl. reflexivity.
    + intros x y Hne. contradiction.
  - destruct (renderRune_spec c src f slotW imgH dpi size verb ir p Hsrc Hwf)
      as (p1 & Hun1 & Hfail1 & Hrun1).
    destruct (IH p1 (proj1 Hun1)) as (p' & Hun & Hrun & Htrace).
    exists p'. split; [exact (unchanged_outside_trans _ _ _ _ Hun1 Hun)|].
    split.
    + intros l w Hl. simpl forM_.
      rewrite (bind_ok _ _ _ _ _ (Hrun1 l w Hl)).
      rewrite (Hrun l _ (render_world_lookup w l p p1 _ _ Hl)).
      rewrite render_world_twice. reflexivity.
    + intros x y Hne.
      destruct (decide (RGBAAt p1 x y = RGBAAt p x y)) as [Heq | Hne1].
      * rewrite <- Heq in Hne.
        destruct (Htrace x y Hne)
          as (pre & ir' & post & pa & pb & -> & Hpre & Hstep & Hch & Hnf).
        exists (ir :: pre), ir', post, pa, pb.
        split; [reflexivity|]. split; [|split; [exact Hstep|split; assumption]].
        intros l w Hl. simpl forM_.
        rewrite (bind_ok _ _ _ _ _ (Hrun1 l w Hl)).
        rewrite (Hpre l _ (render_world_lookup w l p p1 _ _ Hl)).
        rewrite render_world_twice. reflexivity.
      * exists [], ir, rs, p, p1.
        split; [reflexivity|]. split; [|split; [exact Hrun1|split]].
        -- intros l w Hl. simpl.
           rewrite render_world_id by exact Hl. reflexivity.
        -- exact Hne1.
        -- intros Hf. apply Hne1. rewrite (Hfail1 Hf). reflexivity.
Qed.

(** A canvas of at most 10^9 pixels in each direction lies within the
    bounds of a uniform source placed at its corner, so that [draw.Draw]
    fills all of it. *)
Lemma src_clip_covers (cw h x y : Z) (bg : Image) :
  - 10 ^ 9 <= cw <= 10 ^ 9 -> - 10 ^ 9 <= h <= 10 ^ 9 ->
  In_rect x y (Rect 0 0 cw h) = true ->
  In_rect x y (src_clip bg (Min (Rect 0 0 cw h))) = true.
Proof.
  intros Hw Hh Hin. apply In_rect_spec in Hin. apply In_rect_spec.
  change (10 ^ 9) with 1000000000 in *.
  unfold src_clip, Rectangle_Add, Image_Bounds, int_add, int_sub.
  unfold Rect in *.
  destruct (Z.ltb_spec cw 0), (Z.ltb_spec h 0); simpl in *;
    rewrite ?Z.sub_0_r;
    rewrite ?(wrapInt_id cw), ?(wrapInt_id h), ?(wrapInt_id 0)
      by (unfold is_int, minInt, maxInt; lia);
    rewrite !wrapInt_id by (unfold is_int, minInt, maxInt; lia); lia.
Qed.

(** For a canvas with its corner at the origin the part that is filled
    is the part below 10^9 in each direction. *)
Lemma src_clip_origin (x y : Z) (bg : Image) :
  0 <= x -> 0 <= y ->
  In_rect x y (src_clip bg (Pt 0 0)) = (x <? 10 ^ 9) && (y <? 10 ^ 9).
Proof.
  intros Hx Hy. unfold In_rect, src_clip, Rectangle_Add, Image_Bounds, Pt.
  cbn [Min Max X Y].
  change (int_add (-1000000000) (int_sub 0 0)) with (-1000000000).
  change (int_add 1000000000 (int_sub 0 0)) with (10 ^ 9).
  destruct (Z.leb_spec (-1000000000) x); [|lia].
  destruct (Z.leb_spec (-1000000000) y); [|lia].
  rewrite andb_true_l, andb_true_r. reflexivity.
Qed.

Lemma guide_column_in_canvas (textLen slotW imgH i y : Z) :
  1 <= slotW -> textLen * slotW <= maxInt ->
  0 <= i < textLen -> 0 <= y < imgH ->
  In_rect (int_mul i slotW) y (Rect 0 0 (canvas_width textLen slotW) imgH)
  = true.
Proof.
  intros Hs Hmax Hi Hy. unfold maxInt in Hmax.
  assert (Hw : int_mul textLen slotW = textLen * slotW).
  { apply wrapInt_id. unfold is_int, minInt, maxInt. nia. }
  assert (Hx : int_mul i slotW = i * slotW).
  { apply wrapInt_id. unfold is_int, minInt, maxInt. nia. }
  unfold canvas_width. rewrite Hw, Hx.
  destruct (Z.eqb_spec (textLen * slotW) 0) as [H0 | _]; [nia|].
  apply In_rect_spec. unfold Rect.
  destruct (Z.ltb_spec (textLen * slotW) 0); [nia|].
  destruct (Z.ltb_spec imgH 0); [lia|]. simpl. nia.
Qed.

Lemma guide_coords_column (textLen slotW imgH i y : Z) :
  0 <= i < textLen -> 0 <= y < imgH ->
  (int_mul i slotW, y) ∈ guide_coords textLen slotW imgH.
Proof.
  intros Hi Hy. unfold guide_coords.
  apply list_elem_of_bind. exists i. split; [|apply elem_of_upto, Hi].
  apply list_elem_of_bind. exists y. split; [|apply elem_of_upto, Hy].
  apply list_elem_of_singleton. reflexivity.
Qed.

(** C5, as amended. With guidelines, after [createImage] every pixel of
    the canvas in a column x = i*slotWidth, i in [0, textLen), has the
    guideline colour (and for a slot width of at least 1 these columns lie
    in the canvas); without guidelines, on a canvas of at most 10^9 pixels
    in each direction, every pixel has the background colour, and in the
    image [renderText] leaves, a pixel that differs from the background
    was changed by the drawing of one of the glyphs.  The height is not
    negative, as in the data model. *)
Theorem guidelines_and_background (textLen slotW imgH : Z) (bg : Image)
    (rulerColor : Color) (g : bool) :
  is_int slotW -> is_int imgH -> 0 <= imgH ->
  allocatable (Rect 0 0 (canvas_width textLen slotW) imgH) = true ->
  exists p,
    (forall w,
       createImage textLen slotW imgH bg rulerColor g w
       = (Ok (length (images w)), with_images (images w ++ [p]) w))
    /\ wf p /\ Bounds p = Rect 0 0 (canvas_width textLen slotW) imgH
    /\ (g = true ->
        forall i y, 0 <= i < textLen ->
          In_rect (int_mul i slotW) y (Bounds p) = true ->
          RGBAAt p (int_mul i slotW) y = RGBAModel rulerColor)
    /\ (g = true -> 1 <= slotW -> textLen * slotW <= maxInt ->
        forall i y, 0 <= i < textLen -> 0 <= y < imgH ->
          In_rect (int_mul i slotW) y (Bounds p) = true)
    /\ (g = false ->
        - 10 ^ 9 <= canvas_width textLen slotW <= 10 ^ 9 -> imgH <= 10 ^ 9 ->
        forall x y, In_rect x y (Bounds p) = true ->
          RGBAAt p x y = RGBAModel (Image_color bg))
    /\ (g = false ->
        - 10 ^ 9 <= canvas_width textLen slotW <= 10 ^ 9 -> imgH <= 10 ^ 9 ->
        forall (c : Context) (src : Image) (f : Font) (text : string)
               (dpi size : float64) (verb : bool),
          c_src c = Some src ->
          exists p',
            (forall l w, images w !! l = Some p ->
               renderText (SetDst l c) f text slotW imgH dpi size verb w
               = (Ok tt,
                  render_world w l p'
                    (range_string text
                       ≫= rune_lines c f slotW imgH dpi size verb)
                    (range_string text
                       ≫= rune_calls f slotW imgH dpi size)))
            /\ forall x y,
                 RGBAAt p' x y <> RGBAModel (Image_color bg) ->
                 In_rect x y (Bounds p) = true ->
                 exists pre ir post pa pb,
                   range_string text = pre ++ ir :: post /\
                   (forall l w, images w !! l = Some p ->
                      forM_ pre
                        (renderRune (SetDst l c) f slotW imgH dpi size verb) w
                      = (Ok tt,
                         render_world w l pa
                           (pre ≫= rune_lines c f slotW imgH dpi size verb)
                           (pre ≫= rune_calls f slotW imgH dpi size))) /\
                   (forall l w, images w !! l = Some pa ->
                      renderRune (SetDst l c) f slotW imgH dpi size verb ir w
                      = (Ok tt,
                         render_world w l pb
                           (rune_lines c f slotW imgH dpi size verb ir)
                           (rune_calls f slotW imgH dpi size ir))) /\
                   RGBAAt pb x y <> RGBAAt pa x y /\
                   ~ rune_fails c f slotW imgH dpi size ir).
Proof.
  intros Hs Hh Hh0 Ha.
  pose proof (createImage_spec textLen slotW imgH bg rulerColor g Hs Hh)
    as Hcreate. cbv zeta in Hcreate.
  destruct (NewRGBA_allocatable _ Ha) as [p0 Hp0]. rewrite Hp0 in Hcreate.
  destruct Hcreate as (p & Hrun & Hwf & HB & Hat).
  exists p. split; [exact Hrun|]. split; [exact Hwf|]. split; [exact HB|].
  split; [|split; [|split]].
  - intros -> i y Hi Hin. rewrite HB in Hin. rewrite (Hat _ _ Hin).
    rewrite bool_decide_eq_true_2; [reflexivity|].
    apply guide_coords_column; [exact Hi|].
    apply In_rect_spec in Hin. unfold Rect in Hin.
    destruct (_ <? _) in Hin; destruct (imgH <? 0) eqn:E in Hin;
      simpl in Hin; try lia; apply Z.ltb_lt in E; lia.
  - intros -> Hs1 Hmax i y Hi Hy. rewrite HB.
    apply guide_column_in_canvas; assumption.
  - intros -> Hcw Hh9 x y Hin. rewrite HB in Hin. rewrite (Hat _ _ Hin).
    rewrite andb_false_l, src_clip_covers
      by (assumption || (change (10 ^ 9) with 1000000000 in *; lia)).
    reflexivity.
  - intros -> Hcw Hh9 c src f text dpi size verb Hsrc.
    destruct (forM_renderRune_trace c src f slotW imgH dpi size verb
                (range_string text) Hsrc p Hwf) as (p' & Hun & Hrender & Htr).
    exists p'. split; [exact Hrender|].
    intros x y Hne Hin. apply Htr.
    rewrite HB in Hin. rewrite (Hat _ _ Hin).
    rewrite andb_false_l, src_clip_covers
      by (assumption || (change (10 ^ 9) with 1000000000 in *; lia)).
    exact Hne.
Qed.

End Pixels.

(* ================================================================== *)
(** * Failures of single characters, and clipping *)
(* ================================================================== *)

Section Recover.
Context `{L : Lib}.

(** C4. A character whose advance lookup fails, or whose rasterisation
    fails, costs one warning on standard error and nothing else: the
    iteration of [renderText] for it returns with the image as it was,
    the loop goes on through every character of the text, and when the
    font loads and the operating system refuses nothing [main] returns
    (exit status 0) with the PNG of the image in the output file. *)
Theorem character_failures_are_recoverable (c : Context) (src : Image)
    (f : Font) (slotW imgH : Z) (dpi size : float64) (verb : bool)
    (p : RGBA) :
  c_src c = Some src -> wf p ->
  (forall i r l w,
     Face_GlyphAdvance f size dpi r = None -> images w !! l = Some p ->
     renderRune (SetDst l c) f slotW imgH dpi size verb (i, r) w
     = (Ok tt, with_output (output w ++ [warn_line r]) w))
  /\ (forall i r advance e l w,
        Face_GlyphAdvance f size dpi r = Some advance ->
        draw_error c r (draw_point i slotW imgH advance) = Some e ->
        images w !! l = Some p ->
        renderRune (SetDst l c) f slotW imgH dpi size verb (i, r) w
        = (Ok tt,
           with_output
             (output w ++ width_lines verb r advance ++ [draw_error_line r e])
             (with_draws
                (draws w ++ [{| dc_text := string_of_rune r;
                                dc_at := draw_point i slotW imgH advance |}])
                w)))
  /\ (forall text,
        exists p', unchanged_outside (c_clip c) p p' /\
          forall l w, images w !! l = Some p ->
            renderText (SetDst l c) f text slotW imgH dpi size verb w
            = (Ok tt,
               render_world w l p'
                 (range_string text ≫= rune_lines c f slotW imgH dpi size verb)
                 (range_string text ≫= rune_calls f slotW imgH dpi size)))
  /\ (forall fl,
        is_int (slotWidth fl) -> is_int (imageHeight fl) ->
        let r := Rect 0 0 (canvas_width (len (text fl)) (slotWidth fl))
                      (imageHeight fl) in
        allocatable r = true -> png_rect_ok r = true ->
        exists p', wf p' /\ Bounds p' = r /\
          forall w b,
            read_file w (fontfile fl) = inl b -> truetype_Parse b = inl f ->
            create_fault w (outFile fl) = None ->
            write_fault w (outFile fl) = None ->
            exists w', main fl w = (Ok tt, w') /\
              exit_status (main fl w).1 = 0 /\
              files w' !! outFile fl = Some (png_bytes p')).
Proof.
  intros Hsrc Hwf. split; [|split; [|split]].
  - intros i r l w Hadv Hl.
    destruct (renderRune_spec c src f slotW imgH dpi size verb (i, r) p
                Hsrc Hwf) as (p' & _ & Hfail & Hrun).
    rewrite (Hrun l w Hl). unfold rune_fails, rune_lines, rune_calls in *.
    simpl in *. rewrite Hadv in *. rewrite (Hfail I).
    rewrite render_world_lines by exact Hl. reflexivity.
  - intros i r advance e l w Hadv Herr Hl.
    destruct (renderRune_spec c src f slotW imgH dpi size verb (i, r) p
                Hsrc Hwf) as (p' & _ & Hfail & Hrun).
    rewrite (Hrun l w Hl). unfold rune_fails, rune_lines, rune_calls in *.
    simpl in *. rewrite Hadv in *. rewrite Herr in *.
    rewrite (Hfail ltac:(eauto)).
    unfold render_world. rewrite list_insert_id by exact Hl.
    rewrite with_images_id by reflexivity. reflexivity.
  - intros text.
    destruct (forM_renderRune_spec c src f slotW imgH dpi size verb
                (range_string text) Hsrc p Hwf) as (p' & Hun & Hrun).
    exists p'. split; [exact Hun | exact Hrun].
  - intros fl Hs Hh r Ha Hpng.
    destruct (main_succeeds fl f Hs Hh Ha Hpng) as (p' & Hwf' & HB' & Hmain).
    exists p'. split; [exact Hwf'|]. split; [exact HB'|].
    intros w b Hr Hp Hc Hw.
    destruct (Hmain w b Hr Hp Hc Hw) as (w' & Hrun & Hfiles & _).
    exists w'. split; [exact Hrun|]. rewrite Hrun. split; [reflexivity|].
    rewrite Hfiles. apply lookup_insert_eq.
Qed.

(** C10. Drawing never leaves the canvas.  [Set] outside the bounds
    does nothing, and compositing a mask through any rectangle keeps the
    buffer and the bounds and changes no pixel outside the rectangle.
    In the program, once the canvas is allocated [createImage] returns a
    well-formed image of the canvas bounds; [getFreeTypeContext] clips to
    these bounds; [renderText] returns with a well-formed image of the same
    bounds for every text, slot width and glyph; and a glyph that the
    rasteriser produces, wherever its mask lies, is no error. *)
Theorem drawing_is_clipped (textLen slotW imgH : Z) (bg : Image)
    (rulerColor : Color) (g : bool) :
  is_int slotW -> is_int imgH ->
  let r := Rect 0 0 (canvas_width textLen slotW) imgH in
  (forall p x y col, wf p ->
     exists p', RGBA_Set x y col p = Some p' /\ wf p' /\
       Bounds p' = Bounds p /\
       (In_rect x y (Bounds p) = false -> p' = p))
  /\ (forall p dr src mask mp, wf p ->
        exists p', draw_DrawMask_Over p dr src mask mp = Some p' /\ wf p' /\
          Bounds p' = Bounds p /\
          forall u v, In_rect u v dr = false -> RGBAAt p' u v = RGBAAt p u v)
  /\ match NewRGBA r with
     | None =>
       exists msg, forall w,
         createImage textLen slotW imgH bg rulerColor g w = (Panic msg, w)
     | Some _ =>
       exists p,
         (forall w,
            createImage textLen slotW imgH bg rulerColor g w
            = (Ok (length (images w)), with_images (images w ++ [p]) w))
         /\ wf p /\ Bounds p = r
         /\ forall (f : Font) (dpi size : float64) (src : Image)
                   (hintingStr text : string) (verb : bool),
              let c := base_context f dpi size r src hintingStr in
              exists p', wf p' /\ Bounds p' = r /\
                (forall w l, images w !! l = Some p ->
                   getFreeTypeContext f dpi size l src hintingStr w
                   = (Ok (SetDst l c), w)
                   /\ c_clip (SetDst l c) = r
                   /\ renderText (SetDst l c) f text slotW imgH dpi size verb w
                      = (Ok tt,
                         render_world w l p'
                           (range_string text
                              ≫= rune_lines c f slotW imgH dpi size verb)
                           (range_string text
                              ≫= rune_calls f slotW imgH dpi size)))
                /\ forall i rn advance mask offset,
                     Face_GlyphAdvance f size dpi rn = Some advance ->
                     Context_glyph f size dpi (c_hinting c) (norm_rune rn)
                                   (draw_point i slotW imgH advance)
                     = inl (mask, offset) ->
                     rune_lines c f slotW imgH dpi size verb (i, rn)
                     = width_lines verb rn advance
     end.
Proof.
  intros Hs Hh r. split; [|split].
  - intros p x y col Hwf.
    destruct (RGBA_Set_paints x y col (Bounds p) p Hwf eq_refl)
      as (p' & Hset & Hwf' & HB & _).
    exists p'. split; [exact Hset|]. split; [exact Hwf'|]. split; [exact HB|].
    intros Hout. unfold RGBA_Set in Hset. rewrite Hout in Hset.
    simpl in Hset. congruence.
  - intros p dr src mask mp Hwf. apply draw_DrawMask_Over_spec, Hwf.
  - pose proof (createImage_spec textLen slotW imgH bg rulerColor g Hs Hh)
      as Hcreate. cbv zeta in Hcreate. fold r in Hcreate.
    destruct (NewRGBA r) as [p0|]; [|exact Hcreate].
    destruct Hcreate as (p & Hrun & Hwf & HB & _).
    exists p. split; [exact Hrun|]. split; [exact Hwf|]. split; [exact HB|].
    intros f dpi size src hintingStr text verb c.
    destruct (forM_renderRune_spec c src f slotW imgH dpi size verb
                (range_string text) eq_refl p Hwf) as (p' & Hun & Hrender).
    exists p'. split; [exact (proj1 Hun)|].
    split; [rewrite (proj1 (proj2 Hun)); exact HB|]. split.
    + intros w l Hl. split; [|split].
      * rewrite (getFreeTypeContext_run f dpi size l src hintingStr w p Hl).
        rewrite HB. reflexivity.
      * reflexivity.
      * apply Hrender, Hl.
    + intros i rn advance mask offset Hadv Hglyph.
      unfold rune_lines, draw_error. simpl fst; simpl snd.
      rewrite Hadv. change (c_f c) with (Some f).
      change (c_fontSize c) with size. change (c_dpi c) with dpi.
      cbv iota beta. rewrite Hglyph. apply app_nil_r.
Qed.

End Recover.

(** ** Instances on the toy font *)

Lemma hinting_other_than_full_is_none_witness :
  "FULL"%string <> "full"%string
  /\ exists c,
       getFreeTypeContext (L := Mini.lib) Mini.font (float64_of_int 72)
         (float64_of_int 125) 0%nat image_Black "FULL"
         (with_images [Mini.canvas] Mini.world)
       = (Ok c, with_images [Mini.canvas] Mini.world)
       /\ c_hinting c = HintingNone.
Proof.
  assert (H : "FULL"%string <> "full"%string) by discriminate.
  split; [exact H|].
  exact (proj2 (hinting_other_than_full_is_none (L := Mini.lib) Mini.font
                  (float64_of_int 72) (float64_of_int 125) 0%nat image_Black
                  "FULL" (with_images [Mini.canvas] Mini.world) H)
           Mini.canvas eq_refl).
Defined.

Lemma guidelines_and_background_witness :
  is_int 4 /\ is_int 6 /\ 0 <= 6
  /\ allocatable (Rect 0 0 (canvas_width 2 4) 6) = true
  /\ (exists p,
       (forall w,
          createImage 2 4 6 image_White (Gray16 0xdddd) true w
          = (Ok (length (images w)), with_images (images w ++ [p]) w))
       /\ forall i y, 0 <= i < 2 ->
            In_rect (int_mul i 4) y (Bounds p) = true ->
            RGBAAt p (int_mul i 4) y = RGBAModel (Gray16 0xdddd))
  /\ - 10 ^ 9 <= canvas_width 2 4 <= 10 ^ 9 /\ 6 <= 10 ^ 9
  /\ exists p,
       (forall w,
          createImage 2 4 6 image_White (Gray16 0xdddd) false w
          = (Ok (length (images w)), with_images (images w ++ [p]) w))
       /\ forall x y, In_rect x y (Bounds p) = true ->
            RGBAAt p x y = RGBAModel (Image_color image_White).
Proof.
  assert (H4 : is_int 4) by (unfold is_int, minInt, maxInt; lia).
  assert (H6 : is_int 6) by (unfold is_int, minInt, maxInt; lia).
  assert (H0 : 0 <= 6) by lia.
  assert (Ha : allocatable (Rect 0 0 (canvas_width 2 4) 6) = true)
    by reflexivity.
  assert (Hcw : - 10 ^ 9 <= canvas_width 2 4 <= 10 ^ 9)
    by (vm_compute; split; discriminate).
  assert (H9 : 6 <= 10 ^ 9) by (vm_compute; discriminate).
  split; [exact H4|]. split; [exact H6|]. split; [exact H0|].
  split; [exact Ha|]. split; [|split; [exact Hcw|split; [exact H9|]]].
  - destruct (guidelines_and_background (L := Mini.lib) 2 4 6 image_White
                (Gray16 0xdddd) true H4 H6 H0 Ha)
      as (p & Hrun & _ & _ & Hg & _).
    exists p. split; [exact Hrun | exact (Hg eq_refl)].
  - destruct (guidelines_and_background (L := Mini.lib) 2 4 6 image_White
                (Gray16 0xdddd) false H4 H6 H0 Ha)
      as (p & Hrun & _ & _ & _ & _ & Hbg & _).
    exists p. split; [exact Hrun | exact (Hbg eq_refl Hcw H9)].
Defined.

(** C5, as stated, fails on a canvas wider than 10^9 pixels: for a text
    of one byte and a slot width of 1000000001, without guidelines,
    [createImage] returns a canvas whose pixel (1000000000, 0) is not
    white, the background colour, but the transparent black of the fresh
    image, since the uniform source that [draw.Draw] copies ends at
    10^9. *)
Lemma background_ends_at_1e9 :
  exists p,
    (forall w,
       createImage 1 1000000001 1 image_White (Gray16 0xdddd) false w
       = (Ok (length (images w)), with_images (images w ++ [p]) w))
    /\ Bounds p = {| Min := Pt 0 0; Max := Pt 1000000001 1 |}
    /\ In_rect 1000000000 0 (Bounds p) = true
    /\ RGBAAt p 1000000000 0 = {| R := 0; G := 0; B := 0; A := 0 |}
    /\ RGBAAt p 1000000000 0 <> RGBAModel (Image_color image_White).
Proof.
  assert (Hs : is_int 1000000001) by (unfold is_int, minInt, maxInt; lia).
  assert (Hh : is_int 1) by (unfold is_int, minInt, maxInt; lia).
  pose proof (createImage_spec 1 1000000001 1 image_White (Gray16 0xdddd)
                false Hs Hh) as H.
  cbv zeta in H.
  assert (Ha : allocatable (Rect 0 0 (canvas_width 1 1000000001) 1) = true)
    by (vm_compute; reflexivity).
  destruct (NewRGBA_allocatable _ Ha) as [p0 Hp0]. rewrite Hp0 in H.
  destruct H as (p & Hrun & _ & HB & Hat).
  assert (Hin : In_rect 1000000000 0
                  (Rect 0 0 (canvas_width 1 1000000001) 1) = true)
    by (vm_compute; reflexivity).
  assert (Hpx : RGBAAt p 1000000000 0 = {| R := 0; G := 0; B := 0; A := 0 |}).
  { rewrite (Hat _ _ Hin). vm_compute. reflexivity. }
  exists p. split; [exact Hrun|]. split; [rewrite HB; vm_compute; reflexivity|].
  split; [rewrite HB; exact Hin|]. split; [exact Hpx|].
  rewrite Hpx. vm_compute. discriminate.
Qed.

Lemma character_failures_are_recoverable_witness :
  let c := base_context (L := Mini.lib) Mini.font (float64_of_int 72)
             (float64_of_int 125) (Rect 0 0 2 2) image_Black "none" in
  c_src c = Some image_Black /\ wf Mini.canvas
  /\ forall w, images w !! 0%nat = Some Mini.canvas ->
       renderRune (L := Mini.lib) (SetDst 0%nat c) Mini.font 12 6
         (float64_of_int 72) (float64_of_int 125) false (0, 63) w
       = (Ok tt, with_output (output w ++ [warn_line 63]) w).
Proof.
  intros c.
  assert (Hsrc : c_src c = Some image_Black) by reflexivity.
  assert (Hwf : wf Mini.canvas) by (unfold wf; simpl; lia).
  split; [exact Hsrc|]. split; [exact Hwf|].
  intros w Hl.
  exact (proj1 (character_failures_are_recoverable (L := Mini.lib) c
                  image_Black Mini.font 12 6 (float64_of_int 72)
                  (float64_of_int 125) false Mini.canvas Hsrc Hwf)
           0 63 0%nat w eq_refl Hl).
Defined.

Lemma drawing_is_clipped_witness :
  is_int 4 /\ is_int 6
  /\ forall p x y col, wf p ->
       exists p', RGBA_Set x y col p = Some p' /\ wf p' /\
         Bounds p' = Bounds p /\
         (In_rect x y (Bounds p) = false -> p' = p).
Proof.
  assert (H4 : is_int 4) by (unfold is_int, minInt, maxInt; lia).
  assert (H6 : is_int 6) by (unfold is_int, minInt, maxInt; lia).
  split; [exact H4|]. split; [exact H6|].
  exact (proj1 (drawing_is_clipped (L := Mini.lib) 2 4 6 image_White
                  (Gray16 0xdddd) true H4 H6)).
Defined.

(* ================================================================== *)
(** * The canvas, pixel by pixel *)
(* ================================================================== *)

Section Canvas.
Context `{L : Lib}.

Lemma canvas_width_zero (textLen slotW : Z) :
  canvas_width textLen slotW = 0 <-> slotW = 0.
Proof.
  unfold canvas_width.
  destruct (Z.eqb_spec (int_mul textLen slotW) 0) as [H0 | Hne].
  - reflexivity.
  - split; [contradiction|]. intros ->. exfalso. apply Hne.
    unfold int_mul. rewrite Z.mul_0_r. reflexivity.
Qed.

Lemma canvas_width_exact (textLen slotW : Z) :
  0 <= textLen -> 1 <= slotW -> textLen * slotW <= maxInt ->
  canvas_width textLen slotW = if textLen =? 0 then slotW else textLen * slotW.
Proof.
  intros Ht Hs Hmax. unfold canvas_width, int_mul.
  rewrite wrapInt_id by (unfold is_int, minInt, maxInt in *; nia).
  destruct (Z.eqb_spec textLen 0) as [-> | Hne]; [reflexivity|].
  destruct (Z.eqb_spec (textLen * slotW) 0); [nia | reflexivity].
Qed.

Lemma guide_coords_mod (textLen slotW imgH x y : Z) :
  1 <= slotW -> textLen * slotW <= maxInt ->
  0 <= y < imgH -> 0 <= x < textLen * slotW ->
  (x, y) ∈ guide_coords textLen slotW imgH <-> x mod slotW = 0.
Proof.
  intros Hs Hmax Hy Hx. unfold guide_coords. rewrite list_elem_of_bind. split.
  - intros (i & Hin & Hi). apply elem_of_upto in Hi.
    apply list_elem_of_bind in Hin as (y' & Hin & _).
    apply list_elem_of_singleton in Hin. injection Hin as -> _.
    unfold int_mul. rewrite wrapInt_id
      by (unfold is_int, minInt, maxInt in *; nia).
    apply Z.mod_mul. lia.
  - intros Hmod. exists (x / slotW).
    assert (Hdiv : x = slotW * (x / slotW)).
    { pose proof (Z.div_mod x slotW ltac:(lia)). lia. }
    assert (Hi : 0 <= x / slotW < textLen).
    { split; [apply Z.div_pos; lia|].
      apply Z.div_lt_upper_bound; lia. }
    split; [|apply elem_of_upto, Hi].
    apply list_elem_of_bind. exists y. split; [|apply elem_of_upto, Hy].
    apply list_elem_of_singleton. f_equal.
    unfold int_mul. rewrite wrapInt_id
      by (unfold is_int, minInt, maxInt in *; nia). lia.
Qed.

(** X1. The canvas [createImage] returns, pixel by pixel: with guidelines and
    a non-empty text the columns whose x is a multiple of the slot width,
    the left edge of every slot, have the guideline colour; every other
    pixel below 10^9 in both directions has the background colour, and
    beyond that, where the uniform source of [draw.Draw] ends, a pixel
    keeps the transparent black of the fresh image.  An empty text gets
    no guideline. *)
Theorem createImage_pixels (textLen slotW imgH : Z) (bg : Image)
    (rulerColor : Color) (g : bool) :
  is_int slotW -> is_int imgH -> 0 <= textLen -> 1 <= slotW -> 0 <= imgH ->
  textLen * slotW <= maxInt ->
  allocatable (Rect 0 0 (canvas_width textLen slotW) imgH) = true ->
  exists p,
    (forall w,
       createImage textLen slotW imgH bg rulerColor g w
       = (Ok (length (images w)), with_images (images w ++ [p]) w))
    /\ Bounds p
       = {| Min := Pt 0 0;
            Max := Pt (if textLen =? 0 then slotW else textLen * slotW) imgH |}
    /\ forall x y, In_rect x y (Bounds p) = true ->
         RGBAAt p x y
         = if g && (0 <? textLen) && (x mod slotW =? 0)
           then RGBAModel rulerColor
           else if (x <? 10 ^ 9) && (y <? 10 ^ 9)
                then RGBAModel (Image_color bg)
                else {| R := 0; G := 0; B := 0; A := 0 |}.
Proof.
  intros Hs Hh Ht Hs1 Hh0 Hmax Ha.
  pose proof (createImage_spec textLen slotW imgH bg rulerColor g Hs Hh)
    as Hcreate. cbv zeta in Hcreate.
  destruct (NewRGBA_allocatable _ Ha) as [p0 Hp0]. rewrite Hp0 in Hcreate.
  destruct Hcreate as (p & Hrun & Hwf & HB & Hat).
  pose proof (canvas_width_exact textLen slotW Ht Hs1 Hmax) as Hcw.
  assert (HB' : Bounds p
    = {| Min := Pt 0 0;
         Max := Pt (if textLen =? 0 then slotW else textLen * slotW) imgH |}).
  { rewrite HB, Hcw. unfold Rect.
    destruct (Z.ltb_spec (if textLen =? 0 then slotW else textLen * slotW) 0)
      as [Hneg|_].
    { destruct (textLen =? 0); nia. }
    destruct (Z.ltb_spec imgH 0); [lia | reflexivity]. }
  exists p. split; [exact Hrun|]. split; [exact HB'|].
  intros x y Hin. rewrite Hat by (rewrite <- HB; exact Hin).
  rewrite HB' in Hin. apply In_rect_spec in Hin. simpl in Hin.
  rewrite <- HB, HB'. cbn [Min].
  rewrite src_clip_origin by lia.
  destruct g; [|reflexivity]. rewrite !andb_true_l.
  destruct (Z.ltb_spec 0 textLen) as [Hpos | H0].
  - destruct (Z.eqb_spec textLen 0) as [|_]; [lia|]. rewrite andb_true_l.
    destruct (Z.eqb_spec (x mod slotW) 0) as [Hm | Hm].
    + rewrite bool_decide_eq_true_2; [reflexivity|].
      apply guide_coords_mod; [lia | lia | lia | lia | exact Hm].
    + rewrite bool_decide_eq_false_2; [reflexivity|].
      intros Hg. apply Hm.
      apply (guide_coords_mod textLen slotW imgH x y); [lia|lia|lia|lia|exact Hg].
  - assert (textLen = 0) as -> by lia. rewrite andb_false_l.
    rewrite bool_decide_eq_false_2; [reflexivity|].
    unfold guide_coords. simpl. apply not_elem_of_nil.
Qed.

(** X2. The canvas is empty exactly when the slot width or the height is 0:
    the guard on the width keeps it from being empty for an empty text,
    but not for a slot width of 0. *)
Theorem canvas_is_empty_iff (textLen slotW imgH : Z) (bg : Image)
    (rulerColor : Color) (g : bool) (w w' : World) (l : loc) :
  is_int slotW -> is_int imgH ->
  createImage textLen slotW imgH bg rulerColor g w = (Ok l, w') ->
  exists p, images w' !! l = Some p
    /\ (Empty (Bounds p) = true <-> slotW = 0 \/ imgH = 0).
Proof.
  intros Hs Hh Hrun.
  pose proof (createImage_spec textLen slotW imgH bg rulerColor g Hs Hh)
    as Hcreate. cbv zeta in Hcreate.
  destruct (NewRGBA _) as [p0|].
  2:{ destruct Hcreate as (msg & Hp). rewrite Hp in Hrun. discriminate. }
  destruct Hcreate as (p & Hp & Hwf & HB & _).
  rewrite Hp in Hrun. injection Hrun as <- <-.
  exists p. split.
  { destruct w; simpl. rewrite lookup_app_r, Nat.sub_diag by lia. reflexivity. }
  rewrite HB. rewrite <- (canvas_width_zero textLen slotW).
  unfold Empty, Rect.
  destruct (Z.ltb_spec (canvas_width textLen slotW) 0),
           (Z.ltb_spec imgH 0); simpl; rewrite orb_true_iff, !Z.leb_le; lia.
Qed.

End Canvas.

Section NegativeHeight.
Context `{L : Lib}.

(** X3. A negative height is accepted: [image.Rect] swaps the coordinates, the
    canvas has the rows from [imgH] to -1, and since the guideline loop
    counts up from 0 no guideline is drawn, with the flag or without: on
    a canvas of at most 10^9 pixels in each direction every pixel has the
    background colour. *)
Theorem negative_height_has_no_guidelines (textLen slotW imgH : Z)
    (bg : Image) (rulerColor : Color) (g : bool) (w w' : World) (l : loc) :
  is_int slotW -> is_int imgH -> - 10 ^ 9 <= imgH < 0 ->
  - 10 ^ 9 <= canvas_width textLen slotW <= 10 ^ 9 ->
  createImage textLen slotW imgH bg rulerColor g w = (Ok l, w') ->
  exists p, images w' !! l = Some p
    /\ Y (Min (Bounds p)) = imgH /\ Y (Max (Bounds p)) = 0
    /\ forall x y, In_rect x y (Bounds p) = true ->
         RGBAAt p x y = RGBAModel (Image_color bg).
Proof.
  intros Hs Hh Hneg Hcw Hrun.
  pose proof (createImage_spec textLen slotW imgH bg rulerColor g Hs Hh)
    as Hcreate. cbv zeta in Hcreate.
  destruct (NewRGBA _) as [p0|].
  2:{ destruct Hcreate as (msg & Hp). rewrite Hp in Hrun. discriminate. }
  destruct Hcreate as (p & Hp & Hwf & HB & Hat).
  rewrite Hp in Hrun. injection Hrun as <- <-.
  exists p. split.
  { destruct w; simpl. rewrite lookup_app_r, Nat.sub_diag by lia. reflexivity. }
  assert (HY : Y (Min (Bounds p)) = imgH /\ Y (Max (Bounds p)) = 0).
  { rewrite HB. unfold Rect.
    destruct (_ <? 0); destruct (Z.ltb_spec imgH 0); simpl; lia. }
  split; [exact (proj1 HY)|]. split; [exact (proj2 HY)|].
  intros x y Hin. rewrite HB in Hin. rewrite Hat by exact Hin.
  rewrite src_clip_covers
    by (assumption || (change (10 ^ 9) with 1000000000 in *; lia)).
  rewrite bool_decide_eq_false_2; [rewrite andb_false_r; reflexivity|].
  unfold guide_coords. intros Hel.
  apply list_elem_of_bind in Hel as (i & Hel & _).
  apply list_elem_of_bind in Hel as (y' & _ & Hy').
  apply elem_of_upto in Hy'. lia.
Qed.

End NegativeHeight.

Lemma X26_freetype_Pt (x y : Z) :
  - 2 ^ 25 <= x < 2 ^ 25 -> X26 (freetype_Pt x y) = 64 * x.
Proof.
  intros Hx. unfold freetype_Pt, int_shl. simpl.
  rewrite Z.shiftl_mul_pow2 by lia. change (2 ^ 6) with 64.
  rewrite wrapInt_id by (unfold is_int, minInt, maxInt; lia).
  rewrite wrapInt32_id by (unfold is_int32; lia). lia.
Qed.

Lemma Y26_freetype_Pt (x y : Z) :
  - 2 ^ 25 <= y < 2 ^ 25 -> Y26 (freetype_Pt x y) = 64 * y.
Proof.
  intros Hx. unfold freetype_Pt, int_shl. simpl.
  rewrite Z.shiftl_mul_pow2 by lia. change (2 ^ 6) with 64.
  rewrite wrapInt_id by (unfold is_int, minInt, maxInt; lia).
  rewrite wrapInt32_id by (unfold is_int32; lia). lia.
Qed.

(** Without overflow the draw point holds the position the source
    computes, in 64ths of a pixel. *)
Lemma draw_point_X (i slotW imgH advance : Z) :
  0 <= i -> 0 <= glyphWidthPx advance <= slotW -> (i + 1) * slotW < 2 ^ 25 ->
  X26 (draw_point i slotW imgH advance)
  = 64 * (i * slotW + (slotW / 2 - glyphWidthPx advance / 2)).
Proof.
  intros Hi Hg Hmax. set (gw := glyphWidthPx advance) in *.
  assert (Hs2 : 0 <= slotW / 2 <= slotW)
    by (split; [apply Z.div_pos; lia | apply Z.div_le_upper_bound; lia]).
  assert (Hg2 : 0 <= gw / 2 <= slotW / 2)
    by (split; [apply Z.div_pos; lia | apply Z.div_le_mono; lia]).
  assert (His : 0 <= i * slotW) by nia.
  unfold draw_point. fold gw. unfold int_add, int_sub, int_mul, int_div.
  rewrite !Z.quot_div_nonneg by lia.
  rewrite (wrapInt_id (slotW / 2)) by (unfold is_int, minInt, maxInt; lia).
  rewrite (wrapInt_id (gw / 2)) by (unfold is_int, minInt, maxInt; lia).
  rewrite (wrapInt_id (i * slotW)) by (unfold is_int, minInt, maxInt; lia).
  rewrite (wrapInt_id (slotW / 2 - gw / 2))
    by (unfold is_int, minInt, maxInt; lia).
  rewrite (wrapInt_id (i * slotW + _))
    by (unfold is_int, minInt, maxInt; lia).
  apply X26_freetype_Pt. lia.
Qed.

Lemma draw_point_Y (i slotW imgH advance : Z) :
  0 <= imgH < 2 ^ 25 ->
  Y26 (draw_point i slotW imgH advance) = 64 * (2 * imgH / 3).
Proof.
  intros Hh.
  pose proof (Z.div_mod (2 * imgH) 3 ltac:(lia)) as Hd.
  pose proof (Z.mod_pos_bound (2 * imgH) 3 ltac:(lia)) as Hm.
  unfold draw_point, int_div, int_mul.
  rewrite (wrapInt_id (imgH * 2)) by (unfold is_int, minInt, maxInt; lia).
  rewrite (Z.quot_div_nonneg (imgH * 2) 3) by lia.
  replace (imgH * 2) with (2 * imgH) by lia.
  rewrite (wrapInt_id (2 * imgH / 3)) by (unfold is_int, minInt, maxInt; lia).
  apply Y26_freetype_Pt. lia.
Qed.

Lemma centred_margins (s g : Z) :
  0 <= g <= s ->
  0 <= s / 2 - g / 2
  /\ (s / 2 - g / 2) + g <= s
  /\ -1 <= (s - ((s / 2 - g / 2) + g)) - (s / 2 - g / 2) <= 1.
Proof.
  intros Hg.
  assert (Hg2 : 0 <= g / 2 <= s / 2)
    by (split; [apply Z.div_pos; lia | apply Z.div_le_mono; lia]).
  pose proof (Z.div_mod s 2 ltac:(lia)) as Hds.
  pose proof (Z.mod_pos_bound s 2 ltac:(lia)) as Hms.
  pose proof (Z.div_mod g 2 ltac:(lia)) as Hdg.
  pose proof (Z.mod_pos_bound g 2 ltac:(lia)) as Hmg.
  lia.
Qed.

(* ================================================================== *)
(** * Iteration over the text *)
(* ================================================================== *)

Lemma byte_of_ascii_range (c : ascii) : byte (byte_of_ascii c).
Proof.
  unfold byte, byte_of_ascii. pose proof (N_ascii_bounded c). lia.
Qed.

Lemma bytes_of_string_range (s : string) : Forall byte (bytes_of_string s).
Proof.
  induction s as [|c s IH]; simpl; constructor;
    [apply byte_of_ascii_range | exact IH].
Qed.

Lemma length_bytes_of_string (s : string) :
  Z.of_nat (length (bytes_of_string s)) = len s.
Proof.
  unfold len. induction s as [|c s IH]; simpl; [reflexivity|].
  rewrite !Nat2Z.inj_succ. unfold len in IH. lia.
Qed.

Lemma lor_bound (a b n : Z) :
  0 <= n -> 0 <= a < 2 ^ n -> 0 <= b < 2 ^ n -> 0 <= Z.lor a b < 2 ^ n.
Proof.
  intros Hn Ha Hb.
  assert (H0 : 0 <= Z.lor a b) by (apply Z.lor_nonneg; lia).
  split; [exact H0|].
  destruct (Z.eq_dec (Z.lor a b) 0) as [-> | Hne];
    [apply Z.pow_pos_nonneg; lia|].
  apply Z.log2_lt_pow2; [lia|].
  rewrite Z.log2_lor by lia.
  destruct (Z.eq_dec a 0) as [-> | Ha0], (Z.eq_dec b 0) as [-> | Hb0].
  - simpl in Hne. contradiction.
  - rewrite Z.max_r by apply Z.log2_nonneg. apply Z.log2_lt_pow2; lia.
  - rewrite Z.max_l by apply Z.log2_nonneg. apply Z.log2_lt_pow2; lia.
  - apply Z.max_lub_lt; apply Z.log2_lt_pow2; lia.
Qed.

Lemma land_ones_bound (a n : Z) : 0 <= n -> 0 <= Z.land a (Z.ones n) < 2 ^ n.
Proof.
  intros Hn. rewrite Z.land_ones by exact Hn. apply Z.mod_pos_bound.
  apply Z.pow_pos_nonneg; lia.
Qed.

Lemma shiftl_bound (a n k : Z) :
  0 <= n -> 0 <= k -> 0 <= a < 2 ^ n -> 0 <= Z.shiftl a k < 2 ^ (n + k).
Proof.
  intros Hn Hk Ha. rewrite Z.shiftl_mul_pow2, Z.pow_add_r by lia.
  assert (0 < 2 ^ k) by (apply Z.pow_pos_nonneg; lia). nia.
Qed.

(** [decoderune] yields a Unicode scalar value. *)
Lemma decoderune_valid (s : list Z) : utf8.ValidRune (utf8.decoderune s).1 = true.
Proof.
  unfold utf8.decoderune.
  destruct s as [|s0 rest]; [reflexivity|].
  destruct ((utf8.t2 <=? s0) && (s0 <? utf8.t3)).
  { destruct rest as [|s1 rest]; [reflexivity|].
    destruct (utf8.cont s1); [|reflexivity]. cbv zeta.
    destruct (Z.ltb_spec utf8.rune1Max
                (Z.lor (Z.shiftl (Z.land s0 utf8.mask2) 6)
                       (Z.land s1 utf8.maskx))) as [Hlo|]; [|reflexivity].
    simpl fst.
    pose proof (land_ones_bound s0 5 ltac:(lia)) as H0.
    pose proof (land_ones_bound s1 6 ltac:(lia)) as H1.
    change (Z.ones 5) with utf8.mask2 in H0.
    change (Z.ones 6) with utf8.maskx in H1.
    pose proof (shiftl_bound _ 5 6 ltac:(lia) ltac:(lia) H0) as H0'.
    assert (H1' : 0 <= Z.land s1 utf8.maskx < 2 ^ 11) by lia.
    pose proof (lor_bound _ _ 11 ltac:(lia) H0' H1') as Hr.
    unfold utf8.ValidRune, utf8.surrogateMin, utf8.rune1Max in *.
    apply orb_true_iff. left. apply andb_true_iff.
    rewrite Z.leb_le, Z.ltb_lt. lia. }
  destruct ((utf8.t3 <=? s0) && (s0 <? utf8.t4)).
  { destruct rest as [|s1 [|s2 rest]]; [reflexivity|reflexivity|].
    destruct (utf8.cont s1 && utf8.cont s2); [|reflexivity]. cbv zeta.
    set (r := Z.lor _ _).
    destruct ((utf8.rune2Max <? r)
              && negb ((utf8.surrogateMin <=? r) && (r <=? utf8.surrogateMax)))
      eqn:Hc; [|reflexivity].
    simpl fst.
    pose proof (land_ones_bound s0 4 ltac:(lia)) as H0.
    pose proof (land_ones_bound s1 6 ltac:(lia)) as H1.
    pose proof (land_ones_bound s2 6 ltac:(lia)) as H2.
    change (Z.ones 4) with utf8.mask3 in H0.
    change (Z.ones 6) with utf8.maskx in H1, H2.
    pose proof (shiftl_bound _ 4 12 ltac:(lia) ltac:(lia) H0) as H0'.
    pose proof (shiftl_bound _ 6 6 ltac:(lia) ltac:(lia) H1) as H1'.
    assert (H1'' : 0 <= Z.shiftl (Z.land s1 utf8.maskx) 6 < 2 ^ 16)
      by (change (2 ^ (6 + 6)) with 4096 in H1'; lia).
    assert (H2' : 0 <= Z.land s2 utf8.maskx < 2 ^ 16) by lia.
    pose proof (lor_bound _ _ 16 ltac:(lia) H0' H1'') as Hr1.
    pose proof (lor_bound _ _ 16 ltac:(lia) Hr1 H2') as Hr.
    fold r in Hr.
    apply andb_true_iff in Hc as [Hlo Hsur].
    apply Z.ltb_lt in Hlo. apply negb_true_iff, andb_false_iff in Hsur.
    unfold utf8.ValidRune, utf8.surrogateMin, utf8.surrogateMax,
      utf8.MaxRune, utf8.rune2Max in *.
    rewrite Z.leb_gt, Z.leb_gt in Hsur.
    apply orb_true_iff. rewrite !andb_true_iff, !Z.leb_le, !Z.ltb_lt. lia. }
  destruct ((utf8.t4 <=? s0) && (s0 <? utf8.t5)); [|reflexivity].
  destruct rest as [|s1 [|s2 [|s3 rest]]]; try reflexivity.
  destruct (utf8.cont s1 && utf8.cont s2 && utf8.cont s3); [|reflexivity].
  cbv zeta. set (r := Z.lor _ _).
  destruct ((utf8.rune3Max <? r) && (r <=? utf8.MaxRune)) eqn:Hc;
    [|reflexivity].
  simpl fst. apply andb_true_iff in Hc as [Hlo Hhi].
  apply Z.ltb_lt in Hlo. apply Z.leb_le in Hhi.
  unfold utf8.ValidRune, utf8.surrogateMin, utf8.surrogateMax,
    utf8.MaxRune, utf8.rune3Max in *.
  apply orb_true_iff. rewrite !andb_true_iff, !Z.leb_le, !Z.ltb_lt. lia.
Qed.

(** The pairs of [range]: offsets inside the string, going up; runes that
    are scalar values. *)
Lemma range_bytes_spec (n : nat) :
  forall (s : list Z) (k : Z), (length s <= n)%nat -> Forall byte s ->
    Forall (fun ir => k <= ir.1 < k + Z.of_nat (length s)
                      /\ utf8.ValidRune ir.2 = true)
           (utf8.range_bytes k s)
    /\ (length (utf8.range_bytes k s) <= length s)%nat.
Proof.
  induction n as [|n IH]; intros s k Hlen Hb.
  { destruct s; [|simpl in Hlen; lia]. simpl. split; [constructor | lia]. }
  destruct s as [|s0 s1]; [simpl; split; [constructor | lia]|].
  simpl in Hlen. inversion Hb as [|? ? Hb0 Hb1]; subst.
  assert (Hrec : forall (j : nat) (t : list Z), Forall byte t ->
            (length t <= length s1)%nat -> (0 < j)%nat ->
            Z.of_nat j + Z.of_nat (length t) <= 1 + Z.of_nat (length s1) ->
            forall r, utf8.ValidRune r = true ->
            Forall (fun ir => k <= ir.1 < k + Z.of_nat (length (s0 :: s1))
                              /\ utf8.ValidRune ir.2 = true)
                   ((k, r) :: utf8.range_bytes (k + Z.of_nat j) t)
            /\ (length ((k, r) :: utf8.range_bytes (k + Z.of_nat j) t)
                <= length (s0 :: s1))%nat).
  { intros j t Ht Hlt Hj Hsum r Hr.
    destruct (IH t (k + Z.of_nat j) ltac:(lia) Ht) as [HF HL].
    split.
    - constructor.
      + simpl. split; [lia | exact Hr].
      + eapply Forall_impl; [exact HF|].
        intros [i r'] [Hi Hv]. simpl in *. split; [lia | exact Hv].
    - simpl. lia. }
  cbn [utf8.range_bytes].
  destruct (Z.ltb_spec s0 utf8.RuneSelf) as [Hascii | Hhigh].
  { apply (Hrec 1%nat s1 Hb1); [lia | lia | lia|].
    unfold byte in Hb0. unfold utf8.ValidRune, utf8.RuneSelf,
      utf8.surrogateMin in *.
    apply orb_true_iff. left. apply andb_true_iff.
    rewrite Z.leb_le, Z.ltb_lt. lia. }
  pose proof (decoderune_valid (s0 :: s1)) as Hv.
  destruct (utf8.decoderune (s0 :: s1)) as [r wd]. simpl in Hv.
  assert (H1 := Hrec 1%nat s1 Hb1 ltac:(lia) ltac:(lia) ltac:(lia) r Hv).
  destruct wd as [|[|[|[|[|wd]]]]]; try exact H1.
  - destruct s1 as [|b1 s2]; [exact H1|].
    inversion Hb1; subst.
    apply (Hrec 2%nat s2); [assumption | simpl; lia | lia | simpl; lia | exact Hv].
  - destruct s1 as [|b1 [|b2 s3]]; try exact H1.
    inversion Hb1 as [|? ? ? Hb2]; subst. inversion Hb2; subst.
    apply (Hrec 3%nat s3); [assumption | simpl; lia | lia | simpl; lia | exact Hv].
  - destruct s1 as [|b1 [|b2 [|b3 s4]]]; try exact H1.
    inversion Hb1 as [|? ? ? Hb2]; subst. inversion Hb2 as [|? ? ? Hb3]; subst.
    inversion Hb3; subst.
    apply (Hrec 4%nat s4); [assumption | simpl; lia | lia | simpl; lia | exact Hv].
Qed.

Lemma range_bytes_sorted (n : nat) :
  forall (s : list Z) (k : Z), (length s <= n)%nat -> Forall byte s ->
    StronglySorted Z.lt (utf8.range_bytes k s).*1.
Proof.
  induction n as [|n IH]; intros s k Hlen Hb.
  { destruct s; [|simpl in Hlen; lia]. constructor. }
  destruct s as [|s0 s1]; [constructor|].
  simpl in Hlen. inversion Hb as [|? ? Hb0 Hb1]; subst.
  assert (Hrec : forall (j : nat) (t : list Z) r, Forall byte t ->
            (length t <= length s1)%nat -> (0 < j)%nat ->
            StronglySorted Z.lt
              ((k, r) :: utf8.range_bytes (k + Z.of_nat j) t).*1).
  { intros j t r Ht Hlt Hj. rewrite fmap_cons. constructor.
    - apply IH; [lia | exact Ht].
    - destruct (range_bytes_spec (length t) t (k + Z.of_nat j)
                  ltac:(lia) Ht) as [HF _].
      apply Forall_fmap. eapply Forall_impl; [exact HF|].
      intros [i r'] [Hi _]. simpl in *. lia. }
  cbn [utf8.range_bytes].
  destruct (s0 <? utf8.RuneSelf).
  { apply (Hrec 1%nat s1); [assumption | lia | lia]. }
  destruct (utf8.decoderune (s0 :: s1)) as [r wd].
  assert (H1 := Hrec 1%nat s1 r Hb1 ltac:(lia) ltac:(lia)).
  destruct wd as [|[|[|[|[|wd]]]]]; try exact H1.
  - destruct s1 as [|b1 s2]; [exact H1|].
    inversion Hb1; subst.
    apply (Hrec 2%nat s2); [assumption | simpl; lia | lia].
  - destruct s1 as [|b1 [|b2 s3]]; try exact H1.
    inversion Hb1 as [|? ? ? Hb2]; subst. inversion Hb2; subst.
    apply (Hrec 3%nat s3); [assumption | simpl; lia | lia].
  - destruct s1 as [|b1 [|b2 [|b3 s4]]]; try exact H1.
    inversion Hb1 as [|? ? ? Hb2]; subst. inversion Hb2 as [|? ? ? Hb3]; subst.
    inversion Hb3; subst.
    apply (Hrec 4%nat s4); [assumption | simpl; lia | lia].
Qed.

Lemma range_bytes_ascii (s : list Z) (k : Z) :
  Forall (fun b => b < utf8.RuneSelf) s ->
  utf8.range_bytes k s = imap (fun i b => (k + Z.of_nat i, b)) s.
Proof.
  revert k. induction s as [|b s IH]; intros k Hs; [reflexivity|].
  inversion Hs as [|? ? Hb Hs']; subst. cbn [utf8.range_bytes imap].
  destruct (Z.ltb_spec b utf8.RuneSelf); [|lia].
  rewrite Z.add_0_r. f_equal. rewrite IH by exact Hs'.
  apply imap_ext. intros i x _. simpl. f_equal. lia.
Qed.

Lemma norm_rune_valid (r : Z) : utf8.ValidRune r = true -> norm_rune r = r.
Proof. unfold norm_rune. intros ->. reflexivity. Qed.

Lemma range_string_elem (t : string) (i r : Z) :
  (i, r) ∈ range_string t -> 0 <= i < len t /\ utf8.ValidRune r = true.
Proof.
  unfold range_string. intros Hin.
  pose proof (bytes_of_string_range t) as Hb.
  destruct (range_bytes_spec _ (bytes_of_string t) 0 (le_n _) Hb) as [HF _].
  rewrite Forall_forall in HF. destruct (HF (i, r) Hin) as [Hi Hv].
  rewrite <- length_bytes_of_string. simpl in *. split; [lia | exact Hv].
Qed.

(** X6. On a text of ASCII characters the loop of [renderText] meets one
    character per byte, at the offset that is its index: the byte count
    [main] sizes the canvas by is the character count. *)
Theorem ascii_text_one_slot_per_character (t : string) :
  Forall (fun b => b < utf8.RuneSelf) (bytes_of_string t) ->
  range_string t = imap (fun i b => (Z.of_nat i, b)) (bytes_of_string t)
  /\ RuneCountInString t = len t.
Proof.
  intros Hascii. unfold RuneCountInString, range_string.
  rewrite range_bytes_ascii by exact Hascii. split.
  - apply imap_ext. intros i x _. reflexivity.
  - rewrite length_imap. apply length_bytes_of_string.
Qed.

(** X7. For every text, the byte offsets that the loop of [renderText] takes
    as slot indices go up strictly and stay below [len(text)], the count
    [main] sizes the canvas by; every rune of the loop is a Unicode
    scalar value, and its conversion to a string, which is what is drawn,
    holds that rune and nothing else. *)
Theorem range_offsets_and_runes (t : string) :
  (forall i r, (i, r) ∈ range_string t ->
     0 <= i < len t /\ utf8.ValidRune r = true
     /\ range_string (string_of_rune r) = [(0, r)])
  /\ StronglySorted Z.lt (range_string t).*1
  /\ RuneCountInString t <= len t.
Proof.
  unfold RuneCountInString, range_string.
  pose proof (bytes_of_string_range t) as Hb.
  destruct (range_bytes_spec _ (bytes_of_string t) 0 (le_n _) Hb) as [HF HL].
  rewrite <- length_bytes_of_string. split; [|split].
  - intros i r Hin.
    destruct (range_string_elem t i r Hin) as [Hi Hv].
    rewrite <- length_bytes_of_string in Hi.
    split; [exact Hi|]. split; [exact Hv|].
    pose proof (range_string_of_rune r) as Hr. unfold range_string in Hr.
    rewrite Hr, norm_rune_valid by exact Hv. reflexivity.
  - apply (range_bytes_sorted _ _ 0 (le_n _) Hb).
  - lia.
Qed.

(* ================================================================== *)
(** * Every run of the program *)
(* ================================================================== *)

Section Outcome.
Context `{L : Lib}.

Lemma NewRGBA_Some_allocatable (r : Rectangle) (p : RGBA) :
  NewRGBA r = Some p -> allocatable r = true.
Proof.
  unfold allocatable, NewRGBA. cbv zeta.
  destruct (mul3NonNeg 4 (Dx r) (Dy r) <? 0); [discriminate|].
  destruct (maxAlloc <? mul3NonNeg 4 (Dx r) (Dy r));
    [discriminate | reflexivity].
Qed.

Lemma NewRGBA_None_allocatable (r : Rectangle) :
  NewRGBA r = None -> allocatable r = false.
Proof.
  unfold allocatable, NewRGBA. cbv zeta.
  destruct (mul3NonNeg 4 (Dx r) (Dy r) <? 0); [reflexivity|].
  destruct (maxAlloc <? mul3NonNeg 4 (Dx r) (Dy r));
    [reflexivity | discriminate].
Qed.

(** [png.Encode] refuses an image with an empty or oversized dimension
    before it writes anything. *)
Lemma png_Encode_refuses (b : bufio_Writer) (l : loc) (w : World) (p : RGBA) :
  images w !! l = Some p -> png_size_ok p = false ->
  exists e, png_Encode b l w = (Ok (b, Some e), w).
Proof.
  intros Hl Hbad. unfold png_Encode.
  rewrite (bind_ok _ _ _ _ _ (get_image_ok l w p Hl)).
  unfold png_size_ok, png_rect_ok in Hbad. apply negb_false_iff in Hbad.
  rewrite Hbad. eexists. reflexivity.
Qed.

(** Every run of [main], case by case. *)
Lemma main_outcome (fl : Flags) (w : World) :
  is_int (slotWidth fl) -> is_int (imageHeight fl) ->
  let r := Rect 0 0 (canvas_width (len (text fl)) (slotWidth fl))
                (imageHeight fl) in
  let rs := range_string (text fl) in
  let out := outFile fl in
  let pre := load_lines (verbose fl) (fontfile fl) in
  (exists e, read_file w (fontfile fl) = inr e /\
     main fl w
     = (Exit 1,
        with_output
          (output w ++ pre ++ [fatal_line "Error reading font file: %v" e]) w))
  \/ (exists b e, read_file w (fontfile fl) = inl b /\
        truetype_Parse b = inr e /\
        main fl w
        = (Exit 1,
           with_output
             (output w ++ pre ++ [fatal_line "Error parsing font: %v" e]) w))
  \/ (exists b f, read_file w (fontfile fl) = inl b /\
        truetype_Parse b = inl f /\
        let c := base_context f (dpi fl) (fontSize fl) r
                   (getColors (wonb fl)).1.1 (hinting fl) in
        let lines := pre ++ (rs ≫= rune_lines c f (slotWidth fl)
                                     (imageHeight fl) (dpi fl) (fontSize fl)
                                     (verbose fl)) in
        let calls := rs ≫= rune_calls f (slotWidth fl) (imageHeight fl)
                                      (dpi fl) (fontSize fl) in
        (allocatable r = false /\
         exists msg, main fl w = (Panic msg, with_output (output w ++ pre) w))
        \/ (allocatable r = true /\
            exists p' res w',
              main fl w = (res, w') /\ wf p' /\ Bounds p' = r /\
              images w' = images w ++ [p'] /\
              draws w' = draws w ++ calls /\
              ((res = Ok tt /\ create_fault w out = None /\
                png_rect_ok r = true /\
                files w' = <[out := png_bytes p']> (files w) /\
                opened w' = opened w /\
                output w' = output w ++ lines ++ done_lines (verbose fl) out)
               \/ (res = Exit 1 /\
                   exists e, create_fault w out = Some e /\
                     files w' = files w /\ opened w' = opened w /\
                     output w'
                     = output w ++ lines
                         ++ [fatal_line "Error creating output file: %v" e])
               \/ (res = Exit 1 /\ create_fault w out = None /\
                   exists fmt e written,
                     ((png_rect_ok r = false /\
                       fmt = "Error encoding PNG: %v"%string /\
                       written = [])
                      \/ (png_rect_ok r = true /\
                          is_Some (write_fault w out) /\
                          (fmt = "Error encoding PNG: %v"%string \/
                           fmt = "Error flushing buffer: %v"%string))) /\
                     written `prefix_of` png_bytes p' /\
                     files w' = <[out := written]> (files w) /\
                     opened w' = out :: opened w /\
                     output w' = output w ++ lines ++ [fatal_line fmt e])))).
Proof.
  intros Hs Hh r rs out pre.
  pose proof (loadFont_run (fontfile fl) (verbose fl) w) as Hload.
  destruct (read_file w (fontfile fl)) as [b|e] eqn:Hr.
  2:{ left. exists e. split; [reflexivity|]. unfold main.
      apply bind_exit. exact Hload. }
  destruct (truetype_Parse b) as [f|e] eqn:Hp.
  2:{ right. left. exists b, e. split; [reflexivity|]. split; [exact Hp|].
      unfold main. apply bind_exit. exact Hload. }
  right. right. exists b, f. split; [reflexivity|]. split; [exact Hp|].
  cbv zeta.
  pose proof (main_run fl f Hs Hh) as Hrun. cbv zeta in Hrun.
  fold r rs in Hrun.
  destruct (NewRGBA r) as [p0|] eqn:Hnew.
  2:{ left. split; [exact (NewRGBA_None_allocatable r Hnew)|].
      destruct Hrun as (msg & Hrun). exists msg. apply Hrun. exact Hload. }
  right. split; [exact (NewRGBA_Some_allocatable r p0 Hnew)|].
  destruct Hrun as (p & p' & Hwf & HB & Hun & Hrun).
  rewrite (Hrun _ _ Hload). clear Hrun.
  set (w1 := with_output _ w).
  set (lines := rs ≫= _). set (calls := rs ≫= _).
  set (w3 := render_world _ _ _ _ _).
  assert (HB' : Bounds p' = r) by (rewrite (proj1 (proj2 Hun)); exact HB).
  assert (Hl : images w3 !! length (images w1) = Some p').
  { unfold w3. apply render_world_lookup with (p := p).
    autorewrite with world.
    rewrite lookup_app_r, Nat.sub_diag by lia. reflexivity. }
  assert (Himg : images w3 = images w ++ [p']).
  { unfold w3, render_world, w1. autorewrite with world.
    rewrite insert_app_r_alt, Nat.sub_diag by lia. reflexivity. }
  assert (Hdr : draws w3 = draws w ++ calls).
  { unfold w3, render_world, w1. autorewrite with world. reflexivity. }
  assert (Hout : output w3 = output w ++ pre ++ lines).
  { unfold w3, render_world, w1. autorewrite with world.
    rewrite <- app_assoc. reflexivity. }
  assert (Hfi : files w3 = files w)
    by (unfold w3, render_world, w1; autorewrite with world; reflexivity).
  assert (Hop : opened w3 = opened w)
    by (unfold w3, render_world, w1; autorewrite with world; reflexivity).
  assert (Hcf : create_fault w3 = create_fault w)
    by (unfold w3, render_world, w1; autorewrite with world; reflexivity).
  assert (Hwf' : write_fault w3 = write_fault w)
    by (unfold w3, render_world, w1; autorewrite with world; reflexivity).
  change (length (images w1)) with (length (images w)) in *.
  clearbody w3. clear w1 Hload.
  destruct (create_fault w out) as [e|] eqn:Hc.
  { destruct (saveImage_cases out _ w3 p' Hl)
      as [(Hc' & _) | [(e' & Hc' & Hsave) | (? & ? & ? & _ & Hc' & _)]];
      rewrite Hcf, Hc in Hc'; try discriminate.
    injection Hc' as <-.
    eexists p', _, _. split; [apply bind_exit, Hsave|].
    split; [exact (proj1 Hun)|]. split; [exact HB'|].
    autorewrite with world. split; [exact Himg|]. split; [exact Hdr|].
    right. left. split; [reflexivity|]. exists e.
    split; [reflexivity|]. split; [exact Hfi|]. split; [exact Hop|].
    rewrite Hout, <- !app_assoc. reflexivity. }
  destruct (png_rect_ok r) eqn:Hpng.
  - destruct (saveImage_cases out _ w3 p' Hl)
      as [(_ & _ & Hsave) | [(e' & Hc' & _)
         | (fmt & e & written & Hfmt & _ & Hbad & Hpre & Hsave)]].
    + exists p', (Ok tt),
        (with_output (output w3 ++ done_lines (verbose fl) out)
           (with_files (<[out := png_bytes p']> (files w3)) w3)).
      split.
      { rewrite (bind_ok _ _ _ _ _ Hsave). unfold when, fmt_Printf, emit, ret.
        unfold done_lines. destruct (verbose fl).
        - reflexivity.
        - rewrite app_nil_r. reflexivity. }
      split; [exact (proj1 Hun)|]. split; [exact HB'|].
      autorewrite with world. split; [exact Himg|]. split; [exact Hdr|].
      left. split; [reflexivity|]. split; [reflexivity|].
      split; [reflexivity|]. rewrite Hfi, Hop, Hout, <- !app_assoc.
      split; [reflexivity|]. split; reflexivity.
    + rewrite Hcf, Hc in Hc'. discriminate.
    + eexists p', _, _. split; [apply bind_exit, Hsave|].
      split; [exact (proj1 Hun)|]. split; [exact HB'|].
      autorewrite with world. split; [exact Himg|]. split; [exact Hdr|].
      right. right. split; [reflexivity|]. split; [reflexivity|].
      exists fmt, e, written. split.
      { right. split; [reflexivity|]. split; [|exact Hfmt].
        destruct Hbad as [[Hbad _] | Hbad].
        - unfold png_size_ok in Hbad. rewrite HB' in Hbad. congruence.
        - rewrite Hwf' in Hbad. exact Hbad. }
      split; [exact Hpre|].
      rewrite Hfi, Hop, Hout, <- !app_assoc.
      split; [reflexivity|]. split; reflexivity.
  - set (w1 := with_opened (out :: opened w3)
                 (with_files (<[out := []]> (files w3)) w3)).
    assert (Hl1 : images w1 !! length (images w) = Some p') by exact Hl.
    assert (Hbad : png_size_ok p' = false)
      by (unfold png_size_ok; rewrite HB'; exact Hpng).
    destruct (png_Encode_refuses (bufio_NewWriter {| f_name := out |}) _ w1 p'
                Hl1 Hbad) as (e & Henc).
    pose proof (proj1 (proj2 (saveImage_steps out _ w3)) _ e _
                  ltac:(rewrite Hcf; exact Hc) Henc) as Hsave.
    eexists p', _, _. split; [apply bind_exit, Hsave|].
    split; [exact (proj1 Hun)|]. split; [exact HB'|].
    unfold w1. autorewrite with world.
    split; [exact Himg|]. split; [exact Hdr|].
    right. right. split; [reflexivity|]. split; [reflexivity|].
    exists "Error encoding PNG: %v"%string, e, [].
    split; [left; split; [|split]; reflexivity|].
    split; [apply prefix_nil|].
    rewrite Hfi, Hop, Hout, <- !app_assoc.
    split; [reflexivity|]. split; reflexivity.
Qed.

End Outcome.

Section MainProperties.
Context `{L : Lib}.

Lemma empty_canvas_png_rect (textLen slotW imgH : Z) :
  slotW = 0 \/ imgH = 0 ->
  png_rect_ok (Rect 0 0 (canvas_width textLen slotW) imgH) = false.
Proof.
  intros H. unfold png_rect_ok. apply negb_false_iff.
  destruct H as [-> | ->].
  - assert (canvas_width textLen 0 = 0) as ->.
    { unfold canvas_width, int_mul. rewrite Z.mul_0_r. reflexivity. }
    unfold Rect. simpl. destruct (imgH <? 0); reflexivity.
  - unfold Rect. simpl. destruct (_ <? 0); simpl; rewrite orb_true_r;
      reflexivity.
Qed.

(** X12. With a slot width of 0 or a height of 0 the canvas is empty and the
    PNG encoder refuses it: once the font is loaded and the output file
    created, [main] ends with exit status 1 on "Error encoding PNG", and
    the output file is left empty, whatever it held before. *)
Theorem empty_canvas_is_a_fatal_encoding_error (fl : Flags) (w : World)
    (b : list Z) (f : Font) :
  is_int (slotWidth fl) -> is_int (imageHeight fl) ->
  slotWidth fl = 0 \/ imageHeight fl = 0 ->
  allocatable (Rect 0 0 (canvas_width (len (text fl)) (slotWidth fl))
                    (imageHeight fl)) = true ->
  read_file w (fontfile fl) = inl b -> truetype_Parse b = inl f ->
  create_fault w (outFile fl) = None ->
  exists e w',
    main fl w = (Exit 1, w')
    /\ files w' = <[outFile fl := []]> (files w)
    /\ last (output w') = Some (fatal_line "Error encoding PNG: %v" e).
Proof.
  intros Hs Hh Hzero Ha Hr Hp Hc.
  pose proof (empty_canvas_png_rect (len (text fl)) _ _ Hzero) as Hpng.
  destruct (main_outcome fl w Hs Hh)
    as [(e & Hr' & _) | [(b' & e & Hr' & Hp' & _)
       | (b' & f' & Hr' & Hp' & Hcases)]]; try congruence.
  destruct Hcases as [(Ha' & _) | (_ & p' & res & w' & Hmain & _ & _ & _ & _
                                   & Hend)]; [congruence|].
  destruct Hend as [(_ & _ & Hpng' & _) | [(_ & e & Hc' & _)
     | (-> & _ & fmt & e & written & Hwhy & _ & Hfiles & _ & Hout)]];
    try congruence.
  destruct Hwhy as [(_ & -> & ->) | (Hpng' & _)]; [|congruence].
  exists e, w'. split; [exact Hmain|]. split; [exact Hfiles|].
  rewrite Hout, !app_assoc. apply last_snoc.
Qed.

(** X13. Whatever the outcome, [main] changes no file but the one named by
    the [-out] flag. *)
Theorem main_changes_no_other_file (fl : Flags) (w : World) (path : string) :
  is_int (slotWidth fl) -> is_int (imageHeight fl) ->
  path <> outFile fl ->
  files (main fl w).2 !! path = files w !! path.
Proof.
  intros Hs Hh Hne.
  destruct (main_outcome fl w Hs Hh)
    as [(e & _ & ->) | [(b' & e & _ & _ & ->)
       | (b' & f' & _ & _ & Hcases)]]; try reflexivity.
  destruct Hcases as [(_ & msg & ->) | (_ & p' & res & w' & -> & _ & _ & _ & _
                                        & Hend)]; [reflexivity|].
  simpl snd.
  destruct Hend as [(_ & _ & _ & -> & _) | [(_ & e & _ & -> & _)
     | (_ & _ & fmt & e & written & _ & _ & -> & _)]].
  - apply lookup_insert_ne. congruence.
  - reflexivity.
  - apply lookup_insert_ne. congruence.
Qed.

(** X14. [main] panics in one case only: the font is loaded and the canvas is
    too large to allocate, its buffer longer than an int holds or than
    [make] accepts (the machine is taken to have the memory for every
    length [make] accepts).  Then nothing was created or written.  In
    every other case the process ends with status 0 or 1. *)
Theorem main_panics_only_on_allocation (fl : Flags) (w : World) :
  is_int (slotWidth fl) -> is_int (imageHeight fl) ->
  let r := Rect 0 0 (canvas_width (len (text fl)) (slotWidth fl))
                (imageHeight fl) in
  ((exists msg, (main fl w).1 = Panic msg)
   <-> (exists b f, read_file w (fontfile fl) = inl b
                    /\ truetype_Parse b = inl f)
       /\ allocatable r = false)
  /\ (forall msg, (main fl w).1 = Panic msg ->
        files (main fl w).2 = files w /\ opened (main fl w).2 = opened w
        /\ images (main fl w).2 = images w)
  /\ (exit_status (main fl w).1 = 0 \/ exit_status (main fl w).1 = 1
      \/ exists msg, (main fl w).1 = Panic msg).
Proof.
  intros Hs Hh r.
  destruct (main_outcome fl w Hs Hh)
    as [(e & Hr & Hm) | [(b' & e & Hr & Hp & Hm)
       | (b' & f' & Hr & Hp & Hcases)]].
  - rewrite Hm. simpl. split; [|split].
    + split; [intros (? & ?); discriminate|].
      intros ((b & f & Hr' & _) & _). congruence.
    + intros; discriminate.
    + right. left. reflexivity.
  - rewrite Hm. simpl. split; [|split].
    + split; [intros (? & ?); discriminate|].
      intros ((b & f & Hr' & Hp') & _). congruence.
    + intros; discriminate.
    + right. left. reflexivity.
  - destruct Hcases as [(Ha & msg & Hm) | (Ha & p' & res & w' & Hm & _ & _ & _
                                           & _ & Hend)].
    + rewrite Hm. simpl. split; [|split].
      * split; [|intros _; eauto].
        intros _. split; [eauto | exact Ha].
      * intros _ _. split; [reflexivity|]. split; reflexivity.
      * right. right. eauto.
    + rewrite Hm. simpl. fold r in Ha.
      assert (Hres : res = Ok tt \/ res = Exit 1).
      { destruct Hend as [(-> & _) | [(-> & _) | (-> & _)]]; auto. }
      split; [|split].
      * split; [intros (? & ?); destruct Hres; congruence|].
        intros (_ & Ha'). congruence.
      * intros msg Hm'. destruct Hres; congruence.
      * destruct Hres as [-> | ->]; simpl; auto.
Qed.

Lemma rune_lines_quiet (c : Context) (f : Font) (slotW imgH : Z)
    (dpi size : float64) (rs : list (Z * Z)) :
  Forall (fun l => stream l = Stderr)
         (rs ≫= rune_lines c f slotW imgH dpi size false).
Proof.
  apply Forall_forall. intros l Hl.
  apply list_elem_of_bind in Hl as (ir & Hl & _).
  unfold rune_lines, width_lines in Hl.
  destruct (Face_GlyphAdvance f size dpi ir.2).
  - simpl in Hl. destruct (draw_error _ _ _).
    + apply list_elem_of_singleton in Hl. subst. reflexivity.
    + apply elem_of_nil in Hl. contradiction.
  - apply list_elem_of_singleton in Hl. subst. reflexivity.
Qed.

(** X15. Without [-verbose] nothing is ever written to standard output,
    however the run ends: every line printed is a warning or an error on
    standard error. *)
Theorem nothing_on_stdout_unless_verbose (fl : Flags) (w : World) :
  is_int (slotWidth fl) -> is_int (imageHeight fl) ->
  verbose fl = false ->
  exists ls, output (main fl w).2 = output w ++ ls
    /\ Forall (fun l => stream l = Stderr) ls.
Proof.
  intros Hs Hh Hv.
  destruct (main_outcome fl w Hs Hh)
    as [(e & _ & ->) | [(b' & e & _ & _ & ->)
       | (b' & f' & _ & _ & Hcases)]].
  - eexists. simpl. split; [reflexivity|]. rewrite Hv. simpl.
    repeat constructor.
  - eexists. simpl. split; [reflexivity|]. rewrite Hv. simpl.
    repeat constructor.
  - cbv zeta in Hcases. rewrite Hv in Hcases.
    destruct Hcases as [(_ & msg & ->) | (_ & p' & res & w' & -> & _ & _ & _
                                          & _ & Hend)].
    + exists []. simpl. split; [reflexivity | constructor].
    + simpl snd. simpl app in Hend.
      destruct Hend as [(_ & _ & _ & _ & _ & ->) | [(_ & e & _ & _ & _ & ->)
         | (_ & _ & fmt & e & written & _ & _ & _ & _ & ->)]];
        (eexists; split; [reflexivity|]).
      * simpl. rewrite app_nil_r. apply rune_lines_quiet.
      * apply Forall_app. split; [apply rune_lines_quiet|].
        repeat constructor.
      * apply Forall_app. split; [apply rune_lines_quiet|].
        repeat constructor.
Qed.

End MainProperties.

Section Steps.
Context `{L : Lib}.

(** X11. [saveImage] on an image the encoder accepts, when the operating
    system refuses nothing: the file holds the PNG of the image and
    nothing else, whatever it held before; the deferred [Close] has run;
    nothing is printed.  And [saveImage] returns only if the file was
    created and the image accepted. *)
Theorem saveImage_writes_the_png_and_closes (path : string) (l : loc)
    (w : World) (p : RGBA) :
  images w !! l = Some p ->
  (create_fault w path = None -> png_size_ok p = true ->
   write_fault w path = None ->
   saveImage path l w
   = (Ok tt, with_files (<[path := png_bytes p]> (files w)) w))
  /\ (forall w', saveImage path l w = (Ok tt, w') ->
        create_fault w path = None /\ png_size_ok p = true
        /\ files w' !! path = Some (png_bytes p)
        /\ opened w' = opened w /\ output w' = output w).
Proof.
  intros Hl.
  destruct (saveImage_cases path l w p Hl)
    as [(Hc & Hpng & Hsave) | [(e & Hc & Hsave)
       | (fmt & e & pre & _ & Hc & Hbad & _ & Hsave)]].
  - split; [intros _ _ _; exact Hsave|].
    intros w' Hw'. rewrite Hsave in Hw'. injection Hw' as <-.
    split; [exact Hc|]. split; [exact Hpng|]. autorewrite with world.
    split; [apply lookup_insert_eq|]. split; reflexivity.
  - split; [congruence|]. intros w' Hw'. congruence.
  - split; [|intros w' Hw'; congruence].
    intros _ Hpng Hw. exfalso.
    destruct Hbad as [[Hbad _] | [e' Hbad]]; congruence.
Qed.

(** X10. [loadFont] touches nothing but the two output streams: files, open
    files, images and drawing calls are as before, however it ends.  It
    returns the font exactly when the file can be read and parses, and
    otherwise exits with status 1; it never panics. *)
Theorem loadFont_only_reads_and_prints (path : string) (verb : bool)
    (w : World) :
  let r := loadFont path verb w in
  files r.2 = files w /\ opened r.2 = opened w /\ images r.2 = images w
  /\ draws r.2 = draws w
  /\ (forall f, r.1 = Ok f
        <-> exists b, read_file w path = inl b /\ truetype_Parse b = inl f)
  /\ (r.1 = Exit 1
        <-> (exists e, read_file w path = inr e)
            \/ (exists b e, read_file w path = inl b
                            /\ truetype_Parse b = inr e)).
Proof.
  cbv zeta. rewrite loadFont_run.
  destruct (read_file w path) as [b|e].
  - destruct (truetype_Parse b) as [f|e] eqn:Hp; simpl;
      (split; [reflexivity|]); (split; [reflexivity|]);
      (split; [reflexivity|]); (split; [reflexivity|]); split.
    + intros f'. split.
      * intros [= <-]. exists b. split; [reflexivity | exact Hp].
      * intros (b' & [= <-] & Hp'). congruence.
    + split; [discriminate|].
      intros [(e & He) | (b' & e & [= <-] & Hp')]; congruence.
    + intros f'. split; [discriminate|].
      intros (b' & [= <-] & Hp'). congruence.
    + split; [|reflexivity]. intros _. right. exists b, e.
      split; [reflexivity | exact Hp].
  - simpl. repeat (split; [reflexivity|]). split.
    + intros f. split; [discriminate | intros (b & Hb & _); discriminate].
    + split; [|reflexivity]. intros _. left. exists e. reflexivity.
Qed.

End Steps.

Section Placement.
Context `{L : Lib}.

Lemma renderRune_draws (c : Context) (src : Image) (f : Font)
    (slotW imgH : Z) (dpi size : float64) (verb : bool) (i r advance : Z)
    (p : RGBA) (l : loc) (w : World) :
  c_src c = Some src -> wf p -> images w !! l = Some p ->
  Face_GlyphAdvance f size dpi r = Some advance ->
  draws (renderRune (SetDst l c) f slotW imgH dpi size verb (i, r) w).2
  = draws w ++ [{| dc_text := string_of_rune r;
                   dc_at := draw_point i slotW imgH advance |}].
Proof.
  intros Hsrc Hwf Hl Ha.
  destruct (renderRune_spec c src f slotW imgH dpi size verb (i, r) p
              Hsrc Hwf) as (p' & _ & _ & Hrun).
  rewrite (Hrun l w Hl). unfold rune_calls. simpl fst; simpl snd.
  rewrite Ha. unfold render_world. autorewrite with world. reflexivity.
Qed.

(** X4. A glyph no wider than the slot is drawn inside its slot, centred
    to the pixel: the call of [DrawString] that the loop of [renderText]
    makes for the rune at byte offset [i] is at the left edge x (in 64ths
    of a pixel), the advance box [x, x + width) lies inside the slot
    [i*slotW, (i+1)*slotW), and the two margins differ by at most one
    pixel. *)
Theorem glyph_is_centred_in_its_slot (c : Context) (src : Image) (f : Font)
    (slotW imgH : Z) (dpi size : float64) (verb : bool) (i r advance : Z)
    (p : RGBA) (l : loc) (w : World) :
  c_src c = Some src -> wf p -> images w !! l = Some p ->
  Face_GlyphAdvance f size dpi r = Some advance ->
  0 <= i -> 0 <= glyphWidthPx advance <= slotW -> (i + 1) * slotW < 2 ^ 25 ->
  exists x y26,
    draws (renderRune (SetDst l c) f slotW imgH dpi size verb (i, r) w).2
    = draws w ++ [{| dc_text := string_of_rune r;
                     dc_at := {| X26 := 64 * x; Y26 := y26 |} |}]
    /\ i * slotW <= x
    /\ x + glyphWidthPx advance <= (i + 1) * slotW
    /\ -1 <= ((i + 1) * slotW - (x + glyphWidthPx advance)) - (x - i * slotW)
       <= 1.
Proof.
  intros Hsrc Hwf Hl Ha Hi Hg Hmax.
  exists (i * slotW + (slotW / 2 - glyphWidthPx advance / 2)),
         (Y26 (draw_point i slotW imgH advance)).
  split.
  - rewrite (renderRune_draws c src f slotW imgH dpi size verb i r advance
               p l w Hsrc Hwf Hl Ha).
    rewrite <- (draw_point_X i slotW imgH advance Hi Hg Hmax).
    destruct (draw_point i slotW imgH advance). reflexivity.
  - pose proof (centred_margins slotW (glyphWidthPx advance) Hg). lia.
Qed.

(** X5. The baseline is a row of the canvas, two thirds of the way down
    (rounded down), for every height from 1 up to the range of 26.6
    fixed-point coordinates: the call of [DrawString] for a rune is at
    y = 2*imgH/3, in 64ths of a pixel. *)
Theorem baseline_is_inside_the_canvas (c : Context) (src : Image) (f : Font)
    (slotW imgH : Z) (dpi size : float64) (verb : bool) (i r advance : Z)
    (p : RGBA) (l : loc) (w : World) :
  c_src c = Some src -> wf p -> images w !! l = Some p ->
  Face_GlyphAdvance f size dpi r = Some advance ->
  1 <= imgH < 2 ^ 25 ->
  exists x26,
    draws (renderRune (SetDst l c) f slotW imgH dpi size verb (i, r) w).2
    = draws w ++ [{| dc_text := string_of_rune r;
                     dc_at := {| X26 := x26; Y26 := 64 * (2 * imgH / 3) |} |}]
    /\ 0 <= 2 * imgH / 3 < imgH
    /\ 3 * (2 * imgH / 3) <= 2 * imgH < 3 * (2 * imgH / 3) + 3.
Proof.
  intros Hsrc Hwf Hl Ha Hh.
  pose proof (Z.div_mod (2 * imgH) 3 ltac:(lia)) as Hd.
  pose proof (Z.mod_pos_bound (2 * imgH) 3 ltac:(lia)) as Hm.
  exists (X26 (draw_point i slotW imgH advance)). split; [|lia].
  rewrite (renderRune_draws c src f slotW imgH dpi size verb i r advance
             p l w Hsrc Hwf Hl Ha).
  rewrite <- (draw_point_Y i slotW imgH advance ltac:(lia)).
  destruct (draw_point i slotW imgH advance). reflexivity.
Qed.

(** X9. When every glyph of the font is at most as wide as a slot, every
    call of [DrawString] that [renderText] makes is at a pixel of the
    canvas [main] allocates for the text: the slot index, a byte offset,
    is below the byte length the canvas is sized by. *)
Theorem glyphs_are_placed_on_the_canvas (c : Context) (src : Image)
    (f : Font) (t : string) (slotW imgH : Z) (dpi size : float64)
    (verb : bool) (p : RGBA) (l : loc) (w : World) :
  c_src c = Some src -> wf p -> images w !! l = Some p ->
  1 <= slotW -> len t * slotW < 2 ^ 25 -> 1 <= imgH < 2 ^ 25 ->
  (forall r a, Face_GlyphAdvance f size dpi r = Some a ->
     0 <= glyphWidthPx a <= slotW) ->
  exists calls,
    draws (renderText (SetDst l c) f t slotW imgH dpi size verb w).2
    = draws w ++ calls
    /\ forall call, call ∈ calls ->
         exists x y,
           dc_at call = {| X26 := 64 * x; Y26 := 64 * y |}
           /\ In_rect x y (Rect 0 0 (canvas_width (len t) slotW) imgH) = true.
Proof.
  intros Hsrc Hwf Hl Hs Hmax Hh Hwide.
  destruct (forM_renderRune_spec c src f slotW imgH dpi size verb
              (range_string t) Hsrc p Hwf) as (p' & _ & Hrun).
  exists (range_string t ≫= rune_calls f slotW imgH dpi size). split.
  { unfold renderText. rewrite (Hrun l w Hl). unfold render_world.
    autorewrite with world. reflexivity. }
  intros call Hcall.
  apply list_elem_of_bind in Hcall as ([i r] & Hcall & Hin).
  destruct (range_string_elem t i r Hin) as [Hi _].
  unfold rune_calls in Hcall. simpl in Hcall.
  destruct (Face_GlyphAdvance f size dpi r) as [a|] eqn:Ha;
    [|apply elem_of_nil in Hcall; contradiction].
  apply list_elem_of_singleton in Hcall. subst call. simpl dc_at.
  pose proof (Hwide r a Ha) as Hg.
  assert (Hnext : (i + 1) * slotW <= len t * slotW) by nia.
  exists (i * slotW + (slotW / 2 - glyphWidthPx a / 2)), (2 * imgH / 3).
  split.
  - pose proof (draw_point_X i slotW imgH a ltac:(lia) Hg ltac:(lia)) as HX.
    pose proof (draw_point_Y i slotW imgH a ltac:(lia)) as HY.
    destruct (draw_point i slotW imgH a) as [px py]. simpl in *.
    congruence.
  - rewrite canvas_width_exact
      by (unfold maxInt; lia).
    destruct (Z.eqb_spec (len t) 0) as [H0 | _]; [lia|].
    pose proof (centred_margins slotW (glyphWidthPx a) Hg) as Hm.
    pose proof (Z.div_mod (2 * imgH) 3 ltac:(lia)) as Hd.
    pose proof (Z.mod_pos_bound (2 * imgH) 3 ltac:(lia)) as Hmod.
    assert (Hs2 : slotW / 2 < slotW) by (apply Z.div_lt; lia).
    assert (Hg2 : 0 <= glyphWidthPx a / 2) by (apply Z.div_pos; lia).
    apply In_rect_spec. unfold Rect.
    destruct (Z.ltb_spec (len t * slotW) 0); [nia|].
    destruct (Z.ltb_spec imgH 0); [lia|]. simpl. nia.
Qed.

End Placement.

(* ================================================================== *)
(** * The monolithic program and its refactoring *)
(* ================================================================== *)

Section Refactoring.
Context `{L : Lib}.

Lemma bind_assoc {A B C} (m : M A) (g : A -> M B) (k : B -> M C) (w : World) :
  bind (bind m g) k w = bind m (fun x => bind (g x) k) w.
Proof.
  unfold bind. destruct (m w) as [[a| |] w1]; reflexivity.
Qed.

Lemma bind_ext {A B} (m : M A) (k k' : A -> M B) (w : World) :
  (forall a w', k a w' = k' a w') -> bind m k w = bind m k' w.
Proof.
  intros H. unfold bind. destruct (m w) as [[a| |] w1]; [apply H | | ];
    reflexivity.
Qed.

Lemma bind_cong {A B} (m m' : M A) (k k' : A -> M B) (w : World) :
  m w = m' w -> (forall a w', k a w' = k' a w') -> bind m k w = bind m' k' w.
Proof. intros Hm Hk. unfold bind. rewrite Hm. apply (bind_ext m' k k' w Hk). Qed.

Lemma forM_ext {A} (l : list A) (body body' : A -> M unit) (w : World) :
  (forall a w', body a w' = body' a w') -> forM_ l body w = forM_ l body' w.
Proof.
  intros H. revert w. induction l as [|a l IH]; intros w; [reflexivity|].
  simpl. unfold bind. rewrite H.
  destruct (body' a w) as [[[]| |] w1]; [apply IH | | ]; reflexivity.
Qed.

(** The loop body of the monolithic [main] is the loop body of
    [renderText] for a slot width of 250 and a height of 192, with
    printing. *)
Lemma Legacy_renderRune_eq (c : Context) (f : Font) (fl : Legacy.Flags)
    (ir : Z * Z) (w : World) :
  Legacy.renderRune c f fl ir w
  = renderRune c f 250 192 (Legacy.dpi fl) (Legacy.fontSize fl) true ir w.
Proof. destruct ir as [i r]. reflexivity. Qed.

(** The end of the monolithic [main], where the deferred [Close] runs
    after the last message, leaves the same world as [saveImage] followed
    by the message. *)
Lemma Legacy_save_eq (rgba : loc) (w : World) :
  bind (os_Create Legacy.outFileName)
    (fun r =>
       match r with
       | inr err => log_Fatalf "Error creating output file: %v" [ArgErr err]
       | inl outFile =>
         defer (File_Close outFile)
           (let bWriter := bufio_NewWriter outFile in
            let* '(bWriter, err) := png_Encode bWriter rgba in
            match err with
            | Some e => log_Fatalf "Error encoding PNG: %v" [ArgErr e]
            | None =>
              let* '(_, err) := bufio_Flush bWriter in
              match err with
              | Some e => log_Fatalf "Error flushing buffer: %v" [ArgErr e]
              | None =>
                fmt_Printf "Successfully wrote %s\n"
                           [ArgStr Legacy.outFileName]
              end
            end)
       end) w
  = bind (saveImage "out.png" rgba)
      (fun _ => fmt_Printf "Successfully wrote %s\n" [ArgStr "out.png"]) w.
Proof.
  unfold saveImage. rewrite bind_assoc. apply bind_ext.
  intros [out | err] w1; [|reflexivity].
  unfold defer, bind.
  destruct (png_Encode (bufio_NewWriter out) rgba w1)
    as [[[bw [e|]]| |] w2]; try reflexivity.
  destruct (bufio_Flush bw w2) as [[[bw' [e|]]| |] w3]; reflexivity.
Qed.

End Refactoring.

Section Pipeline.
Context `{L : Lib}.

Lemma Legacy_main_eq (fl : Legacy.Flags) (w : World) :
  Legacy.main fl w
  = (let* f := loadFont (Legacy.fontfile fl) true in
     let '(fg, bg, rulerColor) := getColors (Legacy.wonb fl) in
     let* rgba := createImage (len (Legacy.text fl)) 250 200 bg rulerColor
                              true in
     let* c := getFreeTypeContext f (Legacy.dpi fl) (Legacy.fontSize fl) rgba
                                  fg (Legacy.hinting fl) in
     renderText c f (Legacy.text fl) 250 192 (Legacy.dpi fl)
                (Legacy.fontSize fl) true >>
     saveImage "out.png" rgba >>
     fmt_Printf "Successfully wrote %s\n" [ArgStr "out.png"]) w.
Proof.
  unfold Legacy.main, loadFont.
  change (when true ?m) with m.
  rewrite bind_assoc. apply bind_ext. intros [] w1.
  rewrite bind_assoc. apply bind_ext. intros [b|e] w2; [|reflexivity].
  destruct (truetype_Parse b) as [f|e]; [|reflexivity].
  change (bind (ret f) ?k w2) with (k f w2). cbv beta.
  unfold getColors, createImage, getFreeTypeContext, renderText.
  destruct (Legacy.wonb fl); cbv zeta beta iota.
  all: rewrite bind_assoc; apply bind_ext; intros rgba w3.
  all: rewrite bind_assoc; apply bind_ext; intros m w4.
  all: rewrite bind_assoc; apply bind_ext; intros [] w5.
  all: change (when true ?m) with m.
  all: rewrite bind_assoc; apply bind_ext; intros [] w6.
  all: match goal with
       | |- _ = bind (ret ?c) ?k ?w' => change (bind (ret c) k w') with (k c w')
       end; cbv beta.
  all: rewrite bind_assoc; apply bind_ext; intros m0 w7.
  all: match goal with
       | |- _ = bind (ret ?c) ?k ?w' => change (bind (ret c) k w') with (k c w')
       end; cbv beta.
  all: apply bind_cong;
    [apply forM_ext; intros a w'; apply Legacy_renderRune_eq
    |intros [] w8; apply Legacy_save_eq].
Qed.

(** X18. The monolithic [main] is the composition of the functions it was
    split into, with a slot width of 250, a canvas height of 200,
    guidelines, printing, and the output file [out.png], except for the
    baseline: its constant 128 is the baseline [renderText] computes for a
    height of 192, while for the height 200 of the canvas [renderText]
    computes 133. *)
Theorem Legacy_main_is_the_pipeline (fl : Legacy.Flags) (w : World) :
  Legacy.main fl w
  = (let* f := loadFont (Legacy.fontfile fl) true in
     let '(fg, bg, rulerColor) := getColors (Legacy.wonb fl) in
     let* rgba := createImage (len (Legacy.text fl)) 250 200 bg rulerColor
                              true in
     let* c := getFreeTypeContext f (Legacy.dpi fl) (Legacy.fontSize fl) rgba
                                  fg (Legacy.hinting fl) in
     renderText c f (Legacy.text fl) 250 192 (Legacy.dpi fl)
                (Legacy.fontSize fl) true >>
     saveImage "out.png" rgba >>
     fmt_Printf "Successfully wrote %s\n" [ArgStr "out.png"]) w
  /\ forall i a,
       Y26 (draw_point i 250 192 a) = 64 * 128
       /\ Y26 (draw_point i 250 200 a) = 64 * 133.
Proof.
  split; [apply Legacy_main_eq | intros i a; split; reflexivity].
Qed.

End Pipeline.

Section LegacyRun.
Context `{L : Lib}.

Lemma Legacy_canvas (n : Z) :
  0 <= n -> n * 250 < 2 ^ 31 ->
  let r := Rect 0 0 (canvas_width n 250) 200 in
  r = {| Min := Pt 0 0; Max := Pt (if n =? 0 then 250 else n * 250) 200 |}
  /\ allocatable r = true /\ png_rect_ok r = true.
Proof.
  intros Hn Hmax. cbv zeta.
  rewrite canvas_width_exact by (unfold maxInt; lia).
  set (cw := if n =? 0 then 250 else n * 250).
  assert (Hcw : 1 <= cw < 2 ^ 31) by (unfold cw; destruct (Z.eqb_spec n 0); lia).
  assert (Hr : Rect 0 0 cw 200 = {| Min := Pt 0 0; Max := Pt cw 200 |}).
  { unfold Rect. destruct (Z.ltb_spec cw 0); [lia | reflexivity]. }
  rewrite Hr. split; [reflexivity|].
  unfold allocatable, png_rect_ok, Dx, Dy, int_sub.
  simpl X; simpl Y. rewrite Z.sub_0_r.
  rewrite (wrapInt_id cw) by (unfold is_int, minInt, maxInt; lia).
  change (wrapInt (200 - 0)) with 200.
  rewrite (mul3NonNeg_exact 4 cw 200) by (unfold maxInt; lia).
  unfold maxAlloc.
  destruct (Z.ltb_spec (4 * cw * 200) 0); [lia|].
  destruct (Z.ltb_spec (2 ^ 48) (4 * cw * 200)); [lia|].
  destruct (Z.leb_spec cw 0); [lia|].
  destruct (Z.leb_spec (2 ^ 32) cw); [lia|].
  split; reflexivity.
Qed.

(** X19. The monolithic program on a text of fewer than 2^31/250 bytes, when
    the font loads and the operating system refuses nothing: it returns;
    [out.png] holds the PNG of an image 250 pixels wide per byte of the
    text (250 for the empty text) and 200 pixels high, and is closed; the
    first line printed is the loading message and the last one the success
    message. *)
Theorem Legacy_main_writes_out_png (fl : Legacy.Flags) (f : Font) :
  len (Legacy.text fl) * 250 < 2 ^ 31 ->
  exists p',
    wf p'
    /\ Bounds p'
       = {| Min := Pt 0 0;
            Max := Pt (if len (Legacy.text fl) =? 0 then 250
                       else len (Legacy.text fl) * 250) 200 |}
    /\ forall w b,
         read_file w (Legacy.fontfile fl) = inl b ->
         truetype_Parse b = inl f ->
         create_fault w "out.png" = None -> write_fault w "out.png" = None ->
         exists w' mid,
           Legacy.main fl w = (Ok tt, w')
           /\ files w' = <["out.png"%string := png_bytes p']> (files w)
           /\ opened w' = opened w
           /\ output w'
              = output w
                  ++ [{| stream := Stdout; format := "Loading fontfile %q\n";
                         args := [ArgStr (Legacy.fontfile fl)] |}]
                  ++ mid
                  ++ [{| stream := Stdout;
                         format := "Successfully wrote %s\n";
                         args := [ArgStr "out.png"] |}].
Proof.
  intros Hmax.
  assert (Hn : 0 <= len (Legacy.text fl)) by (unfold len; lia).
  destruct (Legacy_canvas _ Hn Hmax) as (Hr & Ha & Hpng).
  set (r := Rect 0 0 (canvas_width (len (Legacy.text fl)) 250) 200) in *.
  assert (H250 : is_int 250) by (unfold is_int, minInt, maxInt; lia).
  assert (H200 : is_int 200) by (unfold is_int, minInt, maxInt; lia).
  pose proof (createImage_spec (len (Legacy.text fl)) 250 200
                (getColors (Legacy.wonb fl)).1.2 (getColors (Legacy.wonb fl)).2
                true H250 H200) as Hcreate.
  cbv zeta in Hcreate. fold r in Hcreate.
  destruct (NewRGBA_allocatable r Ha) as [p0 Hp0]. rewrite Hp0 in Hcreate.
  destruct Hcreate as (p & Hrun & Hwf & HB & _).
  set (c := base_context f (Legacy.dpi fl) (Legacy.fontSize fl) r
              (getColors (Legacy.wonb fl)).1.1 (Legacy.hinting fl)).
  destruct (forM_renderRune_spec c (getColors (Legacy.wonb fl)).1.1 f
              250 192 (Legacy.dpi fl) (Legacy.fontSize fl) true
              (range_string (Legacy.text fl)) eq_refl p Hwf)
    as (p' & Hun & Hrender).
  assert (HB' : Bounds p' = r) by (rewrite (proj1 (proj2 Hun)); exact HB).
  exists p'. split; [exact (proj1 Hun)|]. split; [rewrite HB'; exact Hr|].
  intros w b Hread Hparse Hc Hw.
  rewrite Legacy_main_eq.
  pose proof (loadFont_run (Legacy.fontfile fl) true w) as Hload.
  rewrite Hread, Hparse in Hload.
  rewrite (bind_ok _ _ _ _ _ Hload).
  set (w1 := with_output _ w).
  destruct (getColors (Legacy.wonb fl)) as [[fg bg] ruler] eqn:Hcol.
  simpl in Hrun, Hrender.
  rewrite (bind_ok _ _ _ _ _ (Hrun w1)).
  set (w2 := with_images (images w1 ++ [p]) w1).
  assert (Hl : images w2 !! length (images w1) = Some p).
  { unfold w2. simpl. rewrite lookup_app_r, Nat.sub_diag by lia. reflexivity. }
  rewrite (bind_ok _ _ _ _ _
             (getFreeTypeContext_run f (Legacy.dpi fl) (Legacy.fontSize fl) _
                fg (Legacy.hinting fl) w2 p Hl)).
  rewrite HB. unfold renderText. subst c. simpl in Hrender.
  rewrite (bind_ok _ _ _ _ _ (Hrender _ w2 Hl)).
  set (lines := range_string (Legacy.text fl) ≫= _).
  set (calls := range_string (Legacy.text fl) ≫= _).
  set (w3 := render_world _ _ _ _ _).
  assert (Hl3 : images w3 !! length (images w1) = Some p').
  { unfold w3. apply render_world_lookup with (p := p). exact Hl. }
  destruct (saveImage_cases "out.png" _ w3 p' Hl3)
    as [(_ & _ & Hsave) | [(e & He & _)
        | (fmt & e & pre & _ & _ & Hbad & _)]].
  - rewrite (bind_ok _ _ _ _ _ Hsave).
    eexists _, lines. split; [reflexivity|].
    unfold fmt_Printf, emit. autorewrite with world.
    split; [reflexivity|]. split; [reflexivity|].
    unfold w3, render_world, w2, w1, load_lines. autorewrite with world.
    rewrite <- !app_assoc. reflexivity.
  - exfalso. change (create_fault w3 "out.png") with
      (create_fault w "out.png") in He. congruence.
  - exfalso. destruct Hbad as [[Hbad _] | [e' Hbad]].
    + unfold png_size_ok in Hbad. rewrite HB' in Hbad. congruence.
    + change (write_fault w3 "out.png") with (write_fault w "out.png") in Hbad.
      congruence.
Qed.

End LegacyRun.

(* ================================================================== *)
(** * More on the runs of the program *)
(* ================================================================== *)

Section Messages.
Context `{L : Lib}.

Lemma success_line_not_in_rune_lines (c : Context) (f : Font)
    (slotW imgH : Z) (dpi size : float64) (verb : bool) (rs : list (Z * Z))
    (path : string) :
  {| stream := Stdout; format := "Successfully wrote %s\n";
     args := [ArgStr path] |}
  ∉ rs ≫= rune_lines c f slotW imgH dpi size verb.
Proof.
  intros Hl. apply list_elem_of_bind in Hl as (ir & Hl & _).
  unfold rune_lines, width_lines in Hl.
  destruct (Face_GlyphAdvance f size dpi ir.2).
  - apply elem_of_app in Hl as [Hl | Hl].
    + destruct verb; [|apply elem_of_nil in Hl; contradiction].
      apply list_elem_of_singleton in Hl. discriminate.
    + destruct (draw_error _ _ _);
        [|apply elem_of_nil in Hl; contradiction].
      apply list_elem_of_singleton in Hl. discriminate.
  - apply list_elem_of_singleton in Hl. discriminate.
Qed.

(** X16. The message "Successfully wrote" tells the truth: among the lines a
    run prints it appears exactly when [-verbose] is set and [main]
    returns, and then the output file holds the PNG of the canvas and is
    closed. *)
Theorem success_message_iff_written (fl : Flags) (w : World) :
  is_int (slotWidth fl) -> is_int (imageHeight fl) ->
  exists ls,
    output (main fl w).2 = output w ++ ls
    /\ ({| stream := Stdout; format := "Successfully wrote %s\n";
           args := [ArgStr (outFile fl)] |} ∈ ls
        <-> verbose fl = true /\ (main fl w).1 = Ok tt)
    /\ ((main fl w).1 = Ok tt ->
        exists p',
          Bounds p' = Rect 0 0 (canvas_width (len (text fl)) (slotWidth fl))
                           (imageHeight fl)
          /\ files (main fl w).2 !! outFile fl = Some (png_bytes p')
          /\ opened (main fl w).2 = opened w).
Proof.
  intros Hs Hh.
  set (done := {| stream := Stdout; format := "Successfully wrote %s\n";
                  args := [ArgStr (outFile fl)] |}).
  assert (Hload : done ∉ load_lines (verbose fl) (fontfile fl)).
  { unfold load_lines. destruct (verbose fl); [|apply not_elem_of_nil].
    intros H. apply list_elem_of_singleton in H. discriminate. }
  assert (Hfatal : forall fmt e, done ∉ [fatal_line fmt e]).
  { intros fmt e H. apply list_elem_of_singleton in H. discriminate. }
  destruct (main_outcome fl w Hs Hh)
    as [(e & _ & ->) | [(b' & e & _ & _ & ->)
       | (b' & f' & _ & _ & Hcases)]].
  - eexists. simpl. split; [reflexivity|]. split; [|discriminate]. split.
    + intros H. apply elem_of_app in H as [H | H]; [contradiction|].
      exfalso. exact (Hfatal _ _ H).
    + intros [_ H]. discriminate.
  - eexists. simpl. split; [reflexivity|]. split; [|discriminate]. split.
    + intros H. apply elem_of_app in H as [H | H]; [contradiction|].
      exfalso. exact (Hfatal _ _ H).
    + intros [_ H]. discriminate.
  - cbv zeta in Hcases.
    destruct Hcases as [(_ & msg & ->) | (_ & p' & res & w' & -> & _ & HB & _
                                          & _ & Hend)].
    + eexists. simpl. split; [reflexivity|]. split; [|discriminate]. split.
      * intros H. contradiction.
      * intros [_ H]. discriminate.
    + simpl fst. simpl snd.
      destruct Hend as [(-> & _ & _ & Hf & Ho & ->) | [(-> & e & _ & _ & _ & ->)
         | (-> & _ & fmt & e & written & _ & _ & _ & _ & ->)]];
        (eexists; split; [reflexivity|]); (split; [split|]).
      * intros H. split; [|reflexivity].
        apply elem_of_app in H as [H | H].
        { apply elem_of_app in H as [H | H]; [contradiction|].
          exfalso. exact (success_line_not_in_rune_lines _ _ _ _ _ _ _ _ _ H). }
        unfold done_lines in H. destruct (verbose fl); [reflexivity|].
        apply elem_of_nil in H. contradiction.
      * intros [Hv _]. apply elem_of_app. right. unfold done_lines.
        rewrite Hv. apply list_elem_of_singleton. reflexivity.
      * intros _. exists p'. split; [exact HB|]. rewrite Hf.
        split; [apply lookup_insert_eq | exact Ho].
      * intros H. exfalso. apply elem_of_app in H as [H | H].
        { apply elem_of_app in H as [H | H]; [contradiction|].
          exact (success_line_not_in_rune_lines _ _ _ _ _ _ _ _ _ H). }
        exact (Hfatal _ _ H).
      * intros [_ H]. discriminate.
      * discriminate.
      * intros H. exfalso. apply elem_of_app in H as [H | H].
        { apply elem_of_app in H as [H | H]; [contradiction|].
          exact (success_line_not_in_rune_lines _ _ _ _ _ _ _ _ _ H). }
        exact (Hfatal _ _ H).
      * intros [_ H]. discriminate.
      * discriminate.
Qed.

(** X17. Running the program again changes nothing: when the output file is
    not the font file, a second successful run with the same flags, on the
    machine the first run left, leaves every file as the first run left
    it. *)
Theorem second_run_changes_no_file (fl : Flags) (w w1 w2 : World) :
  is_int (slotWidth fl) -> is_int (imageHeight fl) ->
  fontfile fl <> outFile fl ->
  main fl w = (Ok tt, w1) -> main fl w1 = (Ok tt, w2) ->
  files w2 = files w1.
Proof.
  intros Hs Hh Hne Hrun1 Hrun2.
  destruct (main_ok_loads fl w w1 Hrun1) as (b1 & f1 & Hr1 & Hp1).
  destruct (main_ok_loads fl w1 w2 Hrun2) as (b2 & f2 & Hr2 & Hp2).
  destruct (main_ok_inv fl f1 Hs Hh) as (q & Hq).
  destruct (Hq w w1 b1 Hr1 Hp1 Hrun1) as (p1 & Hq1 & Hf1).
  assert (Hb : b2 = b1).
  { apply read_file_inl in Hr1, Hr2. rewrite Hf1 in Hr2.
    rewrite lookup_insert_ne in Hr2 by congruence. congruence. }
  subst b2. assert (f2 = f1) by congruence. subst f2.
  destruct (Hq w1 w2 b1 Hr2 Hp2 Hrun2) as (p2 & Hq2 & Hf2).
  assert (p2 = p1) by congruence. subst p2.
  rewrite Hf2, Hf1. apply insert_insert_eq.
Qed.

End Messages.

(* ================================================================== *)
(** * Texts of several bytes per character *)
(* ================================================================== *)

Lemma range_bytes_nonempty (k b : Z) (s : list Z) :
  utf8.range_bytes k (b :: s) <> [].
Proof.
  cbn [utf8.range_bytes]. destruct (b <? utf8.RuneSelf); [discriminate|].
  destruct (utf8.decoderune (b :: s)). discriminate.
Qed.

Lemma range_bytes_encoderune_alone (r : Z) :
  forallb (fun b => (0 <=? b) && (b <? 256)) (utf8.encoderune r) = true
  /\ utf8.range_bytes 0 (utf8.encoderune r) = [(0, norm_rune r)].
Proof.
  pose proof (rune_roundtrip_ok r) as H. unfold rune_roundtrip in H.
  apply andb_true_iff in H as [Hb H]. split; [exact Hb|].
  destruct (utf8.range_bytes 0 (utf8.encoderune r)) as [|[i r'] l'];
    [discriminate|].
  destruct i; try discriminate. destruct l'; [|discriminate].
  apply Z.eqb_eq in H. subst. reflexivity.
Qed.

(** [decoderune] reads one encoded rune and no further. *)
Lemma decoderune_prefix (s rest : list Z) (r : Z) (wd : nat) :
  utf8.decoderune s = (r, wd) -> wd = length s -> (2 <= wd)%nat ->
  utf8.decoderune (s ++ rest) = (r, wd).
Proof.
  intros Hd Hlen Hw. unfold utf8.decoderune in *.
  destruct s as [|a [|b [|c [|d [|e s]]]]]; simpl in Hlen; subst wd;
    try lia; simpl app; cbv beta iota in Hd |- *.
  - destruct ((utf8.t2 <=? a) && (a <? utf8.t3)); [exact Hd|].
    destruct ((utf8.t3 <=? a) && (a <? utf8.t4)); [discriminate|].
    destruct ((utf8.t4 <=? a) && (a <? utf8.t5)); discriminate.
  - destruct ((utf8.t2 <=? a) && (a <? utf8.t3)); [exact Hd|].
    destruct ((utf8.t3 <=? a) && (a <? utf8.t4)); [exact Hd|].
    destruct ((utf8.t4 <=? a) && (a <? utf8.t5)); discriminate.
  - exact Hd.
  - destruct ((utf8.t2 <=? a) && (a <? utf8.t3)).
    { destruct (utf8.cont b); [|discriminate]. cbv zeta in Hd.
      destruct (_ <? _); discriminate. }
    destruct ((utf8.t3 <=? a) && (a <? utf8.t4)).
    { destruct (utf8.cont b && utf8.cont c); [|discriminate]. cbv zeta in Hd.
      destruct (_ && _); discriminate. }
    destruct ((utf8.t4 <=? a) && (a <? utf8.t5)); [|discriminate].
    destruct (utf8.cont b && utf8.cont c && utf8.cont d); [|discriminate].
    cbv zeta in Hd. destruct (_ && _); discriminate.
Qed.

Lemma range_bytes_cons (k s0 : Z) (s1 : list Z) :
  utf8.range_bytes k (s0 :: s1)
  = if s0 <? utf8.RuneSelf then (k, s0) :: utf8.range_bytes (k + 1) s1
    else
      let '(r, w) := utf8.decoderune (s0 :: s1) in
      (k, r) ::
      match w, s1 with
      | 2%nat, _ :: s2 => utf8.range_bytes (k + 2) s2
      | 3%nat, _ :: _ :: s3 => utf8.range_bytes (k + 3) s3
      | 4%nat, _ :: _ :: _ :: s4 => utf8.range_bytes (k + 4) s4
      | _, _ => utf8.range_bytes (k + 1) s1
      end.
Proof. reflexivity. Qed.

(** The loop over an encoded rune followed by more text: the rune, then
    the rest of the text from the next byte on. *)
Lemma range_bytes_encoderune (r k : Z) (rest : list Z) :
  utf8.ValidRune r = true ->
  utf8.range_bytes k (utf8.encoderune r ++ rest)
  = (k, r) :: utf8.range_bytes (k + Z.of_nat (length (utf8.encoderune r))) rest.
Proof.
  intros Hv.
  destruct (range_bytes_encoderune_alone r) as [_ Halone].
  unfold norm_rune in Halone. rewrite Hv in Halone.
  destruct (utf8.encoderune r) as [|a s] eqn:He; [discriminate|].
  simpl app. rewrite range_bytes_cons in Halone. rewrite range_bytes_cons.
  destruct (Z.ltb_spec a utf8.RuneSelf) as [Hlow | Hhigh].
  { destruct s as [|b s].
    - injection Halone as ->. reflexivity.
    - injection Halone as _ Hnil. exfalso.
      exact (range_bytes_nonempty _ _ _ Hnil). }
  destruct (utf8.decoderune (a :: s)) as [r' wd] eqn:Hd.
  injection Halone as Hr Hnil. subst r'.
  destruct s as [|b s].
  { exfalso. unfold utf8.decoderune in Hd.
    unfold utf8.encoderune, utf8.encode3 in He.
    destruct ((0 <=? r) && (r <=? utf8.rune1Max)) eqn:H1.
    - injection He as <-.
      apply andb_true_iff in H1 as [_ H1]. apply Z.leb_le in H1.
      unfold utf8.rune1Max, utf8.RuneSelf in *. lia.
    - repeat match type of He with
             | context [if ?c then _ else _] => destruct c
             end; discriminate. }
  assert (Hwd : wd = length (a :: b :: s)).
  { destruct wd as [|[|[|[|[|wd]]]]];
      destruct s as [|c [|d [|e s]]]; try reflexivity;
      try (exfalso; exact (range_bytes_nonempty _ _ _ Hnil)).
    all: exfalso; unfold utf8.encoderune, utf8.encode3 in He;
      repeat match type of He with
             | context [if ?c then _ else _] => destruct c
             end; discriminate. }
  pose proof (decoderune_prefix (a :: b :: s) rest r wd Hd Hwd
                ltac:(subst wd; simpl; lia)) as Hpre.
  simpl app in Hpre |- *. rewrite Hpre. f_equal.
  subst wd. destruct s as [|c [|d [|e s]]]; simpl length.
  - reflexivity.
  - reflexivity.
  - reflexivity.
  - exfalso. unfold utf8.encoderune, utf8.encode3 in He.
    repeat match type of He with
           | context [if ?c then _ else _] => destruct c
           end; discriminate.
Qed.

Lemma range_bytes_runes (rs : list Z) (k : Z) :
  Forall (fun r => utf8.ValidRune r = true) rs ->
  utf8.range_bytes k (rs ≫= utf8.encoderune) = rune_offsets k rs.
Proof.
  intros Hv. revert k. induction Hv as [|r rs Hr Hrs IH]; intros k;
    [reflexivity|].
  rewrite bind_cons, range_bytes_encoderune by exact Hr.
  simpl. rewrite IH. reflexivity.
Qed.

Lemma rune_offsets_lookup (rs : list Z) (k : Z) (n : nat) :
  rune_offsets k rs !! n
  = (fun r => (k + Z.of_nat (length (take n rs ≫= utf8.encoderune)), r))
      <$> rs !! n.
Proof.
  revert k n. induction rs as [|r rs IH]; intros k n; [destruct n; reflexivity|].
  destruct n as [|n].
  - simpl. rewrite Z.add_0_r. reflexivity.
  - change (rune_offsets k (r :: rs) !! S n)
      with (rune_offsets (k + Z.of_nat (length (utf8.encoderune r))) rs !! n).
    rewrite IH.
    change ((r :: rs) !! S n) with (rs !! n).
    change (take (S n) (r :: rs)) with (r :: take n rs).
    rewrite bind_cons, length_app.
    destruct (rs !! n); [|reflexivity]. simpl. f_equal. f_equal. lia.
Qed.

Lemma encoderune_bytes (rs : list Z) :
  forallb (fun b => (0 <=? b) && (b <? 256)) (rs ≫= utf8.encoderune) = true.
Proof.
  induction rs as [|r rs IH]; [reflexivity|].
  rewrite bind_cons, forallb_app, IH, andb_true_r.
  exact (proj1 (range_bytes_encoderune_alone r)).
Qed.

Lemma length_rune_offsets (rs : list Z) (k : Z) :
  length (rune_offsets k rs) = length rs.
Proof.
  revert k. induction rs as [|r rs IH]; intros k; [reflexivity|].
  simpl. rewrite IH. reflexivity.
Qed.

(** X8. For a text that is the UTF-8 encoding of the code points [rs], the
    loop of [renderText] meets these code points in order, and the slot
    index it gives the code point of index [k] is the number of bytes of
    the code points before it: the index [k] itself only when all of them
    are ASCII. *)
Theorem slot_index_is_the_byte_offset (rs : list Z) :
  Forall (fun r => utf8.ValidRune r = true) rs ->
  RuneCountInString (string_of_runes rs) = Z.of_nat (length rs)
  /\ len (string_of_runes rs) = Z.of_nat (length (rs ≫= utf8.encoderune))
  /\ forall k : nat,
       range_string (string_of_runes rs) !! k
       = (fun r => (Z.of_nat (length (take k rs ≫= utf8.encoderune)), r))
           <$> rs !! k.
Proof.
  intros Hv.
  assert (Hr : range_string (string_of_runes rs) = rune_offsets 0 rs).
  { unfold range_string, string_of_runes.
    rewrite bytes_of_string_of_bytes by apply encoderune_bytes.
    apply range_bytes_runes, Hv. }
  split; [|split].
  - unfold RuneCountInString. rewrite Hr, length_rune_offsets. reflexivity.
  - unfold len, string_of_runes.
    generalize (rs ≫= utf8.encoderune). intros l.
    f_equal. induction l as [|b l IH]; simpl; [reflexivity | rewrite IH; reflexivity].
  - intros k. rewrite Hr, rune_offsets_lookup. reflexivity.
Qed.


(* ================================================================== *)
(** * The program run without arguments *)
(* ================================================================== *)

Section Defaults.
Context `{L : Lib}.

(** X20. Run without arguments, when the default font file loads and
    [out.png] can be created and written, the program returns after
    writing to [out.png] the PNG of an image of 480 by 120 pixels: four
    slots of 120 pixels for the four characters of "TEST".  It prints
    nothing on standard output, uses hinting mode none, and every glyph
    it draws is on the baseline y = 80. *)
Theorem defaults_write_480_by_120 (f : Font) :
  exists p',
    wf p' /\ Bounds p' = {| Min := Pt 0 0; Max := Pt 480 120 |}
    /\ range_string (text defaults) = [(0, 84); (1, 69); (2, 83); (3, 84)]
    /\ forall w b,
         read_file w "./LiberationMono-Regular.ttf" = inl b ->
         truetype_Parse b = inl f ->
         create_fault w "out.png" = None -> write_fault w "out.png" = None ->
         exists w' ls calls,
           main defaults w = (Ok tt, w')
           /\ files w' = <["out.png"%string := png_bytes p']> (files w)
           /\ opened w' = opened w
           /\ output w' = output w ++ ls
           /\ Forall (fun l => stream l = Stderr) ls
           /\ draws w' = draws w ++ calls
           /\ Forall (fun c => Y26 (dc_at c) = 64 * 80) calls.
Proof.
  assert (Hs : is_int (slotWidth defaults))
    by (unfold is_int, minInt, maxInt; simpl; lia).
  assert (Hh : is_int (imageHeight defaults))
    by (unfold is_int, minInt, maxInt; simpl; lia).
  destruct (main_succeeds defaults f Hs Hh eq_refl eq_refl)
    as (p' & Hwf & HB & Hrun).
  exists p'. split; [exact Hwf|]. split; [exact HB|].
  split; [reflexivity|].
  intros w b Hr Hp Hc Hw.
  destruct (main_outcome defaults w Hs Hh)
    as [(e & Hr' & _) | [(b' & e & Hr' & Hp' & _)
       | (b' & f' & Hr' & Hp' & Hcases)]];
    try (simpl in Hr'; congruence).
  simpl in Hr'. assert (b' = b) by congruence. subst b'.
  assert (f' = f) by congruence. subst f'.
  cbv zeta in Hcases.
  destruct Hcases as [(Ha & _) | (_ & q & res & w' & Hmain & _ & _ & _ & Hdr
                                  & Hend)]; [discriminate|].
  destruct (Hrun w b Hr Hp Hc Hw) as (w'' & Hmain' & Hf & Ho).
  rewrite Hmain in Hmain'. injection Hmain' as -> ->.
  destruct Hend as [(_ & _ & _ & _ & _ & Hout) | [(He & _) | (He & _)]];
    try discriminate.
  change (load_lines (verbose defaults) (fontfile defaults)) with (@nil Line)
    in Hout.
  change (done_lines (verbose defaults) (outFile defaults)) with (@nil Line)
    in Hout.
  rewrite app_nil_r, app_nil_l in Hout.
  eexists w'', _, _. split; [exact Hmain|].
  split; [exact Hf|]. split; [exact Ho|]. split; [exact Hout|].
  split; [|split; [exact Hdr|]].
  - apply rune_lines_quiet.
  - apply Forall_forall. intros call Hcall.
    apply list_elem_of_bind in Hcall as ([i r] & Hcall & _).
    unfold rune_calls in Hcall. simpl fst in Hcall. simpl snd in Hcall.
    destruct (Face_GlyphAdvance f _ _ r) as [a|];
      [|apply elem_of_nil in Hcall; contradiction].
    apply list_elem_of_singleton in Hcall. subst call. reflexivity.
Qed.

End Defaults.

(* ================================================================== *)
(** * Instances of the further properties on the toy font *)
(* ================================================================== *)

Lemma createImage_pixels_witness :
  is_int 4 /\ is_int 6 /\ 0 <= 2 /\ 1 <= 4 /\ 0 <= 6 /\ 2 * 4 <= maxInt
  /\ allocatable (Rect 0 0 (canvas_width 2 4) 6) = true
  /\ exists p,
       (forall w,
          createImage 2 4 6 image_White (Gray16 0xdddd) true w
          = (Ok (length (images w)), with_images (images w ++ [p]) w))
       /\ Bounds p = {| Min := Pt 0 0; Max := Pt 8 6 |}.
Proof.
  assert (H4 : is_int 4) by (unfold is_int, minInt, maxInt; lia).
  assert (H6 : is_int 6) by (unfold is_int, minInt, maxInt; lia).
  assert (Ht : 0 <= 2) by lia.
  assert (Hs : 1 <= 4) by lia.
  assert (Hh : 0 <= 6) by lia.
  assert (Hm : 2 * 4 <= maxInt) by (unfold maxInt; lia).
  assert (Ha : allocatable (Rect 0 0 (canvas_width 2 4) 6) = true)
    by reflexivity.
  repeat (split; [assumption|]).
  destruct (createImage_pixels 2 4 6 image_White (Gray16 0xdddd) true
              H4 H6 Ht Hs Hh Hm Ha) as (p & Hrun & HB & _).
  exists p. split; [exact Hrun | exact HB].
Defined.

Lemma canvas_is_empty_iff_witness :
  let r := createImage 2 0 6 image_White (Gray16 0xdddd) false Mini.world in
  is_int 0 /\ is_int 6 /\ r = (Ok 0%nat, r.2)
  /\ exists p, images r.2 !! 0%nat = Some p
       /\ (Empty (Bounds p) = true <-> 0 = 0 \/ 6 = 0).
Proof.
  intros r.
  assert (H0 : is_int 0) by (unfold is_int, minInt, maxInt; lia).
  assert (H6 : is_int 6) by (unfold is_int, minInt, maxInt; lia).
  assert (E : r = (Ok 0%nat, r.2)) by (vm_compute; reflexivity).
  split; [exact H0|]. split; [exact H6|]. split; [exact E|].
  exact (canvas_is_empty_iff 2 0 6 image_White (Gray16 0xdddd) false
           Mini.world r.2 0%nat H0 H6 E).
Defined.

Lemma negative_height_has_no_guidelines_witness :
  let r := createImage 2 4 (-3) image_White (Gray16 0xdddd) true Mini.world in
  is_int 4 /\ is_int (-3) /\ - 10 ^ 9 <= -3 < 0
  /\ - 10 ^ 9 <= canvas_width 2 4 <= 10 ^ 9 /\ r = (Ok 0%nat, r.2)
  /\ exists p, images r.2 !! 0%nat = Some p
       /\ Y (Min (Bounds p)) = -3 /\ Y (Max (Bounds p)) = 0
       /\ forall x y, In_rect x y (Bounds p) = true ->
            RGBAAt p x y = RGBAModel (Image_color image_White).
Proof.
  intros r.
  assert (H4 : is_int 4) by (unfold is_int, minInt, maxInt; lia).
  assert (H3 : is_int (-3)) by (unfold is_int, minInt, maxInt; lia).
  assert (Hneg : - 10 ^ 9 <= -3 < 0) by (simpl; lia).
  assert (Hcw : - 10 ^ 9 <= canvas_width 2 4 <= 10 ^ 9)
    by (vm_compute; split; discriminate).
  assert (E : r = (Ok 0%nat, r.2)) by (vm_compute; reflexivity).
  split; [exact H4|]. split; [exact H3|]. split; [exact Hneg|].
  split; [exact Hcw|]. split; [exact E|].
  exact (negative_height_has_no_guidelines 2 4 (-3) image_White
           (Gray16 0xdddd) true Mini.world r.2 0%nat H4 H3 Hneg Hcw E).
Defined.

Lemma ascii_text_one_slot_per_character_witness :
  Forall (fun b => b < utf8.RuneSelf) (bytes_of_string "AB")
  /\ range_string "AB" = [(0, 65); (1, 66)]
  /\ RuneCountInString "AB" = len "AB".
Proof.
  assert (H : Forall (fun b => b < utf8.RuneSelf) (bytes_of_string "AB"))
    by (repeat constructor).
  split; [exact H|].
  exact (ascii_text_one_slot_per_character "AB" H).
Defined.

Lemma empty_canvas_is_a_fatal_encoding_error_witness :
  let fl := Mini.flags "A" 0 6 false in
  is_int (slotWidth fl) /\ is_int (imageHeight fl)
  /\ (slotWidth fl = 0 \/ imageHeight fl = 0)
  /\ files Mini.world_used !! "out.png"%string = Some [7; 7; 7]
  /\ exists e w',
       main (L := Mini.lib) fl Mini.world_used = (Exit 1, w')
       /\ files w' = <[outFile fl := []]> (files Mini.world_used)
       /\ last (output w') = Some (fatal_line "Error encoding PNG: %v" e).
Proof.
  intros fl.
  assert (H0 : is_int (slotWidth fl)) by (unfold is_int, minInt, maxInt; simpl; lia).
  assert (H6 : is_int (imageHeight fl))
    by (unfold is_int, minInt, maxInt; simpl; lia).
  assert (Hz : slotWidth fl = 0 \/ imageHeight fl = 0) by (left; reflexivity).
  split; [exact H0|]. split; [exact H6|]. split; [exact Hz|].
  split; [reflexivity|].
  exact (empty_canvas_is_a_fatal_encoding_error (L := Mini.lib) fl
           Mini.world_used [1; 63; 35] Mini.font H0 H6 Hz eq_refl eq_refl
           eq_refl eq_refl).
Defined.

Lemma main_changes_no_other_file_witness :
  let fl := Mini.flags "A" 4 6 false in
  is_int (slotWidth fl) /\ is_int (imageHeight fl)
  /\ "font.ttf"%string <> outFile fl
  /\ files (main (L := Mini.lib) fl Mini.world).2 !! "font.ttf"%string
     = files Mini.world !! "font.ttf"%string.
Proof.
  intros fl.
  assert (H4 : is_int (slotWidth fl))
    by (unfold is_int, minInt, maxInt; simpl; lia).
  assert (H6 : is_int (imageHeight fl))
    by (unfold is_int, minInt, maxInt; simpl; lia).
  assert (Hne : "font.ttf"%string <> outFile fl) by discriminate.
  split; [exact H4|]. split; [exact H6|]. split; [exact Hne|].
  exact (main_changes_no_other_file (L := Mini.lib) fl Mini.world "font.ttf"
           H4 H6 Hne).
Defined.

Lemma main_panics_only_on_allocation_witness :
  let fl := Mini.flags "A" (2 ^ 47) 1 false in
  is_int (slotWidth fl) /\ is_int (imageHeight fl)
  /\ exists msg, (main (L := Mini.lib) fl Mini.world).1 = Panic msg.
Proof.
  intros fl.
  assert (Hs : is_int (slotWidth fl))
    by (unfold is_int, minInt, maxInt; simpl; lia).
  assert (Hh : is_int (imageHeight fl))
    by (unfold is_int, minInt, maxInt; simpl; lia).
  split; [exact Hs|]. split; [exact Hh|].
  apply (proj1 (main_panics_only_on_allocation (L := Mini.lib) fl Mini.world
                  Hs Hh)).
  split; [|reflexivity].
  exists [1; 63; 35], Mini.font. split; reflexivity.
Defined.

Lemma nothing_on_stdout_unless_verbose_witness :
  let fl := Mini.flags "A?" 4 6 false in
  is_int (slotWidth fl) /\ is_int (imageHeight fl) /\ verbose fl = false
  /\ exists ls,
       output (main (L := Mini.lib) fl Mini.world).2
       = output Mini.world ++ ls
       /\ Forall (fun l => stream l = Stderr) ls.
Proof.
  intros fl.
  assert (Hs : is_int (slotWidth fl))
    by (unfold is_int, minInt, maxInt; simpl; lia).
  assert (Hh : is_int (imageHeight fl))
    by (unfold is_int, minInt, maxInt; simpl; lia).
  assert (Hv : verbose fl = false) by reflexivity.
  split; [exact Hs|]. split; [exact Hh|]. split; [exact Hv|].
  exact (nothing_on_stdout_unless_verbose (L := Mini.lib) fl Mini.world
           Hs Hh Hv).
Defined.

Lemma saveImage_writes_the_png_and_closes_witness :
  let w := with_images [Mini.canvas] Mini.world_used in
  images w !! 0%nat = Some Mini.canvas
  /\ saveImage (L := Mini.lib) "out.png" 0%nat w
     = (Ok tt,
        with_files (<["out.png"%string := png_bytes (L := Mini.lib) Mini.canvas]>
                      (files w)) w).
Proof.
  intros w.
  assert (Hl : images w !! 0%nat = Some Mini.canvas) by reflexivity.
  split; [exact Hl|].
  exact (proj1 (saveImage_writes_the_png_and_closes (L := Mini.lib) "out.png"
                  0%nat w Mini.canvas Hl) eq_refl eq_refl eq_refl).
Defined.

Lemma Legacy_main_writes_out_png_witness :
  let fl := Mini.legacy_flags "AB" in
  len (Legacy.text fl) * 250 < 2 ^ 31
  /\ exists p',
       wf p' /\ Bounds p' = {| Min := Pt 0 0; Max := Pt 500 200 |}.
Proof.
  intros fl.
  assert (H : len (Legacy.text fl) * 250 < 2 ^ 31) by (vm_compute; reflexivity).
  split; [exact H|].
  destruct (Legacy_main_writes_out_png (L := Mini.lib) fl Mini.font H)
    as (p' & Hwf & HB & _).
  exists p'. split; [exact Hwf | exact HB].
Defined.

Lemma success_message_iff_written_witness :
  let fl := Mini.flags "A" 4 6 false in
  is_int (slotWidth fl) /\ is_int (imageHeight fl)
  /\ exists ls,
       output (main (L := Mini.lib) fl Mini.world).2 = output Mini.world ++ ls
       /\ ({| stream := Stdout; format := "Successfully wrote %s\n";
              args := [ArgStr (outFile fl)] |} ∈ ls
           <-> verbose fl = true
               /\ (main (L := Mini.lib) fl Mini.world).1 = Ok tt).
Proof.
  intros fl.
  assert (Hs : is_int (slotWidth fl))
    by (unfold is_int, minInt, maxInt; simpl; lia).
  assert (Hh : is_int (imageHeight fl))
    by (unfold is_int, minInt, maxInt; simpl; lia).
  split; [exact Hs|]. split; [exact Hh|].
  destruct (success_message_iff_written (L := Mini.lib) fl Mini.world Hs Hh)
    as (ls & Hout & Hiff & _).
  exists ls. split; [exact Hout | exact Hiff].
Defined.

Lemma second_run_changes_no_file_witness :
  let fl := Mini.flags "AB" 12 6 true in
  let r1 := main (L := Mini.lib) fl Mini.world in
  let r2 := main (L := Mini.lib) fl r1.2 in
  is_int (slotWidth fl) /\ is_int (imageHeight fl)
  /\ fontfile fl <> outFile fl
  /\ r1 = (Ok tt, r1.2) /\ r2 = (Ok tt, r2.2)
  /\ files r2.2 = files r1.2.
Proof.
  intros fl r1 r2.
  assert (H12 : is_int (slotWidth fl))
    by (unfold is_int, minInt, maxInt; simpl; lia).
  assert (H6 : is_int (imageHeight fl))
    by (unfold is_int, minInt, maxInt; simpl; lia).
  assert (Hne : fontfile fl <> outFile fl) by discriminate.
  assert (E1 : r1 = (Ok tt, r1.2)) by (vm_compute; reflexivity).
  assert (E2 : r2 = (Ok tt, r2.2)) by (vm_compute; reflexivity).
  split; [exact H12|]. split; [exact H6|]. split; [exact Hne|].
  split; [exact E1|]. split; [exact E2|].
  exact (second_run_changes_no_file (L := Mini.lib) fl Mini.world r1.2 r2.2
           H12 H6 Hne E1 E2).
Defined.

Lemma slot_index_is_the_byte_offset_witness :
  Forall (fun r => utf8.ValidRune r = true) [233; 97]
  /\ string_of_runes [233; 97] = (Mini.e_acute ++ "a")%string
  /\ range_string (string_of_runes [233; 97]) !! 1%nat = Some (2, 97).
Proof.
  assert (H : Forall (fun r => utf8.ValidRune r = true) [233; 97])
    by (repeat constructor).
  split; [exact H|]. split; [reflexivity|].
  exact (proj2 (proj2 (slot_index_is_the_byte_offset [233; 97] H)) 1%nat).
Defined.

Lemma glyph_is_centred_in_its_slot_witness :
  let c := base_context (L := Mini.lib) Mini.font (float64_of_int 72)
             (float64_of_int 125) (Rect 0 0 2 2) image_Black "none" in
  let w := with_images [Mini.canvas] Mini.world in
  c_src c = Some image_Black /\ wf Mini.canvas
  /\ images w !! 0%nat = Some Mini.canvas
  /\ Face_GlyphAdvance (Lib := Mini.lib) Mini.font (float64_of_int 125)
       (float64_of_int 72) 66 = Some 672
  /\ 0 <= 1 /\ 0 <= glyphWidthPx 672 <= 12 /\ (1 + 1) * 12 < 2 ^ 25
  /\ exists x y26,
       draws (renderRune (L := Mini.lib) (SetDst 0%nat c) Mini.font 12 6
                (float64_of_int 72) (float64_of_int 125) false (1, 66) w).2
       = draws w ++ [{| dc_text := string_of_rune 66;
                        dc_at := {| X26 := 64 * x; Y26 := y26 |} |}]
       /\ 1 * 12 <= x /\ x + glyphWidthPx 672 <= (1 + 1) * 12
       /\ -1 <= ((1 + 1) * 12 - (x + glyphWidthPx 672)) - (x - 1 * 12) <= 1.
Proof.
  intros c w.
  assert (Hsrc : c_src c = Some image_Black) by reflexivity.
  assert (Hwf : wf Mini.canvas) by (unfold wf; simpl; lia).
  assert (Hl : images w !! 0%nat = Some Mini.canvas) by reflexivity.
  assert (Ha : Face_GlyphAdvance (Lib := Mini.lib) Mini.font
                 (float64_of_int 125) (float64_of_int 72) 66 = Some 672)
    by reflexivity.
  assert (Hi : 0 <= 1) by lia.
  assert (G : glyphWidthPx 672 = 10) by reflexivity.
  assert (Hg : 0 <= glyphWidthPx 672 <= 12) by (rewrite G; lia).
  assert (Hm : (1 + 1) * 12 < 2 ^ 25) by lia.
  repeat (split; [assumption|]).
  exact (glyph_is_centred_in_its_slot (L := Mini.lib) c image_Black
           Mini.font 12 6 (float64_of_int 72) (float64_of_int 125) false
           1 66 672 Mini.canvas 0%nat w Hsrc Hwf Hl Ha Hi Hg Hm).
Defined.

Lemma baseline_is_inside_the_canvas_witness :
  let c := base_context (L := Mini.lib) Mini.font (float64_of_int 72)
             (float64_of_int 125) (Rect 0 0 2 2) image_Black "none" in
  let w := with_images [Mini.canvas] Mini.world in
  c_src c = Some image_Black /\ wf Mini.canvas
  /\ images w !! 0%nat = Some Mini.canvas
  /\ Face_GlyphAdvance (Lib := Mini.lib) Mini.font (float64_of_int 125)
       (float64_of_int 72) 66 = Some 672
  /\ 1 <= 120 < 2 ^ 25
  /\ exists x26,
       draws (renderRune (L := Mini.lib) (SetDst 0%nat c) Mini.font 120 120
                (float64_of_int 72) (float64_of_int 125) false (0, 66) w).2
       = draws w ++ [{| dc_text := string_of_rune 66;
                        dc_at := {| X26 := x26;
                                    Y26 := 64 * (2 * 120 / 3) |} |}]
       /\ 0 <= 2 * 120 / 3 < 120.
Proof.
  intros c w.
  assert (Hsrc : c_src c = Some image_Black) by reflexivity.
  assert (Hwf : wf Mini.canvas) by (unfold wf; simpl; lia).
  assert (Hl : images w !! 0%nat = Some Mini.canvas) by reflexivity.
  assert (Ha : Face_GlyphAdvance (Lib := Mini.lib) Mini.font
                 (float64_of_int 125) (float64_of_int 72) 66 = Some 672)
    by reflexivity.
  assert (Hh : 1 <= 120 < 2 ^ 25) by lia.
  repeat (split; [assumption|]).
  destruct (baseline_is_inside_the_canvas (L := Mini.lib) c image_Black
              Mini.font 120 120 (float64_of_int 72) (float64_of_int 125) false
              0 66 672 Mini.canvas 0%nat w Hsrc Hwf Hl Ha Hh)
    as (x26 & Hd & Hin & _).
  exists x26. split; [exact Hd | exact Hin].
Defined.

Lemma glyphs_are_placed_on_the_canvas_witness :
  let c := base_context (L := Mini.lib) Mini.font (float64_of_int 72)
             (float64_of_int 125) (Rect 0 0 2 2) image_Black "none" in
  let w := with_images [Mini.canvas] Mini.world in
  c_src c = Some image_Black /\ wf Mini.canvas
  /\ images w !! 0%nat = Some Mini.canvas
  /\ 1 <= 12 /\ len "AB" * 12 < 2 ^ 25 /\ 1 <= 6 < 2 ^ 25
  /\ (forall r a,
        Face_GlyphAdvance (Lib := Mini.lib) Mini.font (float64_of_int 125)
          (float64_of_int 72) r = Some a ->
        0 <= glyphWidthPx a <= 12)
  /\ exists calls,
       draws (renderText (L := Mini.lib) (SetDst 0%nat c) Mini.font "AB" 12 6
                (float64_of_int 72) (float64_of_int 125) false w).2
       = draws w ++ calls
       /\ forall call, call ∈ calls ->
            exists x y,
              dc_at call = {| X26 := 64 * x; Y26 := 64 * y |}
              /\ In_rect x y (Rect 0 0 (canvas_width (len "AB") 12) 6) = true.
Proof.
  intros c w.
  assert (Hsrc : c_src c = Some image_Black) by reflexivity.
  assert (Hwf : wf Mini.canvas) by (unfold wf; simpl; lia).
  assert (Hl : images w !! 0%nat = Some Mini.canvas) by reflexivity.
  assert (Hs : 1 <= 12) by lia.
  assert (Hm : len "AB" * 12 < 2 ^ 25) by (vm_compute; reflexivity).
  assert (Hh : 1 <= 6 < 2 ^ 25) by lia.
  assert (G : glyphWidthPx 672 = 10) by reflexivity.
  assert (Hw : forall r a,
            Face_GlyphAdvance (Lib := Mini.lib) Mini.font (float64_of_int 125)
              (float64_of_int 72) r = Some a ->
            0 <= glyphWidthPx a <= 12).
  { intros r a Ha. simpl in Ha. destruct ((r =? 63) || false); [discriminate|].
    injection Ha as <-. rewrite G. lia. }
  repeat (split; [assumption|]).
  exact (glyphs_are_placed_on_the_canvas (L := Mini.lib) c image_Black
           Mini.font "AB" 12 6 (float64_of_int 72) (float64_of_int 125) false
           Mini.canvas 0%nat w Hsrc Hwf Hl Hs Hm Hh Hw).
Defined.
